(** * Outflow: lead-enrichment worker and frontend

    A shallow embedding of the parts of the repository that its
    specification talks about: the [searchWeb] and [emailFinder] tools, the
    [PeopleFinder], [EmailFinder] and [Orchestrator] agents, the template
    routes, the [upsertCompany]/[upsertEmployee] helpers, the vector
    population handler and the template prefill of the person card; and of
    the code around them: the [peopleFinder] and [vectorizeSearch] tools,
    the rest of the vector handler with its routes, the finder, research
    and prospecting agents, and the links and the sending of the person
    card.

    Conventions.
    - A JavaScript string is the list of its UTF-16 code units ([jstring]).
    - A call that may throw returns an [Outcome].
    - Services the code calls but does not implement (the Exa search API,
      the language model, [verifyEmail], [JSON.parse], ...) are parameters
      of the section that models their caller. *)

From Stdlib Require Import List NArith ZArith Bool Lia Arith.
From Stdlib Require Import Sorting.Permutation Sorting.Sorted.
From Stdlib Require Strings.String Strings.Ascii Numbers.DecimalString.
Import ListNotations String.StringSyntax.

Set Implicit Arguments.
Set Warnings "-register-all".

(** ** JavaScript strings *)

Module JStr.
Import String.

Definition jstring := list N.

(** An ASCII literal as a JavaScript string. *)
Definition js (s : String.string) : jstring :=
  List.map Ascii.N_of_ascii (String.list_ascii_of_string s).
Arguments js s%_string.

Fixpoint eqb (a b : jstring) : bool :=
  match a, b with
  | [], [] => true
  | x :: a', y :: b' => N.eqb x y && eqb a' b'
  | _, _ => false
  end.

(** [s.startsWith(p)] *)
Fixpoint startsWith (p s : jstring) : bool :=
  match p, s with
  | [], _ => true
  | x :: p', y :: s' => N.eqb x y && startsWith p' s'
  | _ :: _, [] => false
  end.

Definition endsWith (p s : jstring) : bool := startsWith (rev p) (rev s).

(** The characters matched by [\s] in a regular expression and removed by
    [String.prototype.trim]: WhiteSpace and LineTerminator of ECMAScript. *)
Definition is_space (c : N) : bool :=
  ((9 <=? c) && (c <=? 13) || (c =? 32) || (c =? 160) || (c =? 5760)
   || (8192 <=? c) && (c <=? 8202) || (c =? 8232) || (c =? 8233)
   || (c =? 8239) || (c =? 8287) || (c =? 12288) || (c =? 65279))%N.

Fixpoint dropWhile (f : N -> bool) (s : jstring) : jstring :=
  match s with
  | [] => []
  | c :: s' => if f c then dropWhile f s' else s
  end.

Fixpoint takeWhile (f : N -> bool) (s : jstring) : jstring :=
  match s with
  | [] => []
  | c :: s' => if f c then c :: takeWhile f s' else []
  end.

Definition trimStart (s : jstring) : jstring := dropWhile is_space s.
Definition trimEnd (s : jstring) : jstring := rev (dropWhile is_space (rev s)).
Definition trim (s : jstring) : jstring := trimEnd (trimStart s).

(** [a || b] on strings: the empty string is falsy. *)
Definition or_else (a b : jstring) : jstring :=
  match a with [] => b | _ => a end.

(** SQLite's [LOWER]: only the ASCII letters are folded. *)
Definition sql_lower_char (c : N) : N :=
  if ((65 <=? c) && (c <=? 90))%N then (c + 32)%N else c.
Definition sql_lower (s : jstring) : jstring := List.map sql_lower_char s.

(** Does [c] occur in [s]? *)
Definition mem (c : N) (s : jstring) : bool := existsb (N.eqb c) s.

End JStr.

Import JStr.

(** A call either returns or throws. *)
Inductive Outcome (A : Type) : Type :=
| Returned (a : A)
| Threw (message : jstring).
Arguments Returned {A} a.
Arguments Threw {A} message.

(** ** The person card: prefilling the compose form from a template
    (frontend, [PersonCard.handleTemplateSelect], in [src/unnamed/part_000]) *)

Module PersonCard.

Definition dollar : N := 36.
Definition space : N := 32.

(** [name.split(' ')[0]]: everything before the first space. *)
Definition split_first (name : jstring) : jstring :=
  takeWhile (fun c => negb (N.eqb c space)) name.

(** The replacement text of [String.prototype.replace] when the second
    argument is a string (GetSubstitution) and the pattern has no capture
    group: [$$] is a dollar, [$&] the match, [$`] the text before the match,
    [$'] the text after it; every other character stands for itself. *)
Fixpoint get_substitution (matched before after rep : jstring) : jstring :=
  match rep with
  | [] => []
  | c :: r =>
      if N.eqb c dollar then
        match r with
        | d :: r' =>
            if N.eqb d 36 then dollar :: get_substitution matched before after r'
            else if N.eqb d 38 then matched ++ get_substitution matched before after r'
            else if N.eqb d 96 then before ++ get_substitution matched before after r'
            else if N.eqb d 39 then after ++ get_substitution matched before after r'
            else dollar :: get_substitution matched before after r
        | [] => [dollar]
        end
      else c :: get_substitution matched before after r
  end.

(** [s.replace(/pat/g, rep)] for a pattern [pat] that is a non-empty literal:
    the matches are found from left to right and do not overlap. [skip]
    counts the characters of the current match still to be passed over and
    [before] is the part of the subject already read. *)
Fixpoint replace_from (pat rep : jstring) (skip : nat) (before s : jstring)
  : jstring :=
  match s with
  | [] => []
  | c :: s' =>
      match skip with
      | S k => replace_from pat rep k (before ++ [c]) s'
      | O =>
          if startsWith pat s then
            get_substitution pat before (skipn (length pat) s) rep
            ++ replace_from pat rep (length pat - 1) (before ++ [c]) s'
          else c :: replace_from pat rep 0 (before ++ [c]) s'
      end
  end.

Definition replace_global (pat rep s : jstring) : jstring :=
  replace_from pat rep 0 [] s.

Definition ph_firstName : jstring := js "{{firstName}}".
Definition ph_company : jstring := js "{{company}}".

Record Template := { subject : jstring; body : jstring }.

(** The two pieces of component state the handler writes. *)
Record ComposeState := { emailSubject : jstring; emailBody : jstring }.

(** [companyName || 'your company'] for the optional prop. *)
Definition company_or_default (companyName : option jstring) : jstring :=
  match companyName with
  | Some (c :: n) => c :: n
  | _ => js "your company"
  end.

Definition handleTemplateSelect (personName : jstring)
    (companyName : option jstring) (template : Template) (st : ComposeState)
  : ComposeState :=
  let st1 := {| emailSubject := subject template; emailBody := emailBody st |} in
  let firstName := split_first personName in
  let company := company_or_default companyName in
  let body0 := body template in
  let body1 := replace_global ph_firstName firstName body0 in
  let body2 := replace_global ph_company company body1 in
  {| emailSubject := emailSubject st1; emailBody := body2 |}.

(** What the specification asks of a substitution, as a relation: [t] is [s]
    with every occurrence of [pat], read from the left, replaced by [rep]. *)
Definition occurs (pat s : jstring) : Prop :=
  exists pre rest, s = pre ++ pat ++ rest.

Inductive ReplacedAll (pat rep : jstring) : jstring -> jstring -> Prop :=
| RA_none s : ~ occurs pat s -> ReplacedAll pat rep s s
| RA_next pre rest t :
    (forall pre' rest', pre ++ pat ++ rest = pre' ++ pat ++ rest' ->
                        length pre <= length pre') ->
    ReplacedAll pat rep rest t ->
    ReplacedAll pat rep (pre ++ pat ++ rest) (pre ++ rep ++ t).

End PersonCard.

(** ** The tools: [searchWeb] and [emailFinder]
    (worker, both in [src/applyo-worker/src/tools/searchWeb.ts]) *)

Module Tools.

(** Decimal rendering of a length inside a template literal. *)
Definition js_of_nat (n : nat) : jstring :=
  js (DecimalString.NilEmpty.string_of_uint (Nat.to_uint n)).

(** [parts.join(sep)] *)
Fixpoint join (sep : jstring) (parts : list jstring) : jstring :=
  match parts with
  | [] => []
  | [p] => p
  | p :: rest => p ++ sep ++ join sep rest
  end.

(** The bindings the tools read; an unset variable is [None]. *)
Record Env := { EXA_API_KEY : option jstring; OPENAI_API_KEY : option jstring }.

(** [!env.KEY] is false exactly for a non-empty string. *)
Definition key_set (k : option jstring) : bool :=
  match k with Some (_ :: _) => true | _ => false end.

(** The Exa client: options, results and the response of
    [searchAndContents]. *)
Record ExaOptions := {
  type : jstring; useAutoprompt : bool; numResults : nat; maxCharacters : nat }.
Record ExaResult := { title : option jstring; url : jstring; text : jstring }.
Record ExaResponse := { results : option (list ExaResult) }.

Definition ExaClient :=
  jstring -> jstring -> ExaOptions -> Outcome ExaResponse.

Record SearchEntry := {
  entry_title : jstring; entry_url : jstring; entry_content : jstring }.
Record SearchOutput := { search_results : list SearchEntry }.

(** [r.title || "No title"] *)
Definition title_or_default (t : option jstring) : jstring :=
  match t with Some (c :: r) => c :: r | _ => js "No title" end.

Definition to_entry (r : ExaResult) : SearchEntry :=
  {| entry_title := title_or_default (title r);
     entry_url := url r;
     entry_content := text r |}.

Definition searchWeb_options : ExaOptions :=
  {| type := js "fast"; useAutoprompt := false; numResults := 3;
     maxCharacters := 1000 |}.

(** What a call leaves behind besides its result. *)
Record Effects := {
  verify_calls : list jstring;      (* addresses handed to [verifyEmail] *)
  console_errors : list jstring     (* first argument of each [console.error] *)
}.
Definition no_effects : Effects := {| verify_calls := []; console_errors := [] |}.
Definition logged (tag : jstring) : Effects :=
  {| verify_calls := []; console_errors := [tag] |}.

Record EmailExtraction := {
  ex_emails : list jstring; ex_employee_title : jstring }.

Record EmailFinderInput := {
  in_name : jstring; in_domain : jstring; in_company : option jstring }.

(** The data interpolated into the extraction prompt. *)
Record EmailPrompt := {
  prompt_name : jstring; prompt_domain : jstring; prompt_context : jstring }.

(** The object returned by [emailFinder]; the fields [name], [company] and
    [domain] are absent from the object returned when extraction fails. *)
Record EmailFinderOutput := {
  out_name : option jstring;
  out_company : option jstring;
  out_domain : option jstring;
  out_employee_title : jstring;
  out_emails : list jstring;
  out_verification_summary : jstring }.

(** [[...new Set(xs)]]: the first occurrence of each element, in order. *)
Fixpoint set_spread_from (seen xs : list jstring) : list jstring :=
  match xs with
  | [] => []
  | x :: r =>
      if existsb (JStr.eqb x) seen then set_spread_from seen r
      else x :: set_spread_from (x :: seen) r
  end.
Definition set_spread (xs : list jstring) : list jstring :=
  set_spread_from [] xs.

Section WithServices.

Variable exa : ExaClient.
Variable generateObject : EmailPrompt -> Outcome EmailExtraction.
Variable verifyEmail : jstring -> Env -> Outcome jstring.

(** [searchWeb.execute({ query }, options)] *)
Definition searchWeb_execute (env : Env) (query : jstring)
  : Outcome SearchOutput * Effects :=
  match EXA_API_KEY env with
  | Some (c :: k) =>
      match exa (c :: k) query searchWeb_options with
      | Returned result =>
          match results result with
          | Some rs =>
              (Returned {| search_results := List.map to_entry rs |}, no_effects)
          | None =>
              (* [result.results.map] throws inside the [try] *)
              (Returned {| search_results := [] |}, logged (js "Search failed:"))
          end
      | Threw _ =>
          (Returned {| search_results := [] |}, logged (js "Search failed:"))
      end
  | _ => (Threw (js "Search tool - EXA_API_KEY is missing"), no_effects)
  end.

Definition emailFinder_options : ExaOptions :=
  {| type := js "fast"; useAutoprompt := false; numResults := 2;
     maxCharacters := 1000 |}.

Definition company_or (company : option jstring) (fallback : jstring) : jstring :=
  match company with Some (c :: r) => c :: r | _ => fallback end.

Definition emailFinder_queries (i : EmailFinderInput) : list jstring :=
  let who := in_name i ++ js " " ++ company_or (in_company i) (in_domain i) in
  [ who ++ js " email address contact info";
    who ++ js " linkedin profile";
    who ++ js " rocketreach" ].

Definition render_title (t : option jstring) : jstring :=
  match t with Some s => s | None => js "null" end.

Definition render_result (r : ExaResult) : jstring :=
  js "Title: " ++ render_title (title r) ++ [10%N] ++ js "URL: " ++ url r
  ++ [10%N] ++ js "Content: " ++ text r.

(** One search of [emailFinder]: a rejected promise becomes an empty
    response, and [r.results || []] covers a response without results. *)
Definition emailFinder_search (key q : jstring) : list ExaResult :=
  match exa key q emailFinder_options with
  | Returned r => match results r with Some rs => rs | None => [] end
  | Threw _ => []
  end.

Definition emailFinder_context (key : jstring) (i : EmailFinderInput) : jstring :=
  join ([10%N] ++ js "---" ++ [10%N])
    (List.map render_result
       (List.flat_map (emailFinder_search key) (emailFinder_queries i))).

Definition emailFinder_prompt (key : jstring) (i : EmailFinderInput) : EmailPrompt :=
  {| prompt_name := in_name i; prompt_domain := in_domain i;
     prompt_context := emailFinder_context key i |}.

(** The verification step: an address is kept when [verifyEmail] returns
    ["valid"]; any other status and any exception drop it. *)
Definition check_email (env : Env) (email : jstring) : option jstring :=
  match verifyEmail email env with
  | Returned status => if JStr.eqb status (js "valid") then Some email else None
  | Threw _ => None
  end.

Fixpoint keep_some (l : list (option jstring)) : list jstring :=
  match l with
  | [] => []
  | Some e :: r => e :: keep_some r
  | None :: r => keep_some r
  end.

(** [emailFinder.execute({ name, domain, company }, options)] *)
Definition emailFinder_execute (env : Env) (i : EmailFinderInput)
  : Outcome EmailFinderOutput * Effects :=
  match EXA_API_KEY env, OPENAI_API_KEY env with
  | Some (c :: k), Some (_ :: _) =>
      match generateObject (emailFinder_prompt (c :: k) i) with
      | Threw _ =>
          (Returned {| out_name := None; out_company := None; out_domain := None;
                       out_employee_title := [];
                       out_emails := [];
                       out_verification_summary := js "Extraction failed" |},
           logged (js "LLM extraction failed:"))
      | Returned extractedData =>
          let uniqueEmails := set_spread (ex_emails extractedData) in
          let checks := List.map (check_email env) uniqueEmails in
          let verifiedEmails := keep_some checks in
          (Returned {| out_name := Some (in_name i);
                       out_company := Some (company_or (in_company i) (js "Unknown"));
                       out_domain := Some (in_domain i);
                       out_employee_title := ex_employee_title extractedData;
                       out_emails := firstn 3 verifiedEmails;
                       out_verification_summary :=
                         js_of_nat (length verifiedEmails) ++ js " valid out of "
                         ++ js_of_nat (length uniqueEmails) ++ js " candidates" |},
           {| verify_calls := uniqueEmails; console_errors := [] |})
      end
  | _, _ => (Threw (js "Missing API keys for emailFinder tool"), no_effects)
  end.

End WithServices.

End Tools.

(** ** The template routes (worker, the [ProtectedTemplates...Route]
    classes, in [src/applyo-worker/src/tools/peopleFinder.ts]) *)

Module Templates.

Record User := { user_id : jstring }.

(** What [auth.api.getSession] resolves to: [null], or a session that may
    carry a user. *)
Record SessionData := { user : option User }.
Definition Session := option SessionData.

(** [session?.user] *)
Definition session_user (session : Session) : option User :=
  match session with
  | Some s => user s
  | None => None
  end.

(** A row of the [templates] table; the dates are timestamps. *)
Record TemplateRow := {
  id : jstring;
  userId : jstring;
  name : jstring;
  subject : jstring;
  body : jstring;
  createdAt : Z;
  updatedAt : Z }.

Definition Table := list TemplateRow.

Inductive ResponseBody :=
| ErrorBody (error : jstring)
| TemplateList (templates : list TemplateRow)
| TemplateOne (template : TemplateRow)
| SuccessOnly.

Record Response := { status : nat; payload : ResponseBody }.

Definition unauthorized : Response :=
  {| status := 401; payload := ErrorBody (js "Unauthorized") |}.
Definition not_found : Response :=
  {| status := 404; payload := ErrorBody (js "Template not found") |}.
Definition ok (b : ResponseBody) : Response := {| status := 200; payload := b |}.

(** [orderBy: [desc(templates.createdAt)]] *)
Fixpoint insert_desc (r : TemplateRow) (l : list TemplateRow) : list TemplateRow :=
  match l with
  | [] => [r]
  | x :: l' =>
      if (createdAt x <? createdAt r)%Z then r :: l else x :: insert_desc r l'
  end.
Definition order_desc (l : list TemplateRow) : list TemplateRow :=
  fold_right insert_desc [] l.

(** [eq(templates.userId, session.user.id)] *)
Definition owned_by (u : User) (r : TemplateRow) : bool :=
  JStr.eqb (userId r) (user_id u).

(** [and(eq(templates.id, id), eq(templates.userId, session.user.id))] *)
Definition selected (tid : jstring) (u : User) (r : TemplateRow) : bool :=
  JStr.eqb (id r) tid && owned_by u r.

(** [ProtectedTemplatesListRoute.handle] *)
Definition list_handle (session : Session) (db : Table) : Response * Table :=
  match session_user session with
  | None => (unauthorized, db)
  | Some u => (ok (TemplateList (order_desc (filter (owned_by u) db))), db)
  end.

Record CreateBody := { new_name : jstring; new_subject : jstring; new_body : jstring }.

(** [ProtectedTemplatesCreateRoute.handle]; [uuid] is the value of
    [crypto.randomUUID()] and [now1], [now2] those of the two [new Date()]. *)
Definition create_handle (session : Session) (b : CreateBody)
    (uuid : jstring) (now1 now2 : Z) (db : Table) : Response * Table :=
  match session_user session with
  | None => (unauthorized, db)
  | Some u =>
      let newTemplate :=
        {| id := uuid; userId := user_id u; name := new_name b;
           subject := new_subject b; body := new_body b;
           createdAt := now1; updatedAt := now2 |} in
      (ok (TemplateOne newTemplate), db ++ [newTemplate])
  end.

(** The body of an update: an absent field is [undefined] and is left out
    of the [SET] clause. *)
Record UpdateBody := {
  upd_name : option jstring; upd_subject : option jstring;
  upd_body : option jstring }.

Definition set_or_keep (new : option jstring) (old : jstring) : jstring :=
  match new with Some v => v | None => old end.

Definition apply_update (b : UpdateBody) (now : Z) (r : TemplateRow) : TemplateRow :=
  {| id := id r; userId := userId r;
     name := set_or_keep (upd_name b) (name r);
     subject := set_or_keep (upd_subject b) (subject r);
     body := set_or_keep (upd_body b) (body r);
     createdAt := createdAt r; updatedAt := now |}.

(** [db.update(templates).set(...).where(...).returning()] *)
Definition update_where (p : TemplateRow -> bool) (f : TemplateRow -> TemplateRow)
    (db : Table) : list TemplateRow * Table :=
  (List.map f (filter p db), List.map (fun r => if p r then f r else r) db).

(** [db.delete(templates).where(...).returning()] *)
Definition delete_where (p : TemplateRow -> bool) (db : Table)
  : list TemplateRow * Table :=
  (filter p db, filter (fun r => negb (p r)) db).

(** [ProtectedTemplatesUpdateRoute.handle] *)
Definition update_handle (session : Session) (tid : jstring) (b : UpdateBody)
    (now : Z) (db : Table) : Response * Table :=
  match session_user session with
  | None => (unauthorized, db)
  | Some u =>
      let '(result, db') := update_where (selected tid u) (apply_update b now) db in
      match result with
      | [] => (not_found, db')
      | updated :: _ => (ok (TemplateOne updated), db')
      end
  end.

(** [ProtectedTemplatesDeleteRoute.handle] *)
Definition delete_handle (session : Session) (tid : jstring) (db : Table)
  : Response * Table :=
  match session_user session with
  | None => (unauthorized, db)
  | Some u =>
      let '(result, db') := delete_where (selected tid u) db in
      match result with
      | [] => (not_found, db')
      | _ :: _ => (ok SuccessOnly, db')
      end
  end.

End Templates.

(** ** JavaScript values

    The values the worker handles after [JSON.parse]: the JSON values and
    [undefined]. *)

Module Values.

(** A number: an integer, [NaN], or any other number (a fraction, an
    infinity), of which only the sign and the decimal text are kept. *)
Inductive number :=
| Int (z : Z)
| NaN
| NonIntegral (positive : bool) (digits : jstring).

Inductive Value :=
| JUndefined
| JNull
| JBool (b : bool)
| JNum (n : number)
| JStr (s : jstring)
| JArr (items : list Value)
| JObj (fields : list (jstring * Value)).

Definition number_truthy (n : number) : bool :=
  match n with
  | Int z => negb (z =? 0)%Z
  | NaN => false
  | NonIntegral _ _ => true
  end.

(** ToBoolean *)
Definition truthy (v : Value) : bool :=
  match v with
  | JUndefined | JNull => false
  | JBool b => b
  | JNum n => number_truthy n
  | JStr s => match s with [] => false | _ => true end
  | JArr _ | JObj _ => true
  end.

(** [a || b] *)
Definition js_or (a b : Value) : Value := if truthy a then a else b.

(** An own property of an object; the first binding of a key is the one
    that counts. *)
Fixpoint lookup (k : jstring) (fields : list (jstring * Value)) : Value :=
  match fields with
  | [] => JUndefined
  | (k', v) :: rest => if JStr.eqb k' k then v else lookup k rest
  end.

Definition type_error : jstring := js "TypeError".

(** [v.k] for a data key [k]: reading a property of [null] or [undefined]
    throws; strings and arrays have a [length]. *)
Definition get (v : Value) (k : jstring) : Outcome Value :=
  match v with
  | JUndefined | JNull => Threw type_error
  | JObj fields => Returned (lookup k fields)
  | JStr s =>
      Returned (if JStr.eqb k (js "length") then JNum (Int (Z.of_nat (length s)))
                else JUndefined)
  | JArr l =>
      Returned (if JStr.eqb k (js "length") then JNum (Int (Z.of_nat (length l)))
                else JUndefined)
  | JBool _ | JNum _ => Returned JUndefined
  end.

(** [v?.k] *)
Definition get_opt (v : Value) (k : jstring) : Value :=
  match get v k with
  | Returned x => x
  | Threw _ => JUndefined
  end.

(** Assignment [o.k = v]: an existing key keeps its place. *)
Fixpoint obj_set (k : jstring) (v : Value) (fields : list (jstring * Value))
  : list (jstring * Value) :=
  match fields with
  | [] => [(k, v)]
  | (k', v') :: rest =>
      if JStr.eqb k' k then (k, v) :: rest else (k', v') :: obj_set k v rest
  end.

Definition isArray (v : Value) : bool :=
  match v with JArr _ => true | _ => false end.

(** [v.trim()]: only a string has the method. *)
Definition trim_method (v : Value) : Outcome jstring :=
  match v with
  | JStr s => Returned (trim s)
  | _ => Threw type_error
  end.

(** [v && v.trim() !== ""] *)
Definition nonblank (v : Value) : Outcome bool :=
  if truthy v then
    match trim_method v with
    | Returned t => Returned (negb (JStr.eqb t []))
    | Threw m => Threw m
    end
  else Returned false.

(** [v?.trim() || null] *)
Definition trimmed_or_null (v : Value) : Outcome (option jstring) :=
  match v with
  | JUndefined | JNull => Returned None
  | _ =>
      match trim_method v with
      | Returned [] => Returned None
      | Returned t => Returned (Some t)
      | Threw m => Threw m
      end
  end.

End Values.

(** ** The D1 database *)

Module Db.
Import Values.

Module CompanyProfiles.
Record row := {
  id : Z;
  companyName : jstring;
  website : option jstring;
  yearFounded : option number;
  description : option jstring;
  techStack : option jstring;
  employeeCountMin : option number;
  employeeCountMax : option number;
  revenue : option jstring;
  funding : option jstring;
  headquarters : option jstring;
  industry : option jstring;
  createdAt : option jstring }.
End CompanyProfiles.

Module Employees.
Record row := {
  id : Z;
  employeeName : jstring;
  employeeTitle : option jstring;
  email : option jstring;
  companyId : option Z;
  createdAt : option jstring }.
End Employees.

(** The older [companies] table used by the finder agents. *)
Module Companies.
Record row := {
  id : Z;
  company_name : jstring;
  website : option jstring;
  employee_name : jstring;
  employee_title : option jstring;
  email : option jstring }.
End Companies.

Record Tables := {
  company_profiles : list CompanyProfiles.row;
  employees : list Employees.row;
  companies : list Companies.row;
  company_profiles_seq : Z;      (* last id given by AUTOINCREMENT *)
  employees_seq : Z;
  companies_seq : Z;
  current_timestamp : jstring }.

(** The database as a handler sees it: the tables, and for each statement
    still to come whether the service fails on it ([true]); statements
    beyond the list succeed. *)
Record D1 := { tables : Tables; failures : list bool }.

Definition M (A : Type) : Type := D1 -> Outcome A * D1.

Definition ret {A : Type} (a : A) : M A := fun d => (Returned a, d).
Definition throw {A : Type} (m : jstring) : M A := fun d => (Threw m, d).
Definition bind {A B : Type} (c : M A) (k : A -> M B) : M B :=
  fun d =>
    match c d with
    | (Returned a, d') => k a d'
    | (Threw m, d') => (Threw m, d')
    end.
Definition lift {A : Type} (o : Outcome A) : M A :=
  match o with
  | Returned a => ret a
  | Threw m => throw m
  end.

(** The error of a statement that fails, whether the service fails or the
    statement breaks a constraint of the schema; of its message only the
    prefix is kept. *)
Definition d1_error : jstring := js "D1_ERROR".

(** One statement sent to the database. *)
Definition stmt {A : Type} (f : Tables -> A * Tables) : M A :=
  fun d =>
    match failures d with
    | true :: rest => (Threw d1_error, {| tables := tables d; failures := rest |})
    | false :: rest =>
        let '(a, t) := f (tables d) in
        (Returned a, {| tables := t; failures := rest |})
    | [] =>
        let '(a, t) := f (tables d) in
        (Returned a, {| tables := t; failures := [] |})
    end.

(** One statement that the database checks against a constraint of the
    schema: when the check fails the statement is rejected and the tables
    stay as they are. *)
Definition checked_stmt {A : Type} (check : Tables -> bool)
    (f : Tables -> A * Tables) : M A :=
  fun d =>
    let run rest :=
      if check (tables d) then
        let '(a, t) := f (tables d) in
        (Returned a, {| tables := t; failures := rest |})
      else (Threw d1_error, {| tables := tables d; failures := rest |}) in
    match failures d with
    | true :: rest => (Threw d1_error, {| tables := tables d; failures := rest |})
    | false :: rest => run rest
    | [] => run []
    end.

End Db.

(** ** Saving companies and employees (worker, [upsertCompany] and
    [upsertEmployee], in [src/applyo-worker/src/tools/peopleFinder.ts]; the
    tables are those of [src/unnamed/part_005]) *)

Module Upsert.
Import Values Db.

Declare Scope db_scope.
Delimit Scope db_scope with db.
Notation "x <- c ;; k" := (bind c (fun x => k))
  (at level 61, c at next level, right associativity) : db_scope.
Local Open Scope db_scope.

(** A numeric argument of type [number | null | undefined]. *)
Inductive NumField := NUndefined | NNull | NVal (n : number).

(** The optional [additionalData] argument. The text fields are given as
    the values the caller passes, whatever their type. *)
Record AdditionalData := {
  ad_description : Value;
  ad_techStack : Value;
  ad_industry : Value;
  ad_yearFounded : NumField;
  ad_headquarters : Value;
  ad_revenue : Value;
  ad_funding : Value;
  ad_employeeCountMin : NumField;
  ad_employeeCountMax : NumField }.

(** An entry of [updateData]: the key is absent, or holds [null], or holds
    a value. *)
Inductive Entry (A : Type) := Absent | Null | Set_ (a : A).
Arguments Absent {A}.
Arguments Null {A}.
Arguments Set_ {A} a.

Record UpdateData := {
  u_website : Entry jstring;
  u_description : Entry jstring;
  u_techStack : Entry jstring;
  u_industry : Entry jstring;
  u_yearFounded : Entry number;
  u_headquarters : Entry jstring;
  u_revenue : Entry jstring;
  u_funding : Entry jstring;
  u_employeeCountMin : Entry number;
  u_employeeCountMax : Entry number }.

(** [if (x !== undefined) updateData.k = x?.trim() || null] *)
Definition text_entry (v : Value) : Outcome (Entry jstring) :=
  match v with
  | JUndefined => Returned Absent
  | _ =>
      match trimmed_or_null v with
      | Returned (Some t) => Returned (Set_ t)
      | Returned None => Returned Null
      | Threw m => Threw m
      end
  end.

(** [if (x !== undefined) updateData.k = x] *)
Definition num_entry (f : NumField) : Entry number :=
  match f with
  | NUndefined => Absent
  | NNull => Null
  | NVal n => Set_ n
  end.

(** [x || null] for a numeric argument of the inserted row. *)
Definition num_or_null (f : NumField) : option number :=
  match f with
  | NVal n => if number_truthy n then Some n else None
  | _ => None
  end.

(** [Object.entries(updateData).filter(([_, v]) => v !== null && v !== undefined)]:
    the value an entry writes, if it writes one. *)
Definition written {A : Type} (e : Entry A) : option A :=
  match e with Set_ a => Some a | _ => None end.

Definition assign {A : Type} (e : Entry A) (old : option A) : option A :=
  match written e with Some a => Some a | None => old end.

(** The value D1 stores for a number bound to a statement: [NaN] is bound
    as [NULL]. *)
Definition bound (n : number) : option number :=
  match n with NaN => None | _ => Some n end.

(** A numeric column after the update: [NaN] passes the filter of
    [fieldsToUpdate] as any number does, and is stored as [NULL]. *)
Definition assign_num (e : Entry number) (old : option number) : option number :=
  match written e with Some n => bound n | None => old end.

(** [Object.keys(fieldsToUpdate).length > 0] *)
Definition has_fields (u : UpdateData) : bool :=
  match written (u_website u), written (u_description u), written (u_techStack u),
        written (u_industry u), written (u_yearFounded u),
        written (u_headquarters u), written (u_revenue u), written (u_funding u),
        written (u_employeeCountMin u), written (u_employeeCountMax u) with
  | None, None, None, None, None, None, None, None, None, None => false
  | _, _, _, _, _, _, _, _, _, _ => true
  end.

Definition apply_company_update (u : UpdateData) (r : CompanyProfiles.row)
  : CompanyProfiles.row :=
  {| CompanyProfiles.id := CompanyProfiles.id r;
     CompanyProfiles.companyName := CompanyProfiles.companyName r;
     CompanyProfiles.website := assign (u_website u) (CompanyProfiles.website r);
     CompanyProfiles.yearFounded :=
       assign_num (u_yearFounded u) (CompanyProfiles.yearFounded r);
     CompanyProfiles.description :=
       assign (u_description u) (CompanyProfiles.description r);
     CompanyProfiles.techStack := assign (u_techStack u) (CompanyProfiles.techStack r);
     CompanyProfiles.employeeCountMin :=
       assign_num (u_employeeCountMin u) (CompanyProfiles.employeeCountMin r);
     CompanyProfiles.employeeCountMax :=
       assign_num (u_employeeCountMax u) (CompanyProfiles.employeeCountMax r);
     CompanyProfiles.revenue := assign (u_revenue u) (CompanyProfiles.revenue r);
     CompanyProfiles.funding := assign (u_funding u) (CompanyProfiles.funding r);
     CompanyProfiles.headquarters :=
       assign (u_headquarters u) (CompanyProfiles.headquarters r);
     CompanyProfiles.industry := assign (u_industry u) (CompanyProfiles.industry r);
     CompanyProfiles.createdAt := CompanyProfiles.createdAt r |}.

Definition opt_eqb (a : option jstring) (b : jstring) : bool :=
  match a with Some x => JStr.eqb x b | None => false end.

(** [or(LOWER(company_name) = LOWER(name), website = site)], the second
    condition only when a website was given. *)
Definition company_matches (normalizedName : jstring) (site : option jstring)
    (r : CompanyProfiles.row) : bool :=
  JStr.eqb (sql_lower (CompanyProfiles.companyName r)) (sql_lower normalizedName)
  || match site with
     | Some w => opt_eqb (CompanyProfiles.website r) w
     | None => false
     end.

(** [select().from(companyProfiles).where(...).limit(1).get()] *)
Definition select_company (normalizedName : jstring) (site : option jstring)
    (t : Tables) : option CompanyProfiles.row * Tables :=
  (find (company_matches normalizedName site) (company_profiles t), t).

Definition with_company_profiles (t : Tables) (rows : list CompanyProfiles.row)
    (seq : Z) : Tables :=
  {| company_profiles := rows; employees := employees t; companies := companies t;
     company_profiles_seq := seq; employees_seq := employees_seq t;
     companies_seq := companies_seq t; current_timestamp := current_timestamp t |}.

Definition with_employees (t : Tables) (rows : list Employees.row) (seq : Z)
  : Tables :=
  {| company_profiles := company_profiles t; employees := rows;
     companies := companies t;
     company_profiles_seq := company_profiles_seq t; employees_seq := seq;
     companies_seq := companies_seq t; current_timestamp := current_timestamp t |}.

(** [update(companyProfiles).set(fieldsToUpdate).where(eq(id, existing.id))] *)
Definition update_company (rid : Z) (u : UpdateData) (t : Tables) : unit * Tables :=
  (tt, with_company_profiles t
         (List.map (fun r => if (CompanyProfiles.id r =? rid)%Z
                             then apply_company_update u r else r)
            (company_profiles t))
         (company_profiles_seq t)).

(** [insert(companyProfiles).values(...).returning({ id })] *)
Definition insert_company (mk : Z -> option jstring -> CompanyProfiles.row)
    (t : Tables) : Z * Tables :=
  let rid := (company_profiles_seq t + 1)%Z in
  (rid, with_company_profiles t
          (company_profiles t ++ [mk rid (Some (current_timestamp t))]) rid).

Definition build_updateData (site : option jstring) (additionalData : option AdditionalData)
  : Outcome UpdateData :=
  let w := match site with Some s => Set_ s | None => Absent end in
  match additionalData with
  | None =>
      Returned {| u_website := w; u_description := Absent; u_techStack := Absent;
                  u_industry := Absent; u_yearFounded := Absent;
                  u_headquarters := Absent; u_revenue := Absent;
                  u_funding := Absent; u_employeeCountMin := Absent;
                  u_employeeCountMax := Absent |}
  | Some a =>
      match text_entry (ad_description a) with Threw m => Threw m | Returned d =>
      match text_entry (ad_techStack a) with Threw m => Threw m | Returned ts =>
      match text_entry (ad_industry a) with Threw m => Threw m | Returned i =>
      match text_entry (ad_headquarters a) with Threw m => Threw m | Returned h =>
      match text_entry (ad_revenue a) with Threw m => Threw m | Returned rv =>
      match text_entry (ad_funding a) with Threw m => Threw m | Returned f =>
        Returned {| u_website := w; u_description := d; u_techStack := ts;
                    u_industry := i; u_yearFounded := num_entry (ad_yearFounded a);
                    u_headquarters := h; u_revenue := rv; u_funding := f;
                    u_employeeCountMin := num_entry (ad_employeeCountMin a);
                    u_employeeCountMax := num_entry (ad_employeeCountMax a) |}
      end end end end end end
  end.

(** The row given to [insert]: every text is [x?.trim() || null], which
    for the additional data is what [updateData] would write. *)
Definition new_company (normalizedName : jstring) (site : option jstring)
    (u : UpdateData) (additionalData : option AdditionalData)
    (rid : Z) (stamp : option jstring) : CompanyProfiles.row :=
  let num (f : AdditionalData -> NumField) :=
    match additionalData with Some a => num_or_null (f a) | None => None end in
  {| CompanyProfiles.id := rid;
     CompanyProfiles.companyName := normalizedName;
     CompanyProfiles.website := site;
     CompanyProfiles.yearFounded := num ad_yearFounded;
     CompanyProfiles.description := written (u_description u);
     CompanyProfiles.techStack := written (u_techStack u);
     CompanyProfiles.employeeCountMin := num ad_employeeCountMin;
     CompanyProfiles.employeeCountMax := num ad_employeeCountMax;
     CompanyProfiles.revenue := written (u_revenue u);
     CompanyProfiles.funding := written (u_funding u);
     CompanyProfiles.headquarters := written (u_headquarters u);
     CompanyProfiles.industry := written (u_industry u);
     CompanyProfiles.createdAt := stamp |}.

Definition company_name_required : jstring := js "Company name is required".
Definition employee_name_required : jstring := js "Employee name is required".

(** [if (x && x.trim() !== "") updateData.k = x.trim()] *)
Definition trimmed_if_nonblank (v : Value) : Outcome (option jstring) :=
  match nonblank v with
  | Threw m => Threw m
  | Returned false => Returned None
  | Returned true =>
      match trim_method v with
      | Returned t => Returned (Some t)
      | Threw m => Threw m
      end
  end.

(** [upsertCompany(db, companyName, website, additionalData)]; the test
    [website && website.trim() !== ""] is made twice in the source, with the
    same outcome, and is made once here. *)
Definition upsertCompany (companyName website : Value)
    (additionalData : option AdditionalData) : M Z :=
  named <- lift (nonblank companyName) ;;
  if negb named then throw company_name_required else
  normalizedName <- lift (trim_method companyName) ;;
  site <- lift (trimmed_if_nonblank website) ;;
  existing <- stmt (select_company normalizedName site) ;;
  updateData <- lift (build_updateData site additionalData) ;;
  match existing with
  | Some row =>
      _ <- (if has_fields updateData
            then stmt (update_company (CompanyProfiles.id row) updateData)
            else ret tt) ;;
      ret (CompanyProfiles.id row)
  | None =>
      inserted_site <- lift (trimmed_or_null website) ;;
      stmt (insert_company
              (new_company normalizedName inserted_site updateData additionalData))
  end.

(** [and(LOWER(employee_name) = LOWER(name), eq(companyId, companyId))] *)
Definition employee_matches (normalizedName : jstring) (cid : Z)
    (r : Employees.row) : bool :=
  JStr.eqb (sql_lower (Employees.employeeName r)) (sql_lower normalizedName)
  && match Employees.companyId r with
     | Some c => (c =? cid)%Z
     | None => false
     end.

Definition select_employee (normalizedName : jstring) (cid : Z) (t : Tables)
  : option Employees.row * Tables :=
  (find (employee_matches normalizedName cid) (employees t), t).

Definition apply_employee_update (title mail : option jstring) (r : Employees.row)
  : Employees.row :=
  {| Employees.id := Employees.id r;
     Employees.employeeName := Employees.employeeName r;
     Employees.employeeTitle :=
       match title with Some x => Some x | None => Employees.employeeTitle r end;
     Employees.email :=
       match mail with Some x => Some x | None => Employees.email r end;
     Employees.companyId := Employees.companyId r;
     Employees.createdAt := Employees.createdAt r |}.

Definition update_employee (rid : Z) (title mail : option jstring) (t : Tables)
  : unit * Tables :=
  (tt, with_employees t
         (List.map (fun r => if (Employees.id r =? rid)%Z
                             then apply_employee_update title mail r else r)
            (employees t))
         (employees_seq t)).

(** [employees.company_id] references [company_profiles.id]: a row can be
    inserted for a company that is stored. *)
Definition references_company (cid : Z) (t : Tables) : bool :=
  existsb (fun c => (CompanyProfiles.id c =? cid)%Z) (company_profiles t).

Definition insert_employee (normalizedName : jstring) (title mail : option jstring)
    (cid : Z) (t : Tables) : Z * Tables :=
  let rid := (employees_seq t + 1)%Z in
  (rid, with_employees t
          (employees t ++
             [ {| Employees.id := rid; Employees.employeeName := normalizedName;
                  Employees.employeeTitle := title; Employees.email := mail;
                  Employees.companyId := Some cid;
                  Employees.createdAt := Some (current_timestamp t) |} ])
          rid).

(** [upsertEmployee(db, companyId, employeeName, employeeTitle, email)] *)
Definition upsertEmployee (companyId : Z) (employeeName employeeTitle email : Value)
  : M Z :=
  named <- lift (nonblank employeeName) ;;
  if negb named then throw employee_name_required else
  normalizedName <- lift (trim_method employeeName) ;;
  existing <- stmt (select_employee normalizedName companyId) ;;
  match existing with
  | Some row =>
      title <- lift (trimmed_if_nonblank employeeTitle) ;;
      mail <- lift (trimmed_if_nonblank email) ;;
      _ <- (match title, mail with
            | None, None => ret tt
            | _, _ => stmt (update_employee (Employees.id row) title mail)
            end) ;;
      ret (Employees.id row)
  | None =>
      title <- lift (trimmed_or_null employeeTitle) ;;
      mail <- lift (trimmed_or_null email) ;;
      checked_stmt (references_company companyId)
        (insert_employee normalizedName title mail companyId)
  end.

End Upsert.

(** ** The orchestrator agent (worker, class [Orchestrator], in
    [src/applyo-worker/src/agents/peoplefinder.ts]) *)

Module Orchestrator.
Import Values Db Upsert.
Local Open Scope db_scope.

Record Response := {
  status : nat;
  content_type : option jstring;
  body : Value                       (* the value given to [JSON.stringify] *)
}.

Definition json : option jstring := Some (js "application/json").

Definition open_brace : N := 123.
Definition close_brace : N := 125.
Definition fence : jstring := js "```".
Definition fence_json : jstring := js "```json".

(** [s.replace(/^FENCE\s*/, '')] for a string that starts with the fence. *)
Definition strip_leading_fence (f s : jstring) : jstring :=
  trimStart (skipn (length f) s).

(** [s.replace(/\s*```$/, '')]: the match is the closing fence at the very
    end of the string together with all the white space before it. *)
Definition strip_trailing_fence (s : jstring) : jstring :=
  if endsWith fence s then trimEnd (firstn (length s - length fence) s) else s.

Definition strip_fences (s : jstring) : jstring :=
  if startsWith fence_json s
  then strip_trailing_fence (strip_leading_fence fence_json s)
  else if startsWith fence s
  then strip_trailing_fence (strip_leading_fence fence s)
  else s.

(** The longest prefix of [s] that ends with [c]: what a greedy [[\s\S]*]
    followed by [c] matches. *)
Fixpoint upto_last (c : N) (s : jstring) : option jstring :=
  match s with
  | [] => None
  | x :: r =>
      match upto_last c r with
      | Some p => Some (x :: p)
      | None => if N.eqb x c then Some [x] else None
      end
  end.

(** [s.match(/\{[\s\S]*\}/)]: the first position from which the pattern
    matches, and the longest match there. *)
Fixpoint match_braces (s : jstring) : option jstring :=
  match s with
  | [] => None
  | x :: r =>
      if N.eqb x open_brace then
        match upto_last close_brace r with
        | Some p => Some (x :: p)
        | None => match_braces r
        end
      else match_braces r
  end.

(** The text handed to [JSON.parse]. *)
Definition extract_json (text : jstring) : jstring :=
  let cleanText := strip_fences (trim text) in
  match match_braces cleanText with
  | Some jsonMatch => jsonMatch
  | None => cleanText
  end.

(** [person.emails && Array.isArray(person.emails) && person.emails.length > 0] *)
Definition has_emails (emails : Value) : bool :=
  truthy emails && isArray emails
  && match emails with JArr l => (0 <? length l) | _ => false end.

(** [people.filter(person => ...)]; reading [emails] of a [null] entry
    throws. *)
Fixpoint filter_people (people : list Value) : Outcome (list Value) :=
  match people with
  | [] => Returned []
  | person :: rest =>
      match get person (js "emails") with
      | Threw m => Threw m
      | Returned emails =>
          match filter_people rest with
          | Threw m => Threw m
          | Returned kept =>
              Returned (if has_emails emails then person :: kept else kept)
          end
      end
  end.

(** [o.people = v] on the parsed value. *)
Definition set_people (finalResult : Value) (v : Value) : Value :=
  match finalResult with
  | JObj fields => JObj (obj_set (js "people") v fields)
  | _ => finalResult
  end.

(** The statements from [finalResult.people && ...] to the assignment of
    the filtered list. *)
Definition filter_step (finalResult : Value) : Outcome Value :=
  match get finalResult (js "people") with
  | Threw m => Threw m
  | Returned people =>
      match people with
      | JArr l =>
          match filter_people l with
          | Threw m => Threw m
          | Returned kept => Returned (set_people finalResult (JArr kept))
          end
      | _ => Returned finalResult
      end
  end.

(** [finalResult.people?.length], as a condition. *)
Definition people_length (finalResult : Value) : Outcome Value :=
  match get finalResult (js "people") with
  | Threw m => Threw m
  | Returned people =>
      match people with
      | JUndefined | JNull => Returned JUndefined
      | _ => get people (js "length")
      end
  end.

Definition number_gt_zero (n : number) : bool :=
  match n with
  | Int z => (0 <? z)%Z
  | NaN => false
  | NonIntegral positive _ => positive
  end.

(** [v[0]] *)
Definition index0 (v : Value) : Outcome Value :=
  match v with
  | JUndefined | JNull => Threw type_error
  | JArr l => Returned (match l with x :: _ => x | [] => JUndefined end)
  | JStr s => Returned (match s with c :: _ => JStr [c] | [] => JUndefined end)
  | JObj fields => Returned (lookup (js "0") fields)
  | JBool _ | JNum _ => Returned JUndefined
  end.

Definition bad_request : Response :=
  {| status := 400; content_type := json;
     body := JObj [(js "error", JStr (js "query is required"))] |}.

Definition parsing_error : Response :=
  {| status := 500; content_type := None;
     body := JObj [(js "error", JStr (js "parsing error"))] |}.

Definition no_emails_found (state : Value) : Response :=
  {| status := 200; content_type := json;
     body := JObj [(js "message", JStr (js "no emails found")); (js "state", state)] |}.

(** [{ ...finalResult, favicon, state }] *)
Definition final_body (finalResult favicon state : Value) : Value :=
  let own := match finalResult with JObj fields => fields | _ => [] end in
  JObj (obj_set (js "state") state (obj_set (js "favicon") favicon own)).

Definition save_error : jstring := js "Error saving to database:".

Section WithServices.

(** [JSON.parse] *)
Variable JSON_parse : jstring -> Outcome Value.
(** The text of the answer of the model to the prompt built from the query. *)
Variable generateText : Value -> Outcome jstring.
(** [parseInt(String(x))] *)
Variable parseInt_String : Value -> Outcome number.
(** ToNumber, for a comparison with a number. *)
Variable to_number : Value -> number.
(** [extractDomain] of [lib/utils]: a domain or [null]. *)
Variable extractDomain : Value -> Outcome (option jstring).

(** [x > 0] *)
Definition gt_zero (v : Value) : bool :=
  match v with
  | JNum n => number_gt_zero n
  | _ => number_gt_zero (to_number v)
  end.

(** [a || b ? parseInt(String(a || b)) : null] *)
Definition int_field (a b : Value) : Outcome NumField :=
  let x := js_or a b in
  if truthy x then
    match parseInt_String x with
    | Returned n => Returned (NVal n)
    | Threw m => Threw m
    end
  else Returned NNull.

(** The object [companyData]. *)
Definition company_data (finalResult : list (jstring * Value))
  : Outcome AdditionalData :=
  let f k := lookup k finalResult in
  match int_field (f (js "yearFounded")) (f (js "year_founded")) with Threw m => Threw m
  | Returned year =>
  match int_field (f (js "employeeCountMin")) (f (js "employee_count_min")) with Threw m => Threw m
  | Returned cmin =>
  match int_field (f (js "employeeCountMax")) (f (js "employee_count_max")) with Threw m => Threw m
  | Returned cmax =>
    Returned {| ad_description := js_or (f (js "description")) JNull;
                ad_techStack := js_or (js_or (f (js "techStack")) (f (js "tech_stack"))) JNull;
                ad_industry := js_or (f (js "industry")) JNull;
                ad_yearFounded := year;
                ad_headquarters := js_or (f (js "headquarters")) JNull;
                ad_revenue := js_or (f (js "revenue")) JNull;
                ad_funding := js_or (f (js "funding")) JNull;
                ad_employeeCountMin := cmin;
                ad_employeeCountMax := cmax |}
  end end end.

(** The body of the loop over [finalResult.people]. *)
Definition save_person (companyId : Z) (person : Value) : M unit :=
  name <- lift (get person (js "name")) ;;
  if truthy name then
    emails <- lift (get person (js "emails")) ;;
    if truthy emails then
      len <- lift (get emails (js "length")) ;;
      if gt_zero len then
        email <- lift (index0 emails) ;;
        role <- lift (get person (js "role")) ;;
        _ <- upsertEmployee companyId name (js_or role JNull) email ;;
        ret tt
      else ret tt
    else ret tt
  else ret tt.

Fixpoint save_each (companyId : Z) (people : list Value) : M unit :=
  match people with
  | [] => ret tt
  | person :: rest => _ <- save_person companyId person ;; save_each companyId rest
  end.

(** [for (const person of finalResult.people)]: an array gives its
    entries; a string gives its characters, which have no [name]; nothing
    else can be iterated. *)
Definition save_people (companyId : Z) (people : Value) : M unit :=
  match people with
  | JArr l => save_each companyId l
  | JStr s => save_each companyId (List.map (fun c => JStr [c]) s)
  | _ => throw type_error
  end.

(** The inner [try] block. *)
Definition save (finalResult : list (jstring * Value)) : M unit :=
  let companyName := js_or (lookup (js "company") finalResult) (JStr []) in
  let website := js_or (lookup (js "website") finalResult) JNull in
  named <- lift (nonblank companyName) ;;
  if named then
    companyData <- lift (company_data finalResult) ;;
    companyId <- upsertCompany companyName website (Some companyData) ;;
    save_people companyId (lookup (js "people") finalResult)
  else ret tt.

(** The favicon logic after the [try] blocks. *)
Definition favicon_of (finalResult : Value) : Outcome Value :=
  match get finalResult (js "website") with
  | Threw m => Threw m
  | Returned website =>
      if truthy website then
        match extractDomain website with
        | Threw m => Threw m
        | Returned (Some (c :: dom)) =>
            Returned (JStr (js "https://www.google.com/s2/favicons?domain="
                            ++ (c :: dom) ++ js "&sz=128"))
        | Returned _ => Returned JNull
        end
      else Returned JNull
  end.

(** What a request leaves behind: the database and the tags of the errors
    written with [console.error]. *)
Record Run := {
  response : Outcome Response;      (* [Threw]: the handler itself rejects *)
  database : D1;
  console_errors : list jstring }.

(** [Orchestrator.onRequest]; [request] is the parsed request body and
    [state] the state of the agent. *)
Definition onRequest (request state : Value) (d : D1) : Run :=
  let stop r := {| response := r; database := d; console_errors := [] |} in
  match get request (js "query") with
  | Threw m => stop (Threw m)
  | Returned q =>
      let query := js_or q (JStr []) in
      if negb (truthy query) then stop (Returned bad_request) else
      match generateText query with
      | Threw m => stop (Threw m)
      | Returned text =>
          match JSON_parse (extract_json text) with
          | Threw _ => stop (Returned parsing_error)
          | Returned parsed =>
              match filter_step parsed with
              | Threw _ => stop (Returned parsing_error)
              | Returned finalResult =>
                  match people_length finalResult with
                  | Threw _ => stop (Returned parsing_error)
                  | Returned len =>
                      if negb (truthy len) then stop (Returned (no_emails_found state))
                      else
                        let own := match finalResult with
                                   | JObj fields => fields
                                   | _ => []
                                   end in
                        let '(saved, d') := save own d in
                        let errors := match saved with
                                      | Returned _ => []
                                      | Threw _ => [save_error]
                                      end in
                        match favicon_of finalResult with
                        | Threw m =>
                            {| response := Threw m; database := d';
                               console_errors := errors |}
                        | Returned favicon =>
                            {| response :=
                                 Returned {| status := 200; content_type := json;
                                             body := final_body finalResult favicon state |};
                               database := d';
                               console_errors := errors |}
                        end
                  end
              end
          end
      end
  end.

End WithServices.

End Orchestrator.

(** ** Populating the vector index (worker,
    [src/applyo-worker/src/lib/vectorize.ts], and the route
    [VectorizePopulateCompaniesRoute] in
    [src/applyo-worker/src/tools/peopleFinder.ts]) *)

Module Vectorize.
Import Values Db.

Definition js_of_Z (z : Z) : jstring :=
  js (DecimalString.NilZero.string_of_int (Z.to_int z)).

(** [n.toString()] *)
Definition number_toString (n : number) : jstring :=
  match n with
  | Int z => js_of_Z z
  | NaN => js "NaN"
  | NonIntegral true digits => digits
  | NonIntegral false digits => js "-" ++ digits
  end.

(** [x || ''] for a nullable text column. *)
Definition text_or_empty (x : option jstring) : jstring :=
  match x with Some s => s | None => [] end.

(** [x?.toString() || ''] for a nullable integer column. *)
Definition number_or_empty (x : option number) : jstring :=
  match x with Some n => number_toString n | None => [] end.

Record Metadata := {
  company_id : jstring;
  company_name : jstring;
  website : jstring;
  year_founded : jstring;
  description : jstring;
  tech_stack : jstring;
  employee_count_min : jstring;
  employee_count_max : jstring;
  revenue : jstring;
  funding : jstring;
  headquarters : jstring;
  industry : jstring }.

(** A vector of the index; [values] is [undefined] when the model
    returned no row of data. *)
Record Vector := {
  vector_id : jstring;
  values : option (list number);
  metadata : Metadata }.

Definition textToEmbed (company : CompanyProfiles.row) : jstring :=
  CompanyProfiles.companyName company ++ js " "
  ++ text_or_empty (CompanyProfiles.description company) ++ js " "
  ++ text_or_empty (CompanyProfiles.techStack company) ++ js " "
  ++ text_or_empty (CompanyProfiles.industry company).

Definition metadata_of (company : CompanyProfiles.row) : Metadata :=
  {| company_id := js_of_Z (CompanyProfiles.id company);
     company_name := CompanyProfiles.companyName company;
     website := text_or_empty (CompanyProfiles.website company);
     year_founded := number_or_empty (CompanyProfiles.yearFounded company);
     description := text_or_empty (CompanyProfiles.description company);
     tech_stack := text_or_empty (CompanyProfiles.techStack company);
     employee_count_min := number_or_empty (CompanyProfiles.employeeCountMin company);
     employee_count_max := number_or_empty (CompanyProfiles.employeeCountMax company);
     revenue := text_or_empty (CompanyProfiles.revenue company);
     funding := text_or_empty (CompanyProfiles.funding company);
     headquarters := text_or_empty (CompanyProfiles.headquarters company);
     industry := text_or_empty (CompanyProfiles.industry company) |}.

Definition embedding_model : jstring := js "@cf/baai/bge-base-en-v1.5".

(** The bindings of the worker that the handler uses besides the
    database. *)
Record Bindings := {
  (** [AI.run(model, { text })]: the [data] of the answer, if it has one. *)
  AI_run : jstring -> jstring -> Outcome (option (list (list number)));
  (** [COMPANY_VECTORS.insert(vectors)] *)
  COMPANY_VECTORS_insert : list Vector -> Outcome Value }.

(** The call of the embedding model in one turn of the loop: the text
    sent, and the answer. *)
Definition embed_call (env : Bindings) (company : CompanyProfiles.row)
  : jstring * Outcome (option (list (list number))) :=
  let text := textToEmbed company in
  (text, AI_run env embedding_model text).

(** One turn of the loop: a vector, or an entry for [errors]. *)
Definition embed_company (env : Bindings) (company : CompanyProfiles.row)
  : Vector + Value :=
  let failed m :=
    inr (JObj [(js "company", JStr (CompanyProfiles.companyName company));
               (js "error", JStr m)]) in
  match snd (embed_call env company) with
  | Threw m => failed m
  | Returned None => failed type_error
  | Returned (Some data) =>
      inl {| vector_id := js "company_" ++ js_of_Z (CompanyProfiles.id company);
             values := match data with row :: _ => Some row | [] => None end;
             metadata := metadata_of company |}
  end.

Fixpoint lefts {A B : Type} (l : list (A + B)) : list A :=
  match l with
  | [] => []
  | inl a :: r => a :: lefts r
  | inr _ :: r => lefts r
  end.

Fixpoint rights {A B : Type} (l : list (A + B)) : list B :=
  match l with
  | [] => []
  | inl _ :: r => rights r
  | inr b :: r => b :: rights r
  end.

(** What a call leaves behind: the texts sent to the embedding model, in
    order, and the batch given to the index, if [insert] was called. *)
Record Populated := {
  result : Value;
  embedded : list jstring;
  inserted : option (list Vector);
  database : D1 }.

(** [db.select().from(companyProfiles).all()] *)
Definition select_companies (t : Tables) : list CompanyProfiles.row * Tables :=
  (company_profiles t, t).

(** [VectorizeHandler.populateCompanies()] *)
Definition populateCompanies (env : Bindings) (d : D1) : Populated :=
  match stmt select_companies d with
  | (Threw m, d') =>
      {| result := JObj [(js "success", JBool false); (js "error", JStr m)];
         embedded := []; inserted := None; database := d' |}
  | (Returned [], d') =>
      {| result := JObj [(js "success", JBool false);
                         (js "message", JStr (js "No companies found in database"))];
         embedded := []; inserted := None; database := d' |}
  | (Returned companies, d') =>
      let turns := List.map (embed_company env) companies in
      let vectors := lefts turns in
      let errors := rights turns in
      let texts := List.map (fun company => fst (embed_call env company)) companies in
      match vectors with
      | [] =>
          {| result := JObj [(js "success", JBool false);
                             (js "message", JStr (js "No vectors generated"));
                             (js "errors", JArr errors)];
             embedded := texts; inserted := None; database := d' |}
      | _ :: _ =>
          match COMPANY_VECTORS_insert env vectors with
          | Threw m =>
              {| result := JObj [(js "success", JBool false); (js "error", JStr m)];
                 embedded := texts; inserted := Some vectors; database := d' |}
          | Returned details =>
              {| result :=
                   JObj [(js "success", JBool true);
                         (js "message",
                          JStr (js "Populated " ++ Tools.js_of_nat (length vectors)
                                ++ js " company vectors"));
                         (js "errors",
                          match errors with [] => JUndefined | _ => JArr errors end);
                         (js "details", details)];
                 embedded := texts; inserted := Some vectors; database := d' |}
          end
      end
  end.

Record Response := { status : nat; body : Value }.

(** [VectorizePopulateCompaniesRoute.handle]: [offset] and [limit] are the
    parsed query parameters; the method called takes no parameter, so the two
    arguments are dropped. *)
Definition populate_companies_route (env : Bindings) (offset limit : number)
    (d : D1) : Response * Populated :=
  let run := populateCompanies env d in
  ({| status := if truthy (lookup (js "success")
                             (match result run with JObj f => f | _ => [] end))
                then 200 else 500;
      body := result run |},
   run).

(** The fields of the response schema of the route that describe a
    page. *)
Definition pagination_fields : list jstring :=
  [js "processed"; js "total"; js "hasMore"; js "nextOffset"].

Definition keys (v : Value) : list jstring :=
  match v with JObj f => List.map fst f | _ => [] end.

End Vectorize.

(** ** The finder agents (worker, class [PeopleFinder] in
    [src/applyo-worker/src/agents/peoplefinder.ts] and class [EmailFinder] in
    [src/unnamed/part_002]) *)

Module Agents.
Import Values Db.

(** The calls an agent makes to the services outside the worker: a web
    search, a call of the language model (with the tool calls the model makes
    within it), a verification of an address. Console output is left out. *)
Inductive Event :=
| WebSearch (query : jstring)
| ModelCall
| Verification (email : Value).

Definition or_empty (x : option jstring) : jstring :=
  match x with Some s => s | None => [] end.

(** The rows a [SELECT] returns, or the failure of the statement. *)
Definition query_companies (p : Companies.row -> bool) : M (list Companies.row) :=
  stmt (fun t => (filter p (companies t), t)).

(** [LOWER(column) = LOWER(?)] *)
Definition lower_eq (column arg : jstring) : bool :=
  JStr.eqb (sql_lower column) (sql_lower arg).

(** *** PeopleFinder *)

Record PeopleRequest := {
  company : option jstring; website : option jstring; notes : option jstring }.

Record Person := { name : jstring; role : jstring }.

Record People := {
  people_company : jstring; people_website : jstring; people : list Person }.

Inductive PeopleBody :=
| RequestError (error : jstring)
| PeopleFound (found : People) (state : Value)
| PeopleFailed (partial : People) (error : jstring)
    (errorMessage : option jstring) (state : Value).

Record PeopleResponse := { people_status : nat; people_body : PeopleBody }.

(** The columns read by [checkPeopleInDB]. *)
Record PeopleRow := {
  row_company_name : jstring; row_website : option jstring;
  row_employee_name : jstring; row_employee_title : option jstring }.

Definition people_row (r : Companies.row) : PeopleRow :=
  {| row_company_name := Companies.company_name r;
     row_website := Companies.website r;
     row_employee_name := Companies.employee_name r;
     row_employee_title := Companies.employee_title r |}.

Definition opt_text_eqb (a b : option jstring) : bool :=
  match a, b with
  | Some x, Some y => JStr.eqb x y
  | None, None => true
  | _, _ => false
  end.

Definition people_row_eqb (a b : PeopleRow) : bool :=
  JStr.eqb (row_company_name a) (row_company_name b)
  && opt_text_eqb (row_website a) (row_website b)
  && JStr.eqb (row_employee_name a) (row_employee_name b)
  && opt_text_eqb (row_employee_title a) (row_employee_title b).

(** [SELECT DISTINCT]: each row once, at its first place. *)
Fixpoint distinct_from (seen rows : list PeopleRow) : list PeopleRow :=
  match rows with
  | [] => []
  | r :: rest =>
      if existsb (people_row_eqb r) seen then distinct_from seen rest
      else r :: distinct_from (r :: seen) rest
  end.
Definition distinct (rows : list PeopleRow) : list PeopleRow := distinct_from [] rows.

Definition person_of (r : PeopleRow) : Person :=
  {| name := row_employee_name r; role := or_empty (row_employee_title r) |}.

Section WithServices.

(** [normalizeUrl] of [lib/utils]: a url, or nothing. *)
Variable normalizeUrl : option jstring -> option jstring.
Variable exa : Tools.ExaClient.
Variable env : Tools.Env.
Variable JSON_parse : jstring -> Outcome Value.
Variable JSON_stringify : Value -> jstring.
(** [z.string().url()] *)
Variable is_url : jstring -> bool.

(** The data put in the prompt of [PeopleFinder] and the text the model
    answers with. *)
Record PeoplePrompt := {
  prompt_company : jstring; prompt_notes : jstring; prompt_snippets : jstring }.
Variable people_generateText : PeoplePrompt -> Outcome jstring.

(** The data put in the prompt of [EmailFinder]. *)
Record EmailPrompt := {
  prompt_firstName : jstring; prompt_lastName : jstring;
  prompt_employer : jstring; prompt_domain : jstring }.
Variable email_generateText : EmailPrompt -> Outcome jstring.
Variable verifyEmail : Value -> Outcome jstring.

(** [PeopleFinder.checkPeopleInDB]: [None] is [null]. A failure of the
    statement is caught and gives [null] too. *)
Definition checkPeopleInDB (companyName : jstring) (d : D1) : option People * D1 :=
  match query_companies (fun r => lower_eq (Companies.company_name r) companyName) d with
  | (Threw _, d') => (None, d')
  | (Returned rows, d') =>
      match distinct (List.map people_row rows) with
      | [] => (None, d')
      | first :: rest =>
          (Some {| people_company := row_company_name first;
                   people_website := or_empty (normalizeUrl (row_website first));
                   people := List.map person_of (first :: rest) |}, d')
      end
  end.

Definition snippet (r : Tools.SearchEntry) : jstring :=
  [10%N] ++ js "          source url: " ++ Tools.entry_url r ++ [10%N]
  ++ js "          content: " ++ Tools.entry_content r ++ [10%N]
  ++ js "          ---".

(** [PeopleSchema.parse]: the three fields, checked; other keys are
    dropped. *)
Definition parse_person (v : Value) : option Person :=
  match v with
  | JObj f =>
      match lookup (js "name") f, lookup (js "role") f with
      | JStr n, JStr r => Some {| name := n; role := r |}
      | _, _ => None
      end
  | _ => None
  end.

Fixpoint parse_persons (l : list Value) : option (list Person) :=
  match l with
  | [] => Some []
  | v :: rest =>
      match parse_person v, parse_persons rest with
      | Some p, Some ps => Some (p :: ps)
      | _, _ => None
      end
  end.

Definition PeopleSchema_parse (v : Value) : option People :=
  match v with
  | JObj f =>
      match lookup (js "company") f, lookup (js "website") f,
            lookup (js "people") f with
      | JStr c, JStr w, JArr l =>
          if (match w with [] => true | _ => is_url w end) && (length l <=? 3)
          then match parse_persons l with
               | Some ps => Some {| people_company := c; people_website := w;
                                    people := ps |}
               | None => None
               end
          else None
      | _, _, _ => None
      end
  | _ => None
  end.

Record PeopleRun := {
  people_response : PeopleResponse;
  people_events : list Event;
  people_database : D1 }.

Definition research_failed : jstring := js "Failed to complete research".

(** The [try] block of [PeopleFinder.onRequest]: the response, or the
    message of the exception, with the events. *)
Definition research (companyName site notes0 : jstring) (state : Value)
  : Outcome PeopleResponse * list Event :=
  let searchQuery :=
    [34%N] ++ companyName ++ [34%N] ++ js " founder ceo " ++ [34%N] ++ js "c-suite"
    ++ [34%N] ++ js " leadership team site:"
    ++ (match site with [] => js "*" | _ => site end) in
  match fst (Tools.searchWeb_execute exa env searchQuery) with
  | Threw m => (Threw m, [])   (* no key: the tool throws before searching *)
  | Returned out =>
      let searchSnippets :=
        Tools.join [10%N] (List.map snippet (Tools.search_results out)) in
      match searchSnippets with
      | [] =>
          (Returned {| people_status := 200;
                       people_body :=
                         PeopleFailed {| people_company := companyName;
                                         people_website := site; people := [] |}
                           (js "No search results found") None state |},
           [WebSearch searchQuery])
      | _ :: _ =>
          let events := [WebSearch searchQuery; ModelCall] in
          match people_generateText
                  {| prompt_company := companyName; prompt_notes := notes0;
                     prompt_snippets := searchSnippets |} with
          | Threw m => (Threw m, events)
          | Returned text =>
              match JSON_parse (Orchestrator.extract_json text) with
              | Threw m => (Threw (js "Failed to extract structured data: " ++ m), events)
              | Returned parsed =>
                  match PeopleSchema_parse parsed with
                  | None =>
                      (Threw (js "Failed to extract structured data: ZodError"), events)
                  | Some extracted =>
                      (Returned
                         {| people_status := 200;
                            people_body :=
                              PeopleFound
                                {| people_company := people_company extracted;
                                   people_website :=
                                     or_else (or_else (people_website extracted) site) [];
                                   people := people extracted |} state |},
                       events)
                  end
              end
          end
      end
  end.

(** [PeopleFinder.onRequest] *)
Definition peopleFinder_onRequest (request : PeopleRequest) (state : Value) (d : D1)
  : PeopleRun :=
  let companyName := or_empty (company request) in
  let site := or_empty (website request) in
  let notes0 := or_empty (notes request) in
  match companyName with
  | [] =>
      {| people_response :=
           {| people_status := 400;
              people_body := RequestError (js "Company name is required") |};
         people_events := []; people_database := d |}
  | _ :: _ =>
      match checkPeopleInDB companyName d with
      | (Some existingPeople, d') =>
          {| people_response :=
               {| people_status := 200;
                  people_body := PeopleFound existingPeople state |};
             people_events := []; people_database := d' |}
      | (None, d') =>
          match research companyName site notes0 state with
          | (Returned response, events) =>
              {| people_response := response;
                 people_events := events; people_database := d' |}
          | (Threw m, events) =>
              {| people_response :=
                   {| people_status := 500;
                      people_body :=
                        PeopleFailed {| people_company := companyName;
                                        people_website := site; people := [] |}
                          research_failed (Some m) state |};
                 people_events := events; people_database := d' |}
          end
      end
  end.

(** *** EmailFinder *)

Record EmailRequest := {
  req_firstName : option jstring; req_lastName : option jstring;
  req_company : option jstring; req_domain : option jstring;
  req_company_name : option jstring; req_website : option jstring;
  req_role : option jstring }.

Record EmailBody := {
  emails : list Value;
  body_company_name : jstring;
  body_website : jstring;
  body_employee_name : jstring;
  body_employee_title : jstring;
  verification_summary : jstring;
  body_state : Value }.

Record EmailResponse := { email_status : nat; email_body : EmailBody }.

Definition unknown : jstring := js "Unknown".

(** The [emails] read back from the [email] column: the parsed array, or
    the column itself as the only element. *)
Definition stored_emails (column : option jstring) : list Value :=
  match column with
  | None => [JNull]
  | Some text =>
      match JSON_parse text with
      | Returned (JArr l) => l
      | _ => [JStr text]
      end
  end.

Definition summary (verified candidates : nat) : jstring :=
  Tools.js_of_nat verified ++ js " out of " ++ Tools.js_of_nat candidates
  ++ js " emails verified".

(** [EmailFinder.checkEmailsInDB] *)
Definition checkEmailsInDB (employeeName : jstring) (state : Value) (d : D1)
  : option EmailBody * D1 :=
  match query_companies (fun r => lower_eq (Companies.employee_name r) employeeName) d with
  | (Threw _, d') => (None, d')
  | (Returned [], d') => (None, d')
  | (Returned (result :: _), d') =>
      let found := firstn 3 (stored_emails (Companies.email result)) in
      (Some {| emails := found;
               body_company_name := Companies.company_name result;
               body_website := or_empty (normalizeUrl (Companies.website result));
               body_employee_name := employeeName;
               body_employee_title := or_empty (Companies.employee_title result);
               verification_summary := summary (length found) (length found);
               body_state := state |}, d')
  end.

(** The [try] block that reads the answer of the model: the candidate
    addresses and the title, or the fallback of the [catch]. *)
Definition read_answer (text : jstring) : list Value * Value :=
  let fallback := ([], JStr []) in
  match trim text with
  | [] => fallback
  | _ :: _ =>
      let cleanText := Orchestrator.extract_json text in
      match trim cleanText with
      | [] => fallback
      | _ :: _ =>
          match JSON_parse cleanText with
          | Threw _ => fallback
          | Returned emailResult =>
              match get emailResult (js "emails") with
              | Returned (JArr l) => (l, get_opt emailResult (js "employee_title"))
              | _ => fallback
              end
          end
      end
  end.

(** One verification: the address is kept when the status is ["valid"]. *)
Definition verified (email : Value) : bool :=
  match verifyEmail email with
  | Returned status => JStr.eqb status (js "valid")
  | Threw _ => false
  end.

(** [x && x.trim() !== "" ? x.trim() : fallback] *)
Definition title_or (title : Value) (role0 : jstring) : Outcome jstring :=
  match nonblank title with
  | Threw m => Threw m
  | Returned true => trim_method title
  | Returned false => Returned (trim role0)
  end.

(** Equality of the elements of a [Set]: two strings, numbers or booleans
    with the same value; two parsed arrays or objects are never the same. *)
Definition number_eqb (a b : number) : bool :=
  match a, b with
  | Int x, Int y => (x =? y)%Z
  | NaN, NaN => true
  | NonIntegral s x, NonIntegral t y => Bool.eqb s t && JStr.eqb x y
  | _, _ => false
  end.

Definition same_value (a b : Value) : bool :=
  match a, b with
  | JUndefined, JUndefined => true
  | JNull, JNull => true
  | JBool x, JBool y => Bool.eqb x y
  | JNum x, JNum y => number_eqb x y
  | JStr x, JStr y => JStr.eqb x y
  | _, _ => false
  end.

Fixpoint merge_from (seen xs : list Value) : list Value :=
  match xs with
  | [] => []
  | x :: rest =>
      if existsb (same_value x) seen then merge_from seen rest
      else x :: merge_from (x :: seen) rest
  end.

Definition nonblank_or (x fallback : jstring) : jstring :=
  match trim x with [] => fallback | _ => x end.

Definition with_companies (t : Tables) (rows : list Companies.row) (seq : Z)
  : Tables :=
  {| company_profiles := company_profiles t; employees := employees t;
     companies := rows;
     company_profiles_seq := company_profiles_seq t;
     employees_seq := employees_seq t; companies_seq := seq;
     current_timestamp := current_timestamp t |}.

Local Open Scope db_scope.
Import Upsert.

(** The statements of the [try] block that saves the verified
    addresses. *)
Definition save_emails (companyName domain employeeName role0 : jstring)
    (title : Value) (verifiedEmails : list Value) : M unit :=
  discoveredTitle <- lift (title_or title role0) ;;
  let websiteValue := match trim domain with [] => None | _ => Some domain end in
  let companyNameValue := nonblank_or companyName unknown in
  let employeeNameValue := nonblank_or employeeName unknown in
  matching <- query_companies
                (fun r => lower_eq (Companies.employee_name r) employeeNameValue) ;;
  match matching with
  | existing :: _ =>
      let mergedEmails :=
        merge_from [] (stored_emails (Companies.email existing) ++ verifiedEmails) in
      let emailsJson := JSON_stringify (JArr mergedEmails) in
      stmt (fun t =>
        (tt, with_companies t
               (List.map (fun r =>
                  if (Companies.id r =? Companies.id existing)%Z
                  then {| Companies.id := Companies.id r;
                          Companies.company_name := companyNameValue;
                          Companies.website := websiteValue;
                          Companies.employee_name := employeeNameValue;
                          Companies.employee_title := Some discoveredTitle;
                          Companies.email := Some emailsJson |}
                  else r) (companies t))
               (companies_seq t)))
  | [] =>
      let emailsJson := JSON_stringify (JArr verifiedEmails) in
      stmt (fun t =>
        let rid := (companies_seq t + 1)%Z in
        (tt, with_companies t
               (companies t ++
                  [ {| Companies.id := rid;
                       Companies.company_name := companyNameValue;
                       Companies.website := websiteValue;
                       Companies.employee_name := employeeNameValue;
                       Companies.employee_title := Some discoveredTitle;
                       Companies.email := Some emailsJson |} ])
               rid))
  end.

(** The results of the verifications: the address when it is valid, and
    [null] otherwise; the verified addresses are the results that are not
    [null]. *)
Definition verification_results (candidates : list Value) : list Value :=
  List.map (fun email => if verified email then email else JNull) candidates.

Definition not_null (email : Value) : bool :=
  match email with JNull => false | _ => true end.

Record EmailRun := {
  email_response : Outcome EmailResponse;   (* [Threw]: the handler rejects *)
  email_events : list Event;
  email_database : D1 }.

(** [EmailFinder.onRequest] after the lookup in the database. *)
Definition find_emails (request : EmailRequest) (employeeName : jstring)
    (state : Value) (d : D1) : EmailRun :=
  let firstName := or_empty (req_firstName request) in
  let lastName := or_empty (req_lastName request) in
  let company0 := or_empty (req_company request) in
  let domain := or_empty (req_domain request) in
  let companyName := or_else (or_else (or_empty (req_company_name request)) company0) [] in
  let role0 := or_empty (req_role request) in
  match email_generateText
          {| prompt_firstName := firstName; prompt_lastName := lastName;
             prompt_employer := company0; prompt_domain := domain |} with
  | Threw m =>
      {| email_response := Threw m; email_events := [ModelCall];
         email_database := d |}
  | Returned text =>
      let '(candidates, title) := read_answer text in
      let verifiedEmails := filter not_null (verification_results candidates) in
      let events := ModelCall :: List.map Verification candidates in
      let d' :=
        match verifiedEmails with
        | [] => d
        | _ :: _ =>
            (* the exceptions of the save are caught *)
            snd (save_emails companyName domain employeeName role0 title
                   verifiedEmails d)
        end in
      match title_or title role0 with
      | Threw m =>
          {| email_response := Threw m; email_events := events;
             email_database := d' |}
      | Returned finalEmployeeTitle =>
          let limitedEmails := firstn 3 verifiedEmails in
          {| email_response :=
               Returned
                 {| email_status := 200;
                    email_body :=
                      {| emails := limitedEmails;
                         body_company_name := companyName;
                         body_website := domain;
                         body_employee_name := employeeName;
                         body_employee_title := finalEmployeeTitle;
                         verification_summary :=
                           summary (length limitedEmails) (length candidates);
                         body_state := state |} |};
             email_events := events; email_database := d' |}
      end
  end.

(** [EmailFinder.onRequest] *)
Definition emailFinder_onRequest (request : EmailRequest) (state : Value) (d : D1)
  : EmailRun :=
  let firstName := or_empty (req_firstName request) in
  let lastName := or_empty (req_lastName request) in
  let employeeName := trim (firstName ++ js " " ++ lastName) in
  if negb (JStr.eqb employeeName []) && negb (JStr.eqb employeeName unknown) then
    match checkEmailsInDB employeeName state d with
    | (Some existingEmails, d') =>
        {| email_response :=
             Returned {| email_status := 200; email_body := existingEmails |};
           email_events := []; email_database := d' |}
    | (None, d') => find_emails request employeeName state d'
    end
  else find_emails request employeeName state d.

End WithServices.

End Agents.

(** ** The [peopleFinder] tool (worker, the first module of
    [src/applyo-worker/src/tools/peopleFinder.ts]) *)

Module PeopleFinderTool.
Import Tools.

Record Person := { name : jstring; role : jstring }.

(** The input of the tool; [website] is optional. *)
Record Input := { company : jstring; website : option jstring }.

(** The data interpolated into the extraction prompt. *)
Record PeoplePrompt := { prompt_company : jstring; prompt_context : jstring }.

Definition peopleFinder_options : ExaOptions :=
  {| type := js "fast"; useAutoprompt := false; numResults := 3;
     maxCharacters := 1000 |}.

Definition peopleFinder_queries (company : jstring) : list jstring :=
  [ company ++ js " leadership team executives";
    company ++ js " CEO CTO founder" ].

(** [`Source: ${r.title}\nContent: ${r.text}`] *)
Definition render_source (r : ExaResult) : jstring :=
  js "Source: " ++ render_title (title r) ++ [10%N] ++ js "Content: " ++ text r.

Definition separator : jstring := [10%N; 10%N] ++ js "---" ++ [10%N; 10%N].

(** What a call leaves behind: the queries sent to Exa, the prompts sent to
    the model and the first argument of each [console.error]. *)
Record Trace := {
  searches : list jstring;
  prompts : list PeoplePrompt;
  errors : list jstring }.

Definition query_failed (q : jstring) : jstring :=
  js "exa query failed for " ++ [34%N] ++ q ++ [34%N] ++ js ":".

Section WithServices.

Variable exa : ExaClient.
(** [generateObject] with the schema [PeopleResultSchema]; the first
    argument is the key given to the model. *)
Variable generateObject : option jstring -> PeoplePrompt -> Outcome (list Person).

(** One search: a failure is logged and counts as no result. *)
Definition search_one (key q : jstring) : list ExaResult * list jstring :=
  match exa key q peopleFinder_options with
  | Returned r => (match results r with Some rs => rs | None => [] end, [])
  | Threw _ => ([], [query_failed q])
  end.

(** [peopleFinder.execute({ company, website }, options)] *)
Definition peopleFinder_execute (env : Env) (input : Input)
  : Outcome (list Person) * Trace :=
  match EXA_API_KEY env with
  | Some (c :: k) =>
      let queries := peopleFinder_queries (company input) in
      let searchResults := List.map (search_one (c :: k)) queries in
      let failed := List.flat_map snd searchResults in
      let combinedContent :=
        join separator (List.map render_source (List.flat_map fst searchResults)) in
      match combinedContent with
      | [] =>
          (Returned [],
           {| searches := queries; prompts := []; errors := failed |})
      | _ :: _ =>
          let prompt := {| prompt_company := company input;
                           prompt_context := combinedContent |} in
          match generateObject (OPENAI_API_KEY env) prompt with
          | Returned people =>
              (Returned people,
               {| searches := queries; prompts := [prompt]; errors := failed |})
          | Threw _ =>
              (Returned [],
               {| searches := queries; prompts := [prompt];
                  errors := failed ++ [js "llm extraction failed:"] |})
          end
      end
  | _ =>
      (Threw (js "People finder - EXA_API_KEY is missing"),
       {| searches := []; prompts := []; errors := [] |})
  end.

End WithServices.

End PeopleFinderTool.

(** ** The rest of the vector handler (worker,
    [src/applyo-worker/src/lib/vectorize.ts]: [populateEmployees], [search],
    [updateCompany] and [getStats]), its routes (in
    [src/applyo-worker/src/tools/peopleFinder.ts]) and the [vectorizeSearch]
    tool ([src/unnamed/part_004]) *)

Module VectorizeHandler.
Import Values Db.

Record EmployeeMetadata := {
  employee_id : jstring;
  employee_name : jstring;
  employee_title : jstring;
  email : jstring;
  company_id : jstring;
  company_name : jstring;
  company_website : jstring;
  company_description : jstring;
  company_industry : jstring;
  company_year_founded : jstring;
  company_tech_stack : jstring }.

Record EmployeeVector := {
  vector_id : jstring;
  values : option (list number);
  metadata : EmployeeMetadata }.

Inductive Index := CompanyIndex | EmployeeIndex.

(** A match returned by an index: its score and, when the index returns
    it, its metadata. *)
Record Match := { score : Value; match_metadata : option (list (jstring * Value)) }.

(** The bindings of the worker: those of [Vectorize.Bindings] ([AI.run] and
    [COMPANY_VECTORS.insert]) and the other calls on the two indexes. *)
Record Bindings := {
  base : Vectorize.Bindings;
  EMPLOYEE_VECTORS_insert : list EmployeeVector -> Outcome Value;
  (** [INDEX.query(vector, { topK, returnMetadata: true, filter: undefined })]:
      the [matches] of the answer. *)
  VECTORS_query : Index -> option (list number) -> number -> Outcome (list Match);
  COMPANY_VECTORS_upsert : list Vectorize.Vector -> Outcome Value }.

(** *** [populateEmployees] *)






Record Populated := {
  result : Value;
  embedded : list jstring;
  inserted : option (list EmployeeVector);
  database : D1 }.


(** *** [search] *)

(** The own properties of an object. *)
Definition Fields : Type := list (jstring * Value).

(** The [results] of a search: each list is present when its index was
    queried, and holds one object for each match. *)
Record SearchResults := {
  companies : option (list Fields);
  employees : option (list Fields) }.

Inductive SearchResult :=
| SearchFailed (error : jstring)
| SearchOk (query type : jstring) (results : SearchResults).

(** What a search leaves behind: the texts sent to the embedding model and
    the queries made on the indexes, each with its [topK]. *)
Record SearchRun := {
  search_result : SearchResult;
  search_embedded : list jstring;
  queried : list (Index * number) }.

(** [{ ...x }] for an object [x]: each key once, with the value that
    [lookup] gives it. *)
Fixpoint own_from (seen : list jstring) (fields : Fields) : Fields :=
  match fields with
  | [] => []
  | (k, v) :: rest =>
      if existsb (JStr.eqb k) seen then own_from seen rest
      else (k, v) :: own_from (k :: seen) rest
  end.

(** [{ ...base, ...x }] *)
Definition spread (base x : Fields) : Fields :=
  fold_left (fun acc kv => obj_set (fst kv) (snd kv) acc) (own_from [] x) base.

(** [{ score: match.score, ...match.metadata }] *)
Definition match_object (m : Match) : Fields :=
  spread [(js "score", score m)]
    (match match_metadata m with Some md => md | None => [] end).

Definition wants (what type : jstring) : bool :=
  JStr.eqb type what || JStr.eqb type (js "both").

(** One query of an index: [queryEmbedding.data[0]] is read first, and
    throws when the answer of the model has no [data]. *)
Definition ask (env : Bindings) (data : option (list (list number))) (i : Index)
    (limit : number) : Outcome (list Fields) * list (Index * number) :=
  match data with
  | None => (Threw type_error, [])
  | Some rows =>
      let vector := match rows with v :: _ => Some v | [] => None end in
      (match VECTORS_query env i vector limit with
       | Returned ms => Returned (List.map match_object ms)
       | Threw m => Threw m
       end,
       [(i, limit)])
  end.

(** [VectorizeHandler.search(query, { type, limit })]; an absent option is
    [undefined] and takes its default. No caller passes a [filter]. *)
Definition search (env : Bindings) (query : jstring) (type : option jstring)
    (limit : option number) : SearchRun :=
  let type := match type with Some t => t | None => js "both" end in
  let limit := match limit with Some l => l | None => Int 5 end in
  match query with
  | [] =>
      {| search_result := SearchFailed (js "Query is required");
         search_embedded := []; queried := [] |}
  | _ :: _ =>
      let failed m q :=
        {| search_result := SearchFailed m; search_embedded := [query];
           queried := q |} in
      match Vectorize.AI_run (base env) Vectorize.embedding_model query with
      | Threw m => failed m []
      | Returned data =>
          let '(found_companies, q1) :=
            if wants (js "companies") type
            then match ask env data CompanyIndex limit with
                 | (Returned l, q) => (Returned (Some l), q)
                 | (Threw m, q) => (Threw m, q)
                 end
            else (Returned None, []) in
          match found_companies with
          | Threw m => failed m q1
          | Returned found_companies =>
              let '(found_employees, q2) :=
                if wants (js "employees") type
                then match ask env data EmployeeIndex limit with
                     | (Returned l, q) => (Returned (Some l), q)
                     | (Threw m, q) => (Threw m, q)
                     end
                else (Returned None, []) in
              match found_employees with
              | Threw m => failed m (q1 ++ q2)
              | Returned found_employees =>
                  {| search_result :=
                       SearchOk query type
                         {| companies := found_companies;
                            employees := found_employees |};
                     search_embedded := [query];
                     queried := q1 ++ q2 |}
              end
          end
      end
  end.

(** *** [updateCompany] *)

(** [select().from(companyProfiles).where(eq(id, companyId)).get()]; an id
    that is not an integer matches no row. *)
Definition select_by_id (companyId : number) (t : Tables)
  : option CompanyProfiles.row * Tables :=
  (match companyId with
   | Int z => find (fun r => (CompanyProfiles.id r =? z)%Z) (company_profiles t)
   | _ => None
   end, t).

(** The vector built by [updateCompany], as its own code builds it. *)
Definition update_vector (company : CompanyProfiles.row) (data : list (list number))
  : Vectorize.Vector :=
  {| Vectorize.vector_id := js "company_" ++ Vectorize.js_of_Z (CompanyProfiles.id company);
     Vectorize.values := match data with v :: _ => Some v | [] => None end;
     Vectorize.metadata :=
       {| Vectorize.company_id := Vectorize.js_of_Z (CompanyProfiles.id company);
          Vectorize.company_name := CompanyProfiles.companyName company;
          Vectorize.website :=
            Vectorize.text_or_empty (CompanyProfiles.website company);
          Vectorize.year_founded :=
            Vectorize.number_or_empty (CompanyProfiles.yearFounded company);
          Vectorize.description :=
            Vectorize.text_or_empty (CompanyProfiles.description company);
          Vectorize.tech_stack :=
            Vectorize.text_or_empty (CompanyProfiles.techStack company);
          Vectorize.employee_count_min :=
            Vectorize.number_or_empty (CompanyProfiles.employeeCountMin company);
          Vectorize.employee_count_max :=
            Vectorize.number_or_empty (CompanyProfiles.employeeCountMax company);
          Vectorize.revenue :=
            Vectorize.text_or_empty (CompanyProfiles.revenue company);
          Vectorize.funding :=
            Vectorize.text_or_empty (CompanyProfiles.funding company);
          Vectorize.headquarters :=
            Vectorize.text_or_empty (CompanyProfiles.headquarters company);
          Vectorize.industry :=
            Vectorize.text_or_empty (CompanyProfiles.industry company) |} |}.

Definition update_text (company : CompanyProfiles.row) : jstring :=
  CompanyProfiles.companyName company ++ js " "
  ++ Vectorize.text_or_empty (CompanyProfiles.description company) ++ js " "
  ++ Vectorize.text_or_empty (CompanyProfiles.techStack company) ++ js " "
  ++ Vectorize.text_or_empty (CompanyProfiles.industry company).

Record Updated := {
  update_result : Value;
  update_embedded : list jstring;
  upserted : option (list Vectorize.Vector);
  update_database : D1 }.

Definition failure (m : jstring) : Value :=
  JObj [(js "success", JBool false); (js "error", JStr m)].

(** [VectorizeHandler.updateCompany(companyId)] *)
Definition updateCompany (env : Bindings) (companyId : number) (d : D1) : Updated :=
  match stmt (select_by_id companyId) d with
  | (Threw m, d') =>
      {| update_result := failure m; update_embedded := []; upserted := None;
         update_database := d' |}
  | (Returned None, d') =>
      {| update_result := failure (js "Company not found"); update_embedded := [];
         upserted := None; update_database := d' |}
  | (Returned (Some company), d') =>
      let text := update_text company in
      match Vectorize.AI_run (base env) Vectorize.embedding_model text with
      | Threw m =>
          {| update_result := failure m; update_embedded := [text];
             upserted := None; update_database := d' |}
      | Returned None =>
          {| update_result := failure type_error; update_embedded := [text];
             upserted := None; update_database := d' |}
      | Returned (Some data) =>
          let batch := [update_vector company data] in
          match COMPANY_VECTORS_upsert env batch with
          | Threw m =>
              {| update_result := failure m; update_embedded := [text];
                 upserted := Some batch; update_database := d' |}
          | Returned _ =>
              {| update_result :=
                   JObj [(js "success", JBool true);
                         (js "message",
                          JStr (js "Updated vector for "
                                ++ CompanyProfiles.companyName company))];
                 update_embedded := [text]; upserted := Some batch;
                 update_database := d' |}
          end
      end
  end.

(** *** [getStats] *)

(** The statement that counts the rows of a table. *)
Definition count_rows (A : Type) (table : Tables -> list A) (t : Tables)
  : number * Tables :=
  (Int (Z.of_nat (length (table t))), t).

(** [count || 0] *)
Definition count_or_zero (n : number) : Value :=
  if number_truthy n then JNum n else JNum (Int 0).

Definition stats_of (n : number) : Value :=
  JObj [(js "total_in_db", count_or_zero n); (js "indexed", count_or_zero n)].

(** [VectorizeHandler.getStats()] *)
Definition getStats (d : D1) : Value * D1 :=
  match stmt (count_rows company_profiles) d with
  | (Threw m, d') => (failure m, d')
  | (Returned companyCount, d1) =>
      match stmt (count_rows Db.employees) d1 with
      | (Threw m, d') => (failure m, d')
      | (Returned employeeCount, d2) =>
          (JObj [(js "companies", stats_of companyCount);
                 (js "employees", stats_of employeeCount)], d2)
      end
  end.

(** *** The routes *)

Record Response := { status : nat; body : Value }.

Definition succeeded (result : Value) : bool :=
  match result with
  | JObj f => truthy (lookup (js "success") f)
  | _ => false
  end.


Definition search_body (r : SearchResult) : Value :=
  match r with
  | SearchFailed m => failure m
  | SearchOk q t rs =>
      let entry k (x : option (list Fields)) :=
        match x with Some l => [(k, JArr (List.map JObj l))] | None => [] end in
      JObj [(js "success", JBool true); (js "query", JStr q); (js "type", JStr t);
            (js "results",
             JObj (entry (js "companies") (companies rs)
                   ++ entry (js "employees") (employees rs)))]
  end.

(** [VectorizeSearchRoute.handle]; [q], [type] and [limit] are the
    validated query parameters. *)
Definition search_route (env : Bindings) (q type : jstring) (limit : number)
  : Response * SearchRun :=
  let run := search env q (Some type) (Some limit) in
  ({| status := match search_result run with SearchOk _ _ _ => 200 | _ => 400 end;
      body := search_body (search_result run) |},
   run).

(** [VectorizeUpdateCompanyRoute.handle]; [id] is [parseInt] of the path
    parameter. *)
Definition update_company_route (env : Bindings) (id : number) (d : D1)
  : Response * Updated :=
  let run := updateCompany env id d in
  ({| status := if succeeded (update_result run) then 200 else 404;
      body := update_result run |},
   run).

(** [VectorizeStatsRoute.handle]: [Response.json(result)] *)
Definition stats_route (d : D1) : Response * D1 :=
  let '(result, d') := getStats d in
  ({| status := 200; body := result |}, d').

(** *** The [vectorizeSearch] tool *)

Record ToolOutput := {
  success : bool;
  out_query : option jstring;
  out_error : option jstring;
  out_companies : list Fields;
  out_employees : list Fields }.

Definition or_nil (x : option (list Fields)) : list Fields :=
  match x with Some l => l | None => [] end.

(** [vectorizeSearch.execute({ query, type, limit }, options)]; [env] is
    [options?.env ?? process.env]. *)
Definition vectorizeSearch_execute (env : option Bindings) (query : jstring)
    (type : option jstring) (limit : option number)
  : Outcome ToolOutput * option SearchRun :=
  match env with
  | None =>
      (Threw (js "Vectorize search tool - environment bindings are missing"), None)
  | Some env =>
      let type' := match type with Some (c :: t) => c :: t | _ => js "both" end in
      let limit' := match limit with
                    | Some l => if number_truthy l then l else Int 5
                    | None => Int 5
                    end in
      let run := search env query (Some type') (Some limit') in
      (Returned
         match search_result run with
         | SearchFailed m =>
             {| success := false; out_query := None;
                out_error := Some (or_else m (js "Search failed"));
                out_companies := []; out_employees := [] |}
         | SearchOk q _ rs =>
             {| success := true; out_query := Some q; out_error := None;
                out_companies := or_nil (companies rs);
                out_employees := or_nil (employees rs) |}
         end,
       Some run)
  end.

End VectorizeHandler.

(** ** The finder agent over the vector index (worker, class [FinderV2]
    of [src/unnamed/part_001]) *)

Module Finder.
Import Values VectorizeHandler.

Record Request := { query : option jstring; type : option jstring }.

Record Response := { status : nat; body : Value }.

(** The score above which a match counts. *)
Definition threshold : Value := JNum (NonIntegral true (js "0.7")).

Section WithServices.

(** [a > b] *)
Variable js_gt : Value -> Value -> bool.

Definition score_of (x : Fields) : Value := lookup (js "score") x.

(** [x.score > 0.7] *)
Definition high (x : Fields) : bool := js_gt (score_of x) threshold.

(** [companies.reduce((prev, curr) => curr.score > prev.score ? curr : prev,
    companies[0])], or [null] for no company. *)
Definition top (companies : list Fields) : option Fields :=
  match companies with
  | [] => None
  | first :: _ =>
      Some (fold_left (fun prev curr =>
                         if js_gt (score_of curr) (score_of prev) then curr else prev)
              companies first)
  end.

Definition person_of (e : Fields) : Value :=
  JObj [(js "name", js_or (lookup (js "employee_name") e) (JStr []));
        (js "role", js_or (lookup (js "employee_title") e) (JStr []));
        (js "emails",
         if truthy (lookup (js "email") e) then JArr [lookup (js "email") e]
         else JArr [])].

Definition failed (state : Value) (m : jstring) : Response :=
  {| status := 500;
     body := JObj [(js "company", JStr []); (js "people", JArr []);
                   (js "state", state); (js "error", JStr m)] |}.

(** [FinderV2.onRequest]; the second component is the search made, if
    any. *)
Definition onRequest (env : Bindings) (request : Request) (state : Value)
  : Response * option SearchRun :=
  let query0 := match query request with Some q => q | None => [] end in
  let type0 := match type request with Some (c :: t) => c :: t | _ => js "both" end in
  match query0 with
  | [] =>
      ({| status := 400; body := JObj [(js "error", JStr (js "Query is required"))] |},
       None)
  | _ :: _ =>
      let run := search env query0 (Some type0) (Some (Int 5)) in
      (match search_result run with
       | SearchFailed m => failed state (or_else m (js "Search failed"))
       | SearchOk q t rs =>
           let companies := or_nil (companies rs) in
           let employees := or_nil (employees rs) in
           if existsb high companies || existsb high employees then
             let companyName :=
               js_or (match top companies with
                      | Some c => lookup (js "company_name") c
                      | None => JUndefined
                      end)
                     (match employees with
                      | e :: _ => lookup (js "company_name") e
                      | [] => JStr []
                      end) in
             {| status := 200;
                body := JObj [(js "company", companyName);
                              (js "people",
                               JArr (List.map person_of (filter high employees)));
                              (js "state", state); (js "error", JStr [])] |}
           else
             {| status := 200;
                body := JObj [(js "query", JStr q); (js "type", JStr t);
                              (js "companies", JArr (List.map JObj companies));
                              (js "employees", JArr (List.map JObj employees))] |}
       end,
       Some run)
  end.

End WithServices.

End Finder.

(** ** The research agent (worker, class [FinderV2] of
    [src/applyo-worker/src/agents/finder.ts]) *)

Module Researcher.
Import Values.

Inductive Body :=
| Json (v : Value)
| Text (t : jstring).

Record Response := { status : nat; content_type : jstring; body : Body }.

Definition apology : jstring :=
  js "I apologize, but I wasn't able to generate a response. Please try again with a different query.".

Section WithServices.

(** The text of the answer of the model to the prompt built from the
    query; the model may call the [vectorizeSearch] tool on the way. *)
Variable generateText : jstring -> Outcome jstring.

(** [FinderV2.onRequest]; the second component lists the queries given to
    the model. *)
Definition onRequest (query : option jstring) : Response * list jstring :=
  match query with
  | Some (c :: q) =>
      (match generateText (c :: q) with
       | Returned text =>
           match trim text with
           | [] => {| status := 500; content_type := js "text/plain";
                      body := Text apology |}
           | _ :: _ => {| status := 200; content_type := js "text/markdown";
                          body := Text text |}
           end
       | Threw m =>
           {| status := 500; content_type := js "text/plain";
              body := Text (js "Error: Failed to complete research. " ++ m) |}
       end,
       [c :: q])
  | _ =>
      ({| status := 400; content_type := js "application/json";
          body := Json (JObj [(js "error", JStr (js "Query is required"))]) |},
       [])
  end.

End WithServices.

End Researcher.

(** ** The prospecting agent (worker, class [Prospects] of
    [src/applyo-worker/src/agents/prospector.ts]) *)

Module Prospects.
Import Values VectorizeHandler.

Record Request := {
  summary : option jstring; preferences : option jstring;
  location : option jstring }.

(** The data interpolated into the prompt; an empty location leaves its
    line out. *)
Record Prompt := {
  prompt_summary : jstring; prompt_preferences : jstring;
  prompt_location : option jstring }.

Record Response := { status : nat; content_type : jstring; body : Value }.

(** The entries [0], [1], ... of an array or of a string. *)
Fixpoint indexed (i : nat) (l : list Value) : Fields :=
  match l with
  | [] => []
  | v :: rest => (Tools.js_of_nat i, v) :: indexed (S i) rest
  end.

(** [{ ...v }] for any value. *)
Definition spread_value (v : Value) : Fields :=
  match v with
  | JObj f => spread [] f
  | JArr l => indexed 0 l
  | JStr s => indexed 0 (List.map (fun c => JStr [c]) s)
  | _ => []
  end.

Section WithServices.

Variable JSON_parse : jstring -> Outcome Value.
Variable generateText : Prompt -> Outcome jstring.

Definition prompt_of (request : Request) : Prompt :=
  let text (x : option jstring) := match x with Some s => s | None => [] end in
  {| prompt_summary := text (summary request);
     prompt_preferences := text (preferences request);
     prompt_location := match location request with
                        | Some (c :: l) => Some (c :: l)
                        | _ => None
                        end |}.

(** The value of [companies] after the [try] block. *)
Definition parsed_or_fallback (text : jstring) : Value :=
  match JSON_parse (Orchestrator.extract_json text) with
  | Returned v => v
  | Threw m =>
      JObj [(js "companies", JArr []);
            (js "error", JStr (js "Failed to parse response"));
            (js "rawText", JStr text);
            (js "parseError", JStr m)]
  end.

(** [Prospects.onRequest]: [Threw] when the handler itself rejects. *)
Definition onRequest (request : Request) (state : Value) : Outcome Response :=
  match generateText (prompt_of request) with
  | Threw m => Threw m
  | Returned text =>
      Returned
        {| status := 200; content_type := js "application/json";
           body := JObj (obj_set (js "state") state
                           (spread_value (parsed_or_fallback text))) |}
  end.

End WithServices.

End Prospects.

(** ** The person card: links and sending (frontend, [PersonCard], in
    [src/unnamed/part_000]) *)

Module PersonCardSend.

Definition at_sign : N := 64.

(** [s.split(c)] for a separator of one character. *)
Fixpoint split (sep : N) (s : jstring) : list jstring :=
  match s with
  | [] => [[]]
  | c :: rest =>
      if N.eqb c sep then [] :: split sep rest
      else match split sep rest with
           | h :: t => (c :: h) :: t
           | [] => [[c]]
           end
  end.

(** [person.emails && person.emails.length > 0] *)
Definition hasEmail (emails : option (list jstring)) : bool :=
  match emails with Some (_ :: _) => true | _ => false end.

(** [person.emails?.[0] ?? null] *)
Definition targetEmail (emails : option (list jstring)) : option jstring :=
  match emails with Some (e :: _) => Some e | _ => None end.

(** [targetEmail ? targetEmail.split('@')[1] : null] *)
Definition domain (target : option jstring) : option jstring :=
  match target with
  | Some (c :: e) => nth_error (split at_sign (c :: e)) 1
  | _ => None
  end.

(** [domain ? `https://${domain}` : null] *)
Definition companyUrl (dom : option jstring) : option jstring :=
  match dom with
  | Some (c :: d) => Some (js "https://" ++ c :: d)
  | _ => None
  end.

(** The state of the compose form. *)
Record State := {
  isComposing : bool;
  isSending : bool;
  emailSubject : jstring;
  emailBody : jstring;
  sendSuccess : bool;
  sendError : option jstring }.

Record SendArgs := { to : jstring; subject : jstring; body : jstring }.

Section WithServices.

(** [protectedApi.sendEmail] *)
Variable sendEmail : SendArgs -> Outcome unit.

(** [handleSendEmail], up to the end of its [finally]: the state, and the
    requests sent. *)
Definition handleSendEmail (target : option jstring) (st : State)
  : State * list SendArgs :=
  match target with
  | Some (c :: e) =>
      let args := {| to := c :: e; subject := emailSubject st;
                     body := emailBody st |} in
      (match sendEmail args with
       | Returned _ =>
           {| isComposing := isComposing st; isSending := false;
              emailSubject := emailSubject st; emailBody := emailBody st;
              sendSuccess := true; sendError := None |}
       | Threw m =>
           {| isComposing := isComposing st; isSending := false;
              emailSubject := emailSubject st; emailBody := emailBody st;
              sendSuccess := sendSuccess st; sendError := Some m |}
       end,
       [args])
  | _ => (st, [])
  end.

End WithServices.

(** The callback given to [setTimeout] after a successful send. *)
Definition after_timeout (st : State) : State :=
  {| isComposing := false; isSending := isSending st;
     emailSubject := []; emailBody := [];
     sendSuccess := false; sendError := sendError st |}.

(** [disabled={isSending || !emailSubject || !emailBody}] *)
Definition send_disabled (st : State) : bool :=
  isSending st
  || match emailSubject st with [] => true | _ => false end
  || match emailBody st with [] => true | _ => false end.

End PersonCardSend.

(** * Properties *)

(** ** Facts about strings *)

Lemma jstring_eqb_spec (a b : jstring) : reflect (a = b) (JStr.eqb a b).
Proof.
  revert b; induction a as [|x a IH]; intros [|y b]; simpl;
    try (constructor; congruence).
  destruct (N.eqb_spec x y) as [->|Hne]; simpl.
  - destruct (IH b) as [->|Hne]; constructor; congruence.
  - constructor; congruence.
Qed.

Lemma jstring_eqb_refl (a : jstring) : JStr.eqb a a = true.
Proof. destruct (jstring_eqb_spec a a); congruence. Qed.

Lemma startsWith_spec (p s : jstring) :
  startsWith p s = true <-> exists r, s = p ++ r.
Proof.
  revert s; induction p as [|x p IH]; intros s; simpl.
  - split; [intros _; now exists s | reflexivity].
  - destruct s as [|y s].
    + split; [discriminate | intros [r Hr]; discriminate].
    + rewrite andb_true_iff, IH, N.eqb_eq. split.
      * intros [-> [r ->]]. now exists r.
      * intros [r Hr]. injection Hr as -> ->. split; [reflexivity | now exists r].
Qed.

Lemma startsWith_app (p r : jstring) : startsWith p (p ++ r) = true.
Proof. apply startsWith_spec. now exists r. Qed.

Lemma mem_false_app (c : N) (a b : jstring) :
  mem c (a ++ b) = false <-> mem c a = false /\ mem c b = false.
Proof. unfold mem. rewrite existsb_app, orb_false_iff. tauto. Qed.

Lemma app_inj_length (A : Type) (a a' b b' : list A) :
  length a = length a' -> a ++ b = a' ++ b' -> a = a' /\ b = b'.
Proof.
  revert a'; induction a as [|x a IH]; intros [|y a'] Hl H; simpl in *;
    try discriminate; auto.
  injection H as -> H. injection Hl as Hl.
  destruct (IH _ Hl H) as [-> ->]. auto.
Qed.

(** ** Template prefill *)

Section Replace.
Import PersonCard.

Variables (pat : jstring).
Hypothesis pat_nonempty : pat <> [].

Lemma get_substitution_plain (m b a rep : jstring) :
  mem dollar rep = false -> get_substitution m b a rep = rep.
Proof.
  induction rep as [|c r IH]; [reflexivity|].
  unfold mem. cbn [existsb get_substitution].
  intros H. apply orb_false_iff in H as [Hc Hr].
  rewrite N.eqb_sym in Hc. rewrite Hc.
  now rewrite (IH Hr).
Qed.

Lemma replace_from_skip (rep : jstring) (k : nat) :
  forall before s, k <= length s ->
    replace_from pat rep k before s
    = replace_from pat rep 0 (before ++ firstn k s) (skipn k s).
Proof.
  induction k as [|k IH]; intros before s Hk.
  - simpl. now rewrite app_nil_r.
  - destruct s as [|c s]; simpl in Hk; [lia|].
    simpl. rewrite IH by lia. now rewrite <- app_assoc.
Qed.

Lemma replace_from_cons0 (rep before : jstring) (c : N) (s : jstring) :
  replace_from pat rep 0 before (c :: s)
  = if startsWith pat (c :: s) then
      get_substitution pat before (skipn (length pat) (c :: s)) rep
      ++ replace_from pat rep (length pat - 1) (before ++ [c]) s
    else c :: replace_from pat rep 0 (before ++ [c]) s.
Proof. reflexivity. Qed.

Lemma replace_from_match (rep before rest : jstring) :
  replace_from pat rep 0 before (pat ++ rest)
  = get_substitution pat before rest rep
    ++ replace_from pat rep 0 (before ++ pat) rest.
Proof.
  destruct pat as [|x p] eqn:E; [contradiction|]. rewrite <- E.
  assert (Hs : pat ++ rest = x :: (p ++ rest)) by (now rewrite E).
  assert (Hl : length pat - 1 = length p) by (rewrite E; simpl; lia).
  rewrite Hs, replace_from_cons0, <- Hs, startsWith_app.
  rewrite skipn_app, skipn_all, Nat.sub_diag. simpl app at 1. simpl skipn.
  f_equal.
  rewrite Hl, replace_from_skip by (rewrite length_app; lia).
  rewrite firstn_app, firstn_all, Nat.sub_diag, skipn_app, skipn_all, Nat.sub_diag.
  simpl. rewrite app_nil_r, <- app_assoc, E. reflexivity.
Qed.

Lemma not_occurs_nil : ~ occurs pat [].
Proof.
  intros (pre & rest & H). symmetry in H.
  apply app_eq_nil in H as [_ H]. apply app_eq_nil in H as [H _].
  contradiction.
Qed.

Lemma ReplacedAll_cons (rep : jstring) (c : N) (s t : jstring) :
  startsWith pat (c :: s) = false ->
  ReplacedAll pat rep s t -> ReplacedAll pat rep (c :: s) (c :: t).
Proof.
  intros Hns H. inversion H as [s0 Hno | pre rest t0 Hmin Hrest]; subst.
  - apply RA_none. intros (pre & rest & E).
    destruct pre as [|d pre]; simpl in E.
    + rewrite E, startsWith_app in Hns. discriminate.
    + injection E as -> E. apply Hno. now exists pre, rest.
  - change (c :: pre ++ pat ++ rest) with ((c :: pre) ++ pat ++ rest).
    change (c :: pre ++ rep ++ t0) with ((c :: pre) ++ rep ++ t0).
    apply RA_next; [|assumption].
    intros pre' rest' E. destruct pre' as [|d pre']; simpl in E.
    + rewrite E, startsWith_app in Hns. discriminate.
    + injection E as -> E. simpl. apply le_n_S. eapply Hmin; eassumption.
Qed.

Lemma replace_from_ReplacedAll (rep : jstring) :
  mem dollar rep = false ->
  forall n s before, length s <= n ->
    ReplacedAll pat rep s (replace_from pat rep 0 before s).
Proof.
  intros Hrep. induction n as [|n IH]; intros s before Hn.
  - destruct s; simpl in Hn; [|lia]. apply RA_none, not_occurs_nil.
  - destruct s as [|c s]; [apply RA_none, not_occurs_nil|].
    destruct (startsWith pat (c :: s)) eqn:Hsw.
    + apply startsWith_spec in Hsw as [rest E]. rewrite E.
      rewrite replace_from_match, get_substitution_plain by assumption.
      apply (@RA_next pat rep [] rest).
      * intros; simpl; lia.
      * apply IH. apply (f_equal (@length N)) in E.
        rewrite length_app in E. simpl in *.
        destruct pat; [contradiction|simpl in E; lia].
    + cbn [replace_from]. rewrite Hsw.
      apply ReplacedAll_cons; [assumption|]. apply IH. simpl in Hn. lia.
Qed.

Lemma replace_global_ReplacedAll (rep s : jstring) :
  mem dollar rep = false -> ReplacedAll pat rep s (replace_global pat rep s).
Proof.
  intros H. unfold replace_global.
  apply replace_from_ReplacedAll with (n := length s); auto.
Qed.

Lemma ReplacedAll_functional (rep s t1 t2 : jstring) :
  ReplacedAll pat rep s t1 -> ReplacedAll pat rep s t2 -> t1 = t2.
Proof.
  intros H1; revert t2.
  induction H1 as [s Hno | pre rest t Hmin Hrest IH]; intros t2 H2.
  - inversion H2 as [|pre' rest' t' Hmin' Hrest' E]; subst; [reflexivity|].
    exfalso. apply Hno. now exists pre', rest'.
  - inversion H2 as [s0 Hno E0 | pre' rest' t' Hmin' Hrest' E1 E2].
    + exfalso. apply Hno. now exists pre, rest.
    + assert (Hl : length pre = length pre').
      { apply Nat.le_antisymm.
        - apply (Hmin pre' rest'). symmetry. exact E1.
        - apply (Hmin' pre rest). exact E1. }
      destruct (@app_inj_length N pre pre' _ _ Hl (eq_sym E1)) as [-> E3].
      apply app_inv_head in E3. subst rest'.
      now rewrite (IH _ Hrest').
Qed.

End Replace.

Section TemplatePrefill.
Import PersonCard.

Lemma ph_firstName_nonempty : ph_firstName <> [].
Proof. discriminate. Qed.

Lemma ph_company_nonempty : ph_company <> [].
Proof. discriminate. Qed.

Example split_first_two_words : split_first (js "Ada Lovelace") = js "Ada".
Proof. reflexivity. Qed.

Example split_first_leading_space : split_first (js " Ada") = [].
Proof. reflexivity. Qed.

(** A dollar sign in the inserted text is read as a replacement pattern:
    the company name [Ca$$h] is inserted as [Ca$h]. *)
Example replace_global_dollar :
  replace_global ph_company (js "Ca$$h") (js "at {{company}}") = js "at Ca$h".
Proof. reflexivity. Qed.

(** C2 (amended). Selecting a template prefills the subject field with the
    stored subject as it is; the body field receives the stored body in
    which every occurrence of [{{firstName}}] has been replaced by the text
    of the person's name before its first space and then every occurrence of
    [{{company}}] by the company name (["your company"] when the name is
    absent or empty), provided neither inserted text contains a dollar
    sign. *)
Theorem handleTemplateSelect_prefill
    (personName : jstring) (companyName : option jstring)
    (template : Template) (st : ComposeState) :
  mem dollar (split_first personName) = false ->
  mem dollar (company_or_default companyName) = false ->
  let st' := handleTemplateSelect personName companyName template st in
  emailSubject st' = subject template /\
  exists mid,
    ReplacedAll ph_firstName (split_first personName) (body template) mid /\
    ReplacedAll ph_company (company_or_default companyName) mid (emailBody st').
Proof.
  intros Hn Hc st'. split; [reflexivity|].
  exists (replace_global ph_firstName (split_first personName) (body template)).
  split.
  - apply replace_global_ReplacedAll; [apply ph_firstName_nonempty | exact Hn].
  - apply replace_global_ReplacedAll; [apply ph_company_nonempty | exact Hc].
Qed.

Lemma handleTemplateSelect_prefill_witness :
  let template := {| subject := js "Hello {{firstName}}";
                     body := js "Hi {{firstName}}, I admire {{company}}." |} in
  let st' := handleTemplateSelect (js "Ada Lovelace") (Some (js "Acme"))
               template {| emailSubject := []; emailBody := [] |} in
  emailSubject st' = subject template /\
  exists mid,
    ReplacedAll ph_firstName (split_first (js "Ada Lovelace")) (body template) mid /\
    ReplacedAll ph_company (company_or_default (Some (js "Acme"))) mid
      (emailBody st').
Proof.
  apply (@handleTemplateSelect_prefill (js "Ada Lovelace") (Some (js "Acme")));
    reflexivity.
Defined.

(** C2 as stated fails on the subject: the placeholder stays in the
    prefilled subject field. *)
Lemma handleTemplateSelect_subject_cex :
  let template := {| subject := js "Hello {{firstName}}";
                     body := js "Hi {{firstName}}, I admire {{company}}." |} in
  let st' := handleTemplateSelect (js "Ada Lovelace") (Some (js "Acme"))
               template {| emailSubject := []; emailBody := [] |} in
  emailSubject st' = js "Hello {{firstName}}" /\
  ~ (exists mid,
        ReplacedAll ph_firstName (split_first (js "Ada Lovelace"))
          (subject template) mid /\
        ReplacedAll ph_company (company_or_default (Some (js "Acme"))) mid
          (emailSubject st')).
Proof.
  intros template st'. split; [reflexivity|].
  intros (mid & H1 & H2).
  pose proof (@replace_global_ReplacedAll ph_firstName ph_firstName_nonempty
                (js "Ada") (subject template) eq_refl) as K1.
  pose proof (ReplacedAll_functional H1 K1) as ->.
  pose proof (@replace_global_ReplacedAll ph_company ph_company_nonempty
                (js "Acme") (js "Hello Ada") eq_refl) as K2.
  pose proof (ReplacedAll_functional H2 K2) as E.
  vm_compute in E. discriminate E.
Qed.

End TemplatePrefill.

(** ** The tools *)

Section ToolFacts.
Import Tools.

Lemma existsb_eqb_In (x : jstring) (l : list jstring) :
  existsb (JStr.eqb x) l = true <-> In x l.
Proof.
  rewrite existsb_exists. split.
  - intros (y & Hy & E). destruct (jstring_eqb_spec x y); congruence.
  - intros H. exists x. split; [assumption | apply jstring_eqb_refl].
Qed.

Lemma set_spread_from_In (seen xs : list jstring) (e : jstring) :
  In e (set_spread_from seen xs) <-> In e xs /\ ~ In e seen.
Proof.
  revert seen; induction xs as [|x r IH]; intros seen; simpl; [tauto|].
  destruct (existsb (JStr.eqb x) seen) eqn:Hx.
  - apply existsb_eqb_In in Hx. rewrite IH. split.
    + tauto.
    + intros [[<-|H] Hn]; [contradiction | tauto].
  - assert (Hn : ~ In x seen).
    { intros H. apply existsb_eqb_In in H. congruence. }
    simpl. rewrite IH. simpl. split.
    + intros [<-|[H1 H2]]; [tauto|]. split; [tauto|]. intros H; apply H2; tauto.
    + intros [[<-|H] H2]; [tauto|].
      destruct (jstring_eqb_spec x e) as [->|Hne]; [tauto|].
      right. split; [assumption|]. intros [E|H3]; [congruence | contradiction].
Qed.

Lemma set_spread_from_NoDup (seen xs : list jstring) :
  NoDup (set_spread_from seen xs).
Proof.
  revert seen; induction xs as [|x r IH]; intros seen; simpl; [constructor|].
  destruct (existsb (JStr.eqb x) seen); [apply IH|].
  constructor; [|apply IH].
  rewrite set_spread_from_In. simpl. tauto.
Qed.

Lemma set_spread_In (xs : list jstring) (e : jstring) :
  In e (set_spread xs) <-> In e xs.
Proof. unfold set_spread. rewrite set_spread_from_In. simpl. tauto. Qed.

Lemma set_spread_NoDup (xs : list jstring) : NoDup (set_spread xs).
Proof. apply set_spread_from_NoDup. Qed.

Lemma keep_some_In (f : jstring -> option jstring) (l : list jstring) (e : jstring) :
  In e (keep_some (List.map f l)) <-> exists x, In x l /\ f x = Some e.
Proof.
  induction l as [|x l IH]; simpl.
  - split; [contradiction | intros (x & [] & _)].
  - destruct (f x) as [y|] eqn:Hf; simpl; rewrite IH; split.
    + intros [<-|(z & Hz & Ez)]; [exists x; auto | exists z; auto].
    + intros (z & [<-|Hz] & Ez); [left; congruence | right; exists z; auto].
    + intros (z & Hz & Ez). exists z; auto.
    + intros (z & [<-|Hz] & Ez); [congruence | exists z; auto].
Qed.

Section Verification.

Variable verifyEmail : jstring -> Env -> Outcome jstring.
Variable env : Env.

Lemma check_email_Some (x e : jstring) :
  check_email verifyEmail env x = Some e <->
  x = e /\ verifyEmail e env = Returned (js "valid").
Proof.
  unfold check_email. split.
  - destruct (verifyEmail x env) as [status|] eqn:Hv; [|discriminate].
    destruct (jstring_eqb_spec status (js "valid")) as [->|]; [|discriminate].
    intros [= <-]. auto.
  - intros [-> Hv]. rewrite Hv. reflexivity.
Qed.

Lemma verified_NoDup (l : list jstring) :
  NoDup l -> NoDup (keep_some (List.map (check_email verifyEmail env) l)).
Proof.
  induction 1 as [|x l Hx Hl IH]; simpl; [constructor|].
  destruct (check_email verifyEmail env x) as [y|] eqn:Hc; [|assumption].
  apply check_email_Some in Hc as [<- _].
  constructor; [|assumption].
  rewrite keep_some_In. intros (z & Hz & Ez).
  apply check_email_Some in Ez as [-> _]. contradiction.
Qed.

End Verification.

Lemma firstn_NoDup (A : Type) (n : nat) (l : list A) :
  NoDup l -> NoDup (firstn n l).
Proof.
  intros H. rewrite <- (firstn_skipn n l) in H.
  now apply NoDup_app_remove_r in H.
Qed.

Lemma firstn_In_inv (A : Type) (n : nat) (l : list A) (x : A) :
  In x (firstn n l) -> In x l.
Proof.
  intros H. rewrite <- (firstn_skipn n l). apply in_or_app. now left.
Qed.

Lemma key_set_true (k : option jstring) :
  key_set k = true <-> exists c r, k = Some (c :: r).
Proof.
  destruct k as [[|c r]|]; simpl; split; try discriminate;
    try (intros (c' & r' & E); discriminate).
  - intros _. now exists c, r.
  - reflexivity.
Qed.

End ToolFacts.

Section EmailFinderTool.
Import Tools.

(** C1. Once the API keys are present, a call of the [emailFinder] tool
    never throws. When the extraction by the model fails, it returns an
    empty [emails] array. When the extraction succeeds, [emails] holds at
    most three addresses, without repetition, each one taken from the
    extracted candidates and classified ["valid"] by [verifyEmail]; and the
    addresses handed to [verifyEmail] are the extracted candidates with the
    duplicates removed. *)
Theorem emailFinder_emails_verified
    (exa : ExaClient)
    (generateObject : EmailPrompt -> Outcome EmailExtraction)
    (verifyEmail : jstring -> Env -> Outcome jstring)
    (env : Env) (i : EmailFinderInput) (key : jstring) :
  EXA_API_KEY env = Some key -> key <> [] ->
  key_set (OPENAI_API_KEY env) = true ->
  let r := emailFinder_execute exa generateObject verifyEmail env i in
  match generateObject (emailFinder_prompt exa key i) with
  | Threw _ =>
      exists out, fst r = Returned out /\ out_emails out = []
  | Returned extracted =>
      exists out,
        fst r = Returned out /\
        length (out_emails out) <= 3 /\
        NoDup (out_emails out) /\
        (forall e, In e (out_emails out) ->
           In e (ex_emails extracted) /\
           verifyEmail e env = Returned (js "valid")) /\
        NoDup (verify_calls (snd r)) /\
        (forall e, In e (verify_calls (snd r)) <-> In e (ex_emails extracted))
  end.
Proof.
  intros Hkey Hne Hopen r. subst r. unfold emailFinder_execute.
  rewrite Hkey. destruct key as [|c k]; [contradiction|].
  apply key_set_true in Hopen as (c' & k' & ->).
  destruct (generateObject (emailFinder_prompt exa (c :: k) i)) as [ex|msg].
  - eexists; split; [reflexivity|]. cbn [fst snd out_emails verify_calls].
    split; [apply firstn_le_length|].
    split; [apply firstn_NoDup, verified_NoDup, set_spread_NoDup|].
    split; [|split; [apply set_spread_NoDup | intros e; apply set_spread_In]].
    intros e He. apply firstn_In_inv in He.
    apply keep_some_In in He as (x & Hx & Hc).
    apply check_email_Some in Hc as [-> Hv].
    split; [now apply set_spread_In | assumption].
  - eexists; split; reflexivity.
Qed.

Definition sample_env : Env :=
  {| EXA_API_KEY := Some (js "exa-key"); OPENAI_API_KEY := Some (js "sk-key") |}.

Definition sample_input : EmailFinderInput :=
  {| in_name := js "Tobi Lutke"; in_domain := js "shopify.com";
     in_company := Some (js "Shopify") |}.

Definition sample_exa : ExaClient :=
  fun _ _ o =>
    Returned {| results := Some (firstn (numResults o)
      [ {| title := Some (js "Team"); url := js "https://a.example"; text := js "one" |};
        {| title := None; url := js "https://b.example"; text := js "two" |};
        {| title := Some []; url := js "https://c.example"; text := js "three" |};
        {| title := Some (js "More"); url := js "https://d.example"; text := js "four" |} ]) |}.

Definition sample_generateObject (_ : EmailPrompt) : Outcome EmailExtraction :=
  Returned {| ex_emails := [js "tobi@shopify.com"; js "t.lutke@shopify.com";
                            js "tobi@shopify.com"; js "tl@shopify.com";
                            js "lutke@shopify.com"; js "tobias@shopify.com"];
              ex_employee_title := js "CEO" |}.

Definition sample_verifyEmail (e : jstring) (_ : Env) : Outcome jstring :=
  if JStr.eqb e (js "t.lutke@shopify.com") then Returned (js "invalid")
  else if JStr.eqb e (js "tl@shopify.com") then Threw (js "timeout")
  else Returned (js "valid").

Example emailFinder_sample_run :
  fst (emailFinder_execute sample_exa sample_generateObject sample_verifyEmail
         sample_env sample_input)
  = Returned {| out_name := Some (js "Tobi Lutke");
                out_company := Some (js "Shopify");
                out_domain := Some (js "shopify.com");
                out_employee_title := js "CEO";
                out_emails := [js "tobi@shopify.com"; js "lutke@shopify.com";
                               js "tobias@shopify.com"];
                out_verification_summary := js "3 valid out of 5 candidates" |}.
Proof. vm_compute. reflexivity. Qed.

Lemma emailFinder_emails_verified_witness :
  let r := emailFinder_execute sample_exa sample_generateObject
             sample_verifyEmail sample_env sample_input in
  match sample_generateObject
          (emailFinder_prompt sample_exa (js "exa-key") sample_input) with
  | Threw _ =>
      exists out, fst r = Returned out /\ out_emails out = []
  | Returned extracted =>
      exists out,
        fst r = Returned out /\
        length (out_emails out) <= 3 /\
        NoDup (out_emails out) /\
        (forall e, In e (out_emails out) ->
           In e (ex_emails extracted) /\
           sample_verifyEmail e sample_env = Returned (js "valid")) /\
        NoDup (verify_calls (snd r)) /\
        (forall e, In e (verify_calls (snd r)) <-> In e (ex_emails extracted))
  end.
Proof.
  apply (@emailFinder_emails_verified sample_exa sample_generateObject
           sample_verifyEmail sample_env sample_input (js "exa-key")).
  - reflexivity.
  - discriminate.
  - reflexivity.
Defined.

End EmailFinderTool.

Section SearchWebTool.
Import Tools.

Variable exa : ExaClient.

Lemma title_or_default_nonempty (t : option jstring) : title_or_default t <> [].
Proof. destruct t as [[|c r]|]; discriminate. Qed.

(** C7 (amended). [searchWeb] throws exactly when [EXA_API_KEY] is not set.
    Otherwise it makes one Exa search for the query, asking for three
    results, and returns one entry per result of that search, in order and
    as many as Exa sends: each with the title of the result (["No title"]
    when it has none), its url and its text as content. When the Exa call
    throws, the tool logs the error and returns an empty list of results. *)
Theorem searchWeb_contract (env : Env) (query : jstring) :
  let r := searchWeb_execute exa env query in
  ((exists m, fst r = Threw m) <-> key_set (EXA_API_KEY env) = false) /\
  numResults searchWeb_options = 3 /\
  (forall out, fst r = Returned out ->
     Forall (fun e => entry_title e <> []) (search_results out)) /\
  (forall key resp rs,
     EXA_API_KEY env = Some key -> key <> [] ->
     exa key query searchWeb_options = Returned resp ->
     results resp = Some rs ->
     r = (Returned {| search_results :=
                        List.map (fun x => {| entry_title := title_or_default (title x);
                                              entry_url := url x;
                                              entry_content := text x |}) rs |},
          no_effects) /\
     (forall out, fst r = Returned out -> length (search_results out) = length rs)) /\
  (forall key m,
     EXA_API_KEY env = Some key -> key <> [] ->
     exa key query searchWeb_options = Threw m ->
     r = (Returned {| search_results := [] |}, logged (js "Search failed:"))).
Proof.
  intros r. subst r. unfold searchWeb_execute. split; [|split; [reflexivity|]].
  { destruct (EXA_API_KEY env) as [[|c k]|]; cbn [key_set fst].
    - split; [reflexivity | eauto].
    - destruct (exa (c :: k) query searchWeb_options) as [resp|m];
        [destruct (results resp)|]; cbn [fst];
        (split; [intros [m' H]; discriminate | discriminate]).
    - split; [reflexivity | eauto]. }
  destruct (EXA_API_KEY env) as [[|c k]|] eqn:Hk.
  - split; [discriminate|]. split; intros; congruence.
  - destruct (exa (c :: k) query searchWeb_options) as [resp|m] eqn:He.
    + destruct (results resp) as [rs|] eqn:Hr; cbn [fst].
      * split; [|split; [|intros; congruence]].
        -- intros out [= <-]. cbn [search_results].
           apply Forall_map, Forall_forall. intros x _.
           apply title_or_default_nonempty.
        -- intros key resp0 rs0 [= <-] _ He' Hr'.
           rewrite He in He'. injection He' as <-.
           rewrite Hr in Hr'. injection Hr' as <-. split; [reflexivity|].
           intros out [= <-]. cbn [search_results]. apply length_map.
      * split; [intros out [= <-]; constructor|].
        split; intros; congruence.
    + cbn [fst]. split; [intros out [= <-]; constructor|].
      split; intros; congruence.
  - split; [discriminate|]. split; intros; congruence.
Qed.

End SearchWebTool.

Section SearchWebExamples.
Import Tools.

Example searchWeb_sample_run :
  searchWeb_execute sample_exa sample_env (js "Stripe headquarters")
  = (Returned {| search_results :=
       [ {| entry_title := js "Team"; entry_url := js "https://a.example";
            entry_content := js "one" |};
         {| entry_title := js "No title"; entry_url := js "https://b.example";
            entry_content := js "two" |};
         {| entry_title := js "No title"; entry_url := js "https://c.example";
            entry_content := js "three" |} ] |}, no_effects).
Proof. vm_compute. reflexivity. Qed.

(** An Exa service that answers with five results, whatever [numResults]
    asks for. *)
Definition generous_exa : ExaClient :=
  fun _ _ _ =>
    Returned {| results := Some
      [ {| title := Some (js "One"); url := js "https://1.example"; text := js "a" |};
        {| title := Some (js "Two"); url := js "https://2.example"; text := js "b" |};
        {| title := None; url := js "https://3.example"; text := js "c" |};
        {| title := Some (js "Four"); url := js "https://4.example"; text := js "d" |};
        {| title := Some (js "Five"); url := js "https://5.example"; text := js "e" |} ] |}.

(** C7 as stated fails: the tool asks Exa for three results and maps what
    it receives without cutting it, so five results of the service are five
    entries of the tool. *)
Lemma searchWeb_five_results_cex :
  exists out,
    fst (searchWeb_execute generous_exa sample_env (js "Stripe headquarters"))
    = Returned out /\
    length (search_results out) = 5 /\ ~ length (search_results out) <= 3.
Proof.
  eexists. split; [reflexivity|]. split; [reflexivity|]. cbn. lia.
Qed.

End SearchWebExamples.

(** ** The template routes *)

Section TemplateRoutes.
Import Templates.

Lemma selected_true (tid : jstring) (u : User) (r : TemplateRow) :
  selected tid u r = true <-> id r = tid /\ userId r = user_id u.
Proof.
  unfold selected, owned_by. rewrite andb_true_iff.
  destruct (jstring_eqb_spec (id r) tid), (jstring_eqb_spec (userId r) (user_id u));
    split; intros []; try discriminate; auto; contradiction.
Qed.

Lemma filter_none (A : Type) (p : A -> bool) (l : list A) :
  (forall x, In x l -> p x = false) -> filter p l = [].
Proof.
  induction l as [|x l IH]; intros H; simpl; [reflexivity|].
  rewrite (H x (or_introl eq_refl)). apply IH. intros y Hy. apply H. now right.
Qed.

Lemma filter_all (A : Type) (p : A -> bool) (l : list A) :
  (forall x, In x l -> p x = true) -> filter p l = l.
Proof.
  induction l as [|x l IH]; intros H; simpl; [reflexivity|].
  rewrite (H x (or_introl eq_refl)). f_equal. apply IH. intros y Hy. apply H. now right.
Qed.

Lemma map_if_none (A : Type) (p : A -> bool) (f : A -> A) (l : list A) :
  (forall x, In x l -> p x = false) ->
  List.map (fun r => if p r then f r else r) l = l.
Proof.
  induction l as [|x l IH]; intros H; simpl; [reflexivity|].
  rewrite (H x (or_introl eq_refl)). f_equal. apply IH. intros y Hy. apply H. now right.
Qed.

(** C6. Without an authenticated user the four template routes answer 401
    ["Unauthorized"] and leave the table as it is. With a user, an update
    changes a row, and a delete removes a row, only when the row has the
    requested id and belongs to that user; every other row stays in the table
    unchanged. When no row with the requested id belongs to the user (the id
    is unknown or names a template of somebody else), update and delete
    answer 404 ["Template not found"] and the table is unchanged. *)
Theorem templates_user_owned :
  (forall session db, session_user session = None ->
     list_handle session db = (unauthorized, db) /\
     (forall b uuid now1 now2,
        create_handle session b uuid now1 now2 db = (unauthorized, db)) /\
     (forall tid b now, update_handle session tid b now db = (unauthorized, db)) /\
     (forall tid, delete_handle session tid db = (unauthorized, db))) /\
  (forall session u tid b now db, session_user session = Some u ->
     Forall2 (fun r r' =>
                r' = r \/
                (id r = tid /\ userId r = user_id u /\ r' = apply_update b now r))
       db (snd (update_handle session tid b now db))) /\
  (forall session u tid db, session_user session = Some u ->
     let db' := snd (delete_handle session tid db) in
     (forall r, In r db' -> In r db) /\
     (forall r, In r db -> In r db' \/ (id r = tid /\ userId r = user_id u))) /\
  (forall session u tid db, session_user session = Some u ->
     (forall r, In r db -> id r = tid -> userId r <> user_id u) ->
     (forall b now, update_handle session tid b now db = (not_found, db)) /\
     delete_handle session tid db = (not_found, db)).
Proof.
  split; [|split; [|split]].
  - intros session db Hs.
    unfold list_handle, create_handle, update_handle, delete_handle.
    rewrite Hs. repeat split.
  - intros session u tid b now db Hs. unfold update_handle. rewrite Hs.
    assert (H : Forall2 (fun r r' =>
                r' = r \/
                (id r = tid /\ userId r = user_id u /\ r' = apply_update b now r))
              db (snd (update_where (selected tid u) (apply_update b now) db))).
    { simpl. induction db as [|r db IH]; simpl; constructor; [|exact IH].
      destruct (selected tid u r) eqn:Hsel; [|now left].
      apply selected_true in Hsel as [H1 H2]. right; auto. }
    destruct (update_where (selected tid u) (apply_update b now) db) as [result db'].
    destruct result; exact H.
  - intros session u tid db Hs db'. subst db'. unfold delete_handle. rewrite Hs.
    assert (H : (forall r, In r (snd (delete_where (selected tid u) db)) -> In r db) /\
                (forall r, In r db ->
                   In r (snd (delete_where (selected tid u) db)) \/
                   (id r = tid /\ userId r = user_id u))).
    { simpl. split; intros r Hr.
      - apply filter_In in Hr. tauto.
      - destruct (selected tid u r) eqn:Hsel.
        + right. now apply selected_true.
        + left. apply filter_In. rewrite Hsel. auto. }
    destruct (delete_where (selected tid u) db) as [result db'].
    destruct result; exact H.
  - intros session u tid db Hs Hother.
    assert (Hnone : forall r, In r db -> selected tid u r = false).
    { intros r Hr. destruct (selected tid u r) eqn:Hsel; [|reflexivity].
      apply selected_true in Hsel as [H1 H2]. exfalso. now apply (Hother r). }
    unfold update_handle, delete_handle, update_where, delete_where.
    rewrite Hs, (filter_none _ _ Hnone). split.
    + intros b now. simpl. now rewrite (map_if_none _ _ _ Hnone).
    + rewrite filter_all; [reflexivity|].
      intros x Hx. now rewrite (Hnone x Hx).
Qed.

Definition alice : User := {| user_id := js "alice" |}.
Definition bob : User := {| user_id := js "bob" |}.

Definition sample_templates : Table :=
  [ {| id := js "t1"; userId := js "alice"; name := js "Intro";
       subject := js "Hello"; body := js "Hi {{firstName}}";
       createdAt := 10; updatedAt := 10 |};
    {| id := js "t2"; userId := js "bob"; name := js "Follow up";
       subject := js "Again"; body := js "Hi again";
       createdAt := 20; updatedAt := 20 |} ].

Example update_of_foreign_template :
  update_handle (Some {| user := Some alice |}) (js "t2")
    {| upd_name := Some (js "Mine now"); upd_subject := None; upd_body := None |}
    30 sample_templates
  = (not_found, sample_templates).
Proof. vm_compute. reflexivity. Qed.

Example delete_of_own_template :
  delete_handle (Some {| user := Some bob |}) (js "t2") sample_templates
  = (ok SuccessOnly, firstn 1 sample_templates).
Proof. vm_compute. reflexivity. Qed.

End TemplateRoutes.

(** ** Saving companies and employees *)

Section UpsertFacts.
Import Values Db Upsert.

(** A stored text is kept, or replaced by a non-empty text. *)
Definition text_kept (old new : option jstring) : Prop :=
  new = old \/ exists v, new = Some v /\ v <> [].

Definition company_kept (r r' : CompanyProfiles.row) : Prop :=
  CompanyProfiles.id r' = CompanyProfiles.id r /\
  CompanyProfiles.companyName r' = CompanyProfiles.companyName r /\
  CompanyProfiles.createdAt r' = CompanyProfiles.createdAt r /\
  text_kept (CompanyProfiles.website r) (CompanyProfiles.website r') /\
  text_kept (CompanyProfiles.description r) (CompanyProfiles.description r') /\
  text_kept (CompanyProfiles.techStack r) (CompanyProfiles.techStack r') /\
  text_kept (CompanyProfiles.industry r) (CompanyProfiles.industry r') /\
  text_kept (CompanyProfiles.headquarters r) (CompanyProfiles.headquarters r') /\
  text_kept (CompanyProfiles.revenue r) (CompanyProfiles.revenue r') /\
  text_kept (CompanyProfiles.funding r) (CompanyProfiles.funding r').

Definition employee_kept (r r' : Employees.row) : Prop :=
  Employees.id r' = Employees.id r /\
  Employees.employeeName r' = Employees.employeeName r /\
  Employees.companyId r' = Employees.companyId r /\
  Employees.createdAt r' = Employees.createdAt r /\
  text_kept (Employees.employeeTitle r) (Employees.employeeTitle r') /\
  text_kept (Employees.email r) (Employees.email r').

Lemma text_kept_refl (a : option jstring) : text_kept a a.
Proof. now left. Qed.

Lemma text_kept_trans (a b c : option jstring) :
  text_kept a b -> text_kept b c -> text_kept a c.
Proof. intros [->|H] [->|H']; unfold text_kept; auto. Qed.

Lemma company_kept_refl (r : CompanyProfiles.row) : company_kept r r.
Proof.
  unfold company_kept.
  repeat split; first [reflexivity | apply text_kept_refl].
Qed.

Lemma employee_kept_refl (r : Employees.row) : employee_kept r r.
Proof.
  unfold employee_kept. repeat split; first [reflexivity | apply text_kept_refl].
Qed.

(** A text that survives [trim] and the test against the empty string. *)
Lemma trimmed_or_null_nonempty (v : Value) (t : jstring) :
  trimmed_or_null v = Returned (Some t) -> t <> [].
Proof.
  unfold trimmed_or_null.
  destruct v; try discriminate; simpl;
    destruct (trim s); intros [= <-]; discriminate.
Qed.

Lemma text_entry_nonempty (v : Value) (t : jstring) :
  text_entry v = Returned (Set_ t) -> t <> [].
Proof.
  unfold text_entry. destruct v; try discriminate;
    destruct (trimmed_or_null _) as [[x|]|] eqn:E; try discriminate;
    intros [= <-]; eapply trimmed_or_null_nonempty; eassumption.
Qed.

Lemma nonblank_true (v : Value) :
  nonblank v = Returned true -> exists s, v = JStr s /\ trim s <> [].
Proof.
  unfold nonblank. destruct (truthy v); [|discriminate].
  destruct v; simpl; try discriminate.
  destruct (jstring_eqb_spec (trim s) []); simpl; [discriminate|].
  intros _. now exists s.
Qed.

Lemma trimmed_if_nonblank_nonempty (v : Value) (t : jstring) :
  trimmed_if_nonblank v = Returned (Some t) -> t <> [].
Proof.
  unfold trimmed_if_nonblank.
  destruct (nonblank v) as [[|]|] eqn:E; try discriminate.
  apply nonblank_true in E as (s & -> & Hs). simpl. now intros [= <-].
Qed.

Lemma assign_text_kept (e : Entry jstring) (old : option jstring) :
  (forall t, e = Set_ t -> t <> []) -> text_kept old (assign e old).
Proof.
  intros H. destruct e as [| |t]; simpl; try (now left).
  right. exists t. split; [reflexivity | now apply H].
Qed.

(** The entries of [updateData] that hold a text hold a non-empty one. *)
Definition clean_update (u : UpdateData) : Prop :=
  (forall t, u_website u = Set_ t -> t <> []) /\
  (forall t, u_description u = Set_ t -> t <> []) /\
  (forall t, u_techStack u = Set_ t -> t <> []) /\
  (forall t, u_industry u = Set_ t -> t <> []) /\
  (forall t, u_headquarters u = Set_ t -> t <> []) /\
  (forall t, u_revenue u = Set_ t -> t <> []) /\
  (forall t, u_funding u = Set_ t -> t <> []).

Lemma build_updateData_clean (site : option jstring)
    (additionalData : option AdditionalData) (u : UpdateData) :
  (forall w, site = Some w -> w <> []) ->
  build_updateData site additionalData = Returned u -> clean_update u.
Proof.
  intros Hs. unfold build_updateData.
  assert (Hw : forall t, match site with Some s => Set_ s | None => Absent end
                         = Set_ t -> t <> []).
  { destruct site as [w|]; [|discriminate]. intros t [= <-]. now apply Hs. }
  destruct additionalData as [a|].
  - destruct (text_entry (ad_description a)) eqn:E1; [|discriminate].
    destruct (text_entry (ad_techStack a)) eqn:E2; [|discriminate].
    destruct (text_entry (ad_industry a)) eqn:E3; [|discriminate].
    destruct (text_entry (ad_headquarters a)) eqn:E4; [|discriminate].
    destruct (text_entry (ad_revenue a)) eqn:E5; [|discriminate].
    destruct (text_entry (ad_funding a)) eqn:E6; [|discriminate].
    intros [= <-]. unfold clean_update; cbn.
    repeat split; try assumption; intros t ->;
      eapply text_entry_nonempty; eassumption.
  - intros [= <-]. unfold clean_update; cbn.
    repeat split; try assumption; discriminate.
Qed.

Lemma apply_company_update_kept (u : UpdateData) (r : CompanyProfiles.row) :
  clean_update u -> company_kept r (apply_company_update u r).
Proof.
  intros (H1 & H2 & H3 & H4 & H5 & H6 & H7). unfold company_kept; cbn.
  repeat split; now apply assign_text_kept.
Qed.

Lemma apply_employee_update_kept (title mail : option jstring) (r : Employees.row) :
  (forall t, title = Some t -> t <> []) -> (forall t, mail = Some t -> t <> []) ->
  employee_kept r (apply_employee_update title mail r).
Proof.
  intros Ht Hm. unfold employee_kept; cbn. repeat split.
  - destruct title as [t|]; [right; exists t; auto | now left].
  - destruct mail as [t|]; [right; exists t; auto | now left].
Qed.

End UpsertFacts.

Section DbMonadFacts.
Import Values Db Upsert.
Local Open Scope db_scope.

(** What a run may do to the tables: rows of [company_profiles] and
    [employees] are kept with their id, name and texts in the sense above
    (the numbers of a company are left open), rows may be added at the end,
    and the [companies] table is untouched. *)
Definition frame (t t' : Tables) : Prop :=
  (exists rows added,
     company_profiles t' = rows ++ added /\
     Forall2 company_kept (company_profiles t) rows) /\
  (exists rows added,
     employees t' = rows ++ added /\
     Forall2 employee_kept (employees t) rows) /\
  companies t' = companies t.

Lemma Forall2_refl_on (A : Type) (R : A -> A -> Prop) (l : list A) :
  (forall x, R x x) -> Forall2 R l l.
Proof. intros H. induction l; constructor; auto. Qed.

Lemma Forall2_trans_on (A : Type) (R : A -> A -> Prop) :
  (forall x y z, R x y -> R y z -> R x z) ->
  forall l1 l2 l3, Forall2 R l1 l2 -> Forall2 R l2 l3 -> Forall2 R l1 l3.
Proof.
  intros HR l1 l2 l3 H12. revert l3.
  induction H12; intros l3 H23; inversion H23; subst; constructor; eauto.
Qed.

Lemma company_kept_trans (a b c : CompanyProfiles.row) :
  company_kept a b -> company_kept b c -> company_kept a c.
Proof.
  unfold company_kept. intros H1 H2.
  repeat match goal with H : _ /\ _ |- _ => destruct H end.
  repeat split; try congruence; eapply text_kept_trans; eassumption.
Qed.

Lemma employee_kept_trans (a b c : Employees.row) :
  employee_kept a b -> employee_kept b c -> employee_kept a c.
Proof.
  unfold employee_kept. intros H1 H2.
  repeat match goal with H : _ /\ _ |- _ => destruct H end.
  repeat split; try congruence; eapply text_kept_trans; eassumption.
Qed.

Lemma frame_refl (t : Tables) : frame t t.
Proof.
  repeat split.
  - exists (company_profiles t), []. rewrite app_nil_r. split; [reflexivity|].
    apply Forall2_refl_on, company_kept_refl.
  - exists (employees t), []. rewrite app_nil_r. split; [reflexivity|].
    apply Forall2_refl_on, employee_kept_refl.
Qed.

Lemma kept_rows_trans (A : Type) (R : A -> A -> Prop) (l0 l1 l2 : list A) :
  (forall x y z, R x y -> R y z -> R x z) ->
  (exists rows added, l1 = rows ++ added /\ Forall2 R l0 rows) ->
  (exists rows added, l2 = rows ++ added /\ Forall2 R l1 rows) ->
  exists rows added, l2 = rows ++ added /\ Forall2 R l0 rows.
Proof.
  intros HR (r1 & a1 & -> & H1) (r2 & a2 & -> & H2).
  apply Forall2_app_inv_l in H2 as (r2a & r2b & H2a & H2b & ->).
  exists r2a, (r2b ++ a2). rewrite <- app_assoc. split; [reflexivity|].
  eapply Forall2_trans_on; eassumption.
Qed.

Lemma frame_trans (t0 t1 t2 : Tables) : frame t0 t1 -> frame t1 t2 -> frame t0 t2.
Proof.
  intros (Hc1 & He1 & Hl1) (Hc2 & He2 & Hl2). repeat split.
  - eapply kept_rows_trans; eauto using company_kept_trans.
  - eapply kept_rows_trans; eauto using employee_kept_trans.
  - congruence.
Qed.

(** Runs that keep a relation between the tables before and after,
    whatever they return. *)
Section Preserving.

Variable R : Tables -> Tables -> Prop.
Hypothesis R_refl : forall t, R t t.
Hypothesis R_trans : forall t0 t1 t2, R t0 t1 -> R t1 t2 -> R t0 t2.

Definition preserving {A : Type} (c : M A) : Prop :=
  forall d o d', c d = (o, d') -> R (tables d) (tables d').

Lemma preserving_ret (A : Type) (a : A) : preserving (ret a).
Proof. intros d o d' [= _ <-]. apply R_refl. Qed.

Lemma preserving_throw (A : Type) (m : jstring) : preserving (@throw A m).
Proof. intros d o d' [= _ <-]. apply R_refl. Qed.

Lemma preserving_bind (A B : Type) (c : M A) (k : A -> M B) :
  preserving c -> (forall a, preserving (k a)) -> preserving (bind c k).
Proof.
  intros Hc Hk d o d'. unfold bind.
  destruct (c d) as [[a|m] d1] eqn:E.
  - intros H. eapply R_trans; [eapply Hc; eassumption | eapply Hk; eassumption].
  - intros [= _ <-]. eapply Hc; eassumption.
Qed.

Lemma preserving_bind_lift (A B : Type) (o : Outcome A) (k : A -> M B) :
  (forall a, o = Returned a -> preserving (k a)) -> preserving (bind (lift o) k).
Proof.
  intros Hk d r d'. unfold bind, lift. destruct o as [a|m]; simpl.
  - apply Hk. reflexivity.
  - intros [= _ <-]. apply R_refl.
Qed.

Lemma preserving_stmt (A : Type) (f : Tables -> A * Tables) :
  (forall t, R t (snd (f t))) -> preserving (stmt f).
Proof.
  intros Hf d o d'. unfold stmt. specialize (Hf (tables d)).
  destruct (failures d) as [|[|] rest]; destruct (f (tables d)) as [a t];
    intros [= _ <-]; simpl in *; first [assumption | apply R_refl].
Qed.

Lemma preserving_checked_stmt (A : Type) (check : Tables -> bool)
    (f : Tables -> A * Tables) :
  (forall t, R t (snd (f t))) -> preserving (checked_stmt check f).
Proof.
  intros Hf d o d'. unfold checked_stmt. specialize (Hf (tables d)).
  destruct (failures d) as [|[|] rest]; destruct (check (tables d));
    destruct (f (tables d)) as [a t];
    intros [= _ <-]; simpl in *; first [assumption | apply R_refl].
Qed.

End Preserving.

Definition preserves {A : Type} (c : M A) : Prop := preserving frame c.

Lemma preserves_ret (A : Type) (a : A) : preserves (ret a).
Proof. apply preserving_ret, frame_refl. Qed.

Lemma preserves_throw (A : Type) (m : jstring) : preserves (@throw A m).
Proof. apply preserving_throw, frame_refl. Qed.

Lemma preserves_bind (A B : Type) (c : M A) (k : A -> M B) :
  preserves c -> (forall a, preserves (k a)) -> preserves (bind c k).
Proof. apply preserving_bind, frame_trans. Qed.

Lemma preserves_bind_lift (A B : Type) (o : Outcome A) (k : A -> M B) :
  (forall a, o = Returned a -> preserves (k a)) -> preserves (bind (lift o) k).
Proof. apply preserving_bind_lift, frame_refl. Qed.

Lemma preserves_stmt (A : Type) (f : Tables -> A * Tables) :
  (forall t, frame t (snd (f t))) -> preserves (stmt f).
Proof. apply preserving_stmt, frame_refl. Qed.

Lemma preserves_checked_stmt (A : Type) (check : Tables -> bool)
    (f : Tables -> A * Tables) :
  (forall t, frame t (snd (f t))) -> preserves (checked_stmt check f).
Proof. apply preserving_checked_stmt, frame_refl. Qed.

End DbMonadFacts.

Section UpsertFrame.
Import Values Db Upsert.
Local Open Scope db_scope.

Lemma Forall2_map_if (A : Type) (R : A -> A -> Prop) (p : A -> bool)
    (f : A -> A) (l : list A) :
  (forall x, R x x) -> (forall x, R x (f x)) ->
  Forall2 R l (List.map (fun r => if p r then f r else r) l).
Proof.
  intros Hr Hf. induction l as [|x l IH]; simpl; constructor; [|exact IH].
  destruct (p x); auto.
Qed.

Lemma frame_update_company (rid : Z) (u : UpdateData) (t : Tables) :
  clean_update u -> frame t (snd (update_company rid u t)).
Proof.
  intros Hu. destruct (frame_refl t) as (_ & He & Hl). repeat split; auto.
  simpl. eexists _, []. rewrite app_nil_r. split; [reflexivity|].
  apply Forall2_map_if; [apply company_kept_refl|].
  intros x. now apply apply_company_update_kept.
Qed.

Lemma frame_insert_company (mk : Z -> option jstring -> CompanyProfiles.row)
    (t : Tables) : frame t (snd (insert_company mk t)).
Proof.
  destruct (frame_refl t) as (_ & He & Hl). repeat split; auto.
  simpl. eexists _, _. split; [reflexivity|].
  apply Forall2_refl_on, company_kept_refl.
Qed.

Lemma frame_update_employee (rid : Z) (title mail : option jstring) (t : Tables) :
  (forall x, title = Some x -> x <> []) -> (forall x, mail = Some x -> x <> []) ->
  frame t (snd (update_employee rid title mail t)).
Proof.
  intros Ht Hm. destruct (frame_refl t) as (Hc & _ & Hl). repeat split; auto.
  simpl. eexists _, []. rewrite app_nil_r. split; [reflexivity|].
  apply Forall2_map_if; [apply employee_kept_refl|].
  intros x. now apply apply_employee_update_kept.
Qed.

Lemma frame_insert_employee (n : jstring) (title mail : option jstring) (cid : Z)
    (t : Tables) : frame t (snd (insert_employee n title mail cid t)).
Proof.
  destruct (frame_refl t) as (Hc & _ & Hl). repeat split; auto.
  simpl. eexists _, _. split; [reflexivity|].
  apply Forall2_refl_on, employee_kept_refl.
Qed.

Lemma upsertCompany_preserves (companyName website : Value)
    (additionalData : option AdditionalData) :
  preserves (upsertCompany companyName website additionalData).
Proof.
  unfold upsertCompany.
  apply preserves_bind_lift; intros named _.
  destruct (negb named); [apply preserves_throw|].
  apply preserves_bind_lift; intros normalizedName _.
  apply preserves_bind_lift; intros site Hsite.
  apply preserves_bind; [apply preserves_stmt; intros t; apply frame_refl|].
  intros existing.
  apply preserves_bind_lift; intros u Hu.
  assert (Hclean : clean_update u).
  { eapply build_updateData_clean; [|exact Hu].
    intros w ->. eapply trimmed_if_nonblank_nonempty; eassumption. }
  destruct existing as [row|].
  - apply preserves_bind; [|intros; apply preserves_ret].
    destruct (has_fields u); [|apply preserves_ret].
    apply preserves_stmt. intros t. now apply frame_update_company.
  - apply preserves_bind_lift; intros inserted_site _.
    apply preserves_stmt. intros t. apply frame_insert_company.
Qed.

Lemma upsertEmployee_preserves (companyId : Z)
    (employeeName employeeTitle email : Value) :
  preserves (upsertEmployee companyId employeeName employeeTitle email).
Proof.
  unfold upsertEmployee.
  apply preserves_bind_lift; intros named _.
  destruct (negb named); [apply preserves_throw|].
  apply preserves_bind_lift; intros normalizedName _.
  apply preserves_bind; [apply preserves_stmt; intros t; apply frame_refl|].
  intros [row|].
  - apply preserves_bind_lift; intros title Ht.
    apply preserves_bind_lift; intros mail Hm.
    apply preserves_bind; [|intros; apply preserves_ret].
    assert (Hu : preserves (stmt (update_employee (Employees.id row) title mail))).
    { apply preserves_stmt. intros t. apply frame_update_employee.
      - intros x ->. eapply trimmed_if_nonblank_nonempty; eassumption.
      - intros x ->. eapply trimmed_if_nonblank_nonempty; eassumption. }
    destruct title, mail; first [exact Hu | apply preserves_ret].
  - apply preserves_bind_lift; intros title _.
    apply preserves_bind_lift; intros mail _.
    apply preserves_checked_stmt. intros t. apply frame_insert_employee.
Qed.

End UpsertFrame.

(** Stepping through a run. *)

Import Values Db Upsert.

Lemma bind_lift_run (A B : Type) (o : Outcome A) (k : A -> M B) (d : D1) :
  bind (lift o) k d
  = match o with Returned a => k a d | Threw m => (Threw m, d) end.
Proof. destruct o; reflexivity. Qed.

Lemma bind_run (A B : Type) (c : M A) (k : A -> M B) (d : D1) :
  bind c k d
  = match c d with
    | (Returned a, d') => k a d'
    | (Threw m, d') => (Threw m, d')
    end.
Proof. reflexivity. Qed.

Lemma stmt_healthy (A : Type) (f : Tables -> A * Tables) (d : D1) :
  failures d = [] ->
  stmt f d = (Returned (fst (f (tables d))),
              {| tables := snd (f (tables d)); failures := [] |}).
Proof. intros H. unfold stmt. rewrite H. now destruct (f (tables d)). Qed.

Lemma stmt_cases (A : Type) (f : Tables -> A * Tables) (d : D1) :
  exists rest,
    stmt f d = (Threw d1_error, {| tables := tables d; failures := rest |}) \/
    stmt f d = (Returned (fst (f (tables d))),
                {| tables := snd (f (tables d)); failures := rest |}).
Proof.
  unfold stmt. destruct (failures d) as [|[|] rest]; destruct (f (tables d));
    eexists; eauto.
Qed.

Lemma checked_stmt_healthy (A : Type) (check : Tables -> bool)
    (f : Tables -> A * Tables) (d : D1) :
  failures d = [] -> check (tables d) = true ->
  checked_stmt check f d = (Returned (fst (f (tables d))),
                            {| tables := snd (f (tables d)); failures := [] |}).
Proof.
  intros H Hc. unfold checked_stmt. rewrite H, Hc. now destruct (f (tables d)).
Qed.

Lemma checked_stmt_cases (A : Type) (check : Tables -> bool)
    (f : Tables -> A * Tables) (d : D1) :
  exists rest,
    checked_stmt check f d
    = (Threw d1_error, {| tables := tables d; failures := rest |}) \/
    check (tables d) = true /\
    checked_stmt check f d = (Returned (fst (f (tables d))),
                              {| tables := snd (f (tables d)); failures := rest |}).
Proof.
  unfold checked_stmt.
  destruct (failures d) as [|[|] rest]; destruct (check (tables d));
    destruct (f (tables d)); eexists; eauto.
Qed.

Lemma references_company_true (cid : Z) (t : Tables) :
  references_company cid t = true <->
  exists c, In c (company_profiles t) /\ CompanyProfiles.id c = cid.
Proof.
  unfold references_company. rewrite existsb_exists.
  split; intros (c & Hc & E); exists c; (split; [exact Hc|]);
    now apply Z.eqb_eq.
Qed.

Ltac step_lift :=
  match goal with
  | |- context [bind (lift ?o) ?k ?d] => rewrite (@bind_lift_run _ _ o k d)
  end.

Ltac step_bind :=
  match goal with
  | |- context [bind ?c ?k ?d] => rewrite (@bind_run _ _ c k d)
  end.

Ltac threw_case :=
  simpl; split; [reflexivity | split; [intros ? Hthrew; discriminate Hthrew|]].



Section UpsertExisting.
Import Values Db Upsert.
Local Open Scope db_scope.

(** The row has the name given, up to the case of ASCII letters, or the
    website given. *)
Definition same_company (s : jstring) (website : Value) (r : CompanyProfiles.row)
  : Prop :=
  sql_lower (CompanyProfiles.companyName r) = sql_lower (trim s) \/
  exists w, website = JStr w /\ trim w <> [] /\
            CompanyProfiles.website r = Some (trim w).

(** The row has the name given, up to the case of ASCII letters, and
    belongs to the company given. *)
Definition same_employee (s : jstring) (cid : Z) (r : Employees.row) : Prop :=
  sql_lower (Employees.employeeName r) = sql_lower (trim s) /\
  Employees.companyId r = Some cid.

(** An argument of type [string | null | undefined]. *)
Definition text_or_nullish (v : Value) : Prop :=
  v = JUndefined \/ v = JNull \/ exists s, v = JStr s.

Definition typed_data (additionalData : option AdditionalData) : Prop :=
  match additionalData with
  | None => True
  | Some a =>
      text_or_nullish (ad_description a) /\ text_or_nullish (ad_techStack a) /\
      text_or_nullish (ad_industry a) /\ text_or_nullish (ad_headquarters a) /\
      text_or_nullish (ad_revenue a) /\ text_or_nullish (ad_funding a)
  end.

Lemma trim_nil : trim [] = [].
Proof. reflexivity. Qed.

Lemma nonblank_JStr (s : jstring) :
  nonblank (JStr s) = Returned (negb (JStr.eqb (trim s) [])).
Proof. unfold nonblank. destruct s; reflexivity. Qed.

Lemma trimmed_if_nonblank_Some (v : Value) (t : jstring) :
  trimmed_if_nonblank v = Returned (Some t) ->
  exists w, v = JStr w /\ t = trim w /\ trim w <> [].
Proof.
  unfold trimmed_if_nonblank.
  destruct (nonblank v) as [[|]|] eqn:E; try discriminate.
  apply nonblank_true in E as (s & -> & Hs). simpl. intros [= <-]. now exists s.
Qed.

Lemma trimmed_if_nonblank_JStr (w : jstring) :
  trim w <> [] -> trimmed_if_nonblank (JStr w) = Returned (Some (trim w)).
Proof.
  intros H. unfold trimmed_if_nonblank. rewrite nonblank_JStr.
  destruct (jstring_eqb_spec (trim w) []); [contradiction | reflexivity].
Qed.

Lemma opt_eqb_true (a : option jstring) (b : jstring) :
  opt_eqb a b = true <-> a = Some b.
Proof.
  destruct a as [x|]; simpl; [|split; discriminate].
  destruct (jstring_eqb_spec x b); split; congruence.
Qed.

Lemma company_matches_same (s : jstring) (website : Value) (site : option jstring)
    (r : CompanyProfiles.row) :
  trimmed_if_nonblank website = Returned site ->
  company_matches (trim s) site r = true <-> same_company s website r.
Proof.
  intros Hsite. unfold company_matches, same_company.
  rewrite orb_true_iff. split.
  - intros [H|H].
    + left. now destruct (jstring_eqb_spec (sql_lower (CompanyProfiles.companyName r))
                            (sql_lower (trim s))).
    + destruct site as [w'|]; [|discriminate].
      apply opt_eqb_true in H.
      apply trimmed_if_nonblank_Some in Hsite as (w & -> & -> & Hw).
      right. now exists w.
  - intros [H|(w & -> & Hw & H)].
    + left. rewrite H. apply jstring_eqb_refl.
    + rewrite trimmed_if_nonblank_JStr in Hsite by assumption.
      injection Hsite as <-. right. now apply opt_eqb_true.
Qed.

Lemma employee_matches_same (s : jstring) (cid : Z) (r : Employees.row) :
  employee_matches (trim s) cid r = true <-> same_employee s cid r.
Proof.
  unfold employee_matches, same_employee. rewrite andb_true_iff.
  destruct (jstring_eqb_spec (sql_lower (Employees.employeeName r))
              (sql_lower (trim s))) as [E|E];
    destruct (Employees.companyId r) as [c|]; simpl.
  - rewrite Z.eqb_eq. split; intros [H1 H2]; split; congruence.
  - split; intros [H1 H2]; discriminate.
  - split; intros [H1 H2]; [discriminate | contradiction].
  - split; intros [H1 H2]; [discriminate | contradiction].
Qed.

Lemma find_exists (A : Type) (p : A -> bool) (l : list A) :
  (exists x, In x l /\ p x = true) -> exists y, find p l = Some y.
Proof.
  intros (x & Hx & Hp). destruct (find p l) as [y|] eqn:E; [now exists y|].
  rewrite (find_none _ _ E x Hx) in Hp. discriminate.
Qed.

(** When a row with the same name or website is stored, [upsertCompany]
    adds no row and can only return the id of such a row; it does return
    when the database answers and the arguments have their declared types. *)
Lemma upsertCompany_existing (s : jstring) (website : Value)
    (additionalData : option AdditionalData) (d : D1) :
  (exists r, In r (company_profiles (tables d)) /\ same_company s website r) ->
  let run := upsertCompany (JStr s) website additionalData d in
  length (company_profiles (tables (snd run)))
  = length (company_profiles (tables d)) /\
  (forall rid, fst run = Returned rid ->
     exists r, In r (company_profiles (tables d)) /\ same_company s website r /\
               CompanyProfiles.id r = rid) /\
  (failures d = [] -> trim s <> [] -> text_or_nullish website ->
   typed_data additionalData -> exists rid, fst run = Returned rid).
Proof.
  intros Hex run. subst run. unfold upsertCompany.
  step_lift. rewrite nonblank_JStr.
  destruct (jstring_eqb_spec (trim s) []) as [Ht|Ht]; cbn [negb]; cbv beta iota.
  { threw_case. intros; contradiction. }
  step_lift. cbn [trim_method]. step_lift.
  destruct (trimmed_if_nonblank website) as [site|m] eqn:Hsite.
  2:{ threw_case.
      intros _ _ [->|[->|[w ->]]] _; try discriminate.
      unfold trimmed_if_nonblank in Hsite. rewrite nonblank_JStr in Hsite.
      destruct (negb _); discriminate. }
  assert (Hfind : exists r0, find (company_matches (trim s) site)
                               (company_profiles (tables d)) = Some r0).
  { apply find_exists. destruct Hex as (r & Hr & Hs). exists r. split; [exact Hr|].
    now apply (@company_matches_same s website site r Hsite). }
  destruct Hfind as (r0 & Hfind).
  assert (Hr0 : In r0 (company_profiles (tables d)) /\ same_company s website r0).
  { apply find_some in Hfind as [H1 H2]. split; [exact H1|].
    now apply (@company_matches_same s website site r0 Hsite). }
  step_bind.
  destruct (stmt_cases (select_company (trim s) site) d) as (rest & [E|E]);
    rewrite E.
  { threw_case.
    intros Hf. rewrite (@stmt_healthy _ _ d Hf) in E. discriminate. }
  cbn [select_company fst snd]. rewrite Hfind. step_lift.
  destruct (build_updateData site additionalData) as [u|m] eqn:Hu.
  2:{ threw_case.
      intros _ _ _ Htyped. exfalso. revert Hu. unfold build_updateData.
      destruct additionalData as [a|]; [|discriminate].
      destruct Htyped as (H1 & H2 & H3 & H4 & H5 & H6).
      assert (Hte : forall v, text_or_nullish v -> exists e, text_entry v = Returned e).
      { intros v [->|[->|[x ->]]]; simpl; eauto.
        destruct (trim x); eauto. }
      destruct (Hte _ H1) as [? ->], (Hte _ H2) as [? ->], (Hte _ H3) as [? ->],
               (Hte _ H4) as [? ->], (Hte _ H5) as [? ->], (Hte _ H6) as [? ->].
      discriminate. }
  step_bind.
  destruct (has_fields u).
  - match goal with |- context [stmt ?f ?d0] =>
      destruct (stmt_cases f d0) as (rest' & [E'|E']); rewrite E' end.
    + threw_case.
      intros Hf. exfalso. rewrite (@stmt_healthy _ _ d Hf) in E.
      injection E as <-.
      match type of E' with stmt ?f ?d0 = _ =>
        rewrite (@stmt_healthy _ f d0 eq_refl) in E' end.
      discriminate.
    + cbn [ret fst snd tables update_company with_company_profiles company_profiles].
      rewrite length_map. split; [reflexivity|]. split.
      * intros rid [= <-]. exists r0. tauto.
      * intros; eauto.
  - cbn [ret fst snd tables]. split; [reflexivity|]. split.
    + intros rid [= <-]. exists r0. tauto.
    + intros; eauto.
Qed.

Lemma trimmed_if_nonblank_typed (v : Value) :
  text_or_nullish v -> exists t, trimmed_if_nonblank v = Returned t.
Proof.
  intros [->|[->|[x ->]]]; try (eexists; reflexivity).
  unfold trimmed_if_nonblank. rewrite nonblank_JStr.
  destruct (negb _); eexists; reflexivity.
Qed.

(** The same for [upsertEmployee] and a row with the same name in the same
    company. *)
Lemma upsertEmployee_existing (s : jstring) (cid : Z)
    (employeeTitle email : Value) (d : D1) :
  (exists r, In r (employees (tables d)) /\ same_employee s cid r) ->
  let run := upsertEmployee cid (JStr s) employeeTitle email d in
  length (employees (tables (snd run))) = length (employees (tables d)) /\
  (forall rid, fst run = Returned rid ->
     exists r, In r (employees (tables d)) /\ same_employee s cid r /\
               Employees.id r = rid) /\
  (failures d = [] -> trim s <> [] -> text_or_nullish employeeTitle ->
   text_or_nullish email -> exists rid, fst run = Returned rid).
Proof.
  intros Hex run. subst run. unfold upsertEmployee.
  step_lift. rewrite nonblank_JStr.
  destruct (jstring_eqb_spec (trim s) []) as [Ht|Ht]; cbn [negb]; cbv beta iota.
  { threw_case. intros; contradiction. }
  step_lift. cbn [trim_method].
  assert (Hfind : exists r0, find (employee_matches (trim s) cid)
                               (employees (tables d)) = Some r0).
  { apply find_exists. destruct Hex as (r & Hr & Hs). exists r. split; [exact Hr|].
    now apply employee_matches_same. }
  destruct Hfind as (r0 & Hfind).
  assert (Hr0 : In r0 (employees (tables d)) /\ same_employee s cid r0).
  { apply find_some in Hfind as [H1 H2]. split; [exact H1|].
    now apply employee_matches_same. }
  step_bind.
  destruct (stmt_cases (select_employee (trim s) cid) d) as (rest & [E|E]);
    rewrite E.
  { threw_case.
    intros Hf. rewrite (@stmt_healthy _ _ d Hf) in E. discriminate. }
  cbn [select_employee fst snd]. rewrite Hfind. step_lift.
  destruct (trimmed_if_nonblank employeeTitle) as [title|m] eqn:Htitle.
  2:{ threw_case. intros _ _ Hty _.
      destruct (trimmed_if_nonblank_typed Hty) as [t Et]. congruence. }
  step_lift.
  destruct (trimmed_if_nonblank email) as [mail|m] eqn:Hmail.
  2:{ threw_case. intros _ _ _ Hty.
      destruct (trimmed_if_nonblank_typed Hty) as [t Et]. congruence. }
  step_bind.
  assert (Hupd :
    let run := stmt (update_employee (Employees.id r0) title mail)
                 {| tables := tables d; failures := rest |} in
    length (employees (tables (snd
      (match run with
       | (Returned a, d') => ret (Employees.id r0) d'
       | (Threw m, d') => (Threw m, d')
       end)))) = length (employees (tables d)) /\
    (forall rid,
       fst (match run with
            | (Returned a, d') => ret (Employees.id r0) d'
            | (Threw m, d') => (Threw m, d')
            end) = Returned rid ->
       exists r, In r (employees (tables d)) /\ same_employee s cid r /\
                 Employees.id r = rid) /\
    (failures d = [] -> trim s <> [] -> text_or_nullish employeeTitle ->
     text_or_nullish email ->
     exists rid,
       fst (match run with
            | (Returned a, d') => ret (Employees.id r0) d'
            | (Threw m, d') => (Threw m, d')
            end) = Returned rid)).
  { intros run.
    destruct (stmt_cases (update_employee (Employees.id r0) title mail)
                {| tables := tables d; failures := rest |}) as (rest' & [E'|E']);
      subst run; rewrite E'.
    - threw_case.
      intros Hf. exfalso. rewrite (@stmt_healthy _ _ d Hf) in E.
      injection E as <-.
      match type of E' with stmt ?f ?d0 = _ =>
        rewrite (@stmt_healthy _ f d0 eq_refl) in E' end.
      discriminate.
    - cbn [ret fst snd tables update_employee with_employees employees].
      rewrite length_map. split; [reflexivity|]. split.
      + intros rid [= <-]. exists r0. tauto.
      + intros; eauto. }
  destruct title as [t|], mail as [e|]; try exact Hupd.
  cbn [ret fst snd tables]. split; [reflexivity|]. split.
  - intros rid [= <-]. exists r0. tauto.
  - intros; eauto.
Qed.

(** *** What an update writes *)

(** A stored text after an update with the argument [arg]: the trimmed
    argument when it is a string that is not blank, the stored text
    otherwise. *)
Definition text_after (arg : Value) (old : option jstring) : option jstring :=
  match arg with
  | JStr s => match trim s with [] => old | c :: t => Some (c :: t) end
  | _ => old
  end.

(** A stored number after an update with the argument [arg]: the argument
    when it is a number, [NaN] being stored as null, and the stored number
    when the argument is null or undefined. *)
Definition number_after (arg : NumField) (old : option number) : option number :=
  match arg with
  | NVal NaN => None
  | NVal n => Some n
  | _ => old
  end.

Definition company_after (website : Value) (additionalData : option AdditionalData)
    (r : CompanyProfiles.row) : CompanyProfiles.row :=
  let text (f : AdditionalData -> Value) (old : option jstring) :=
    match additionalData with Some a => text_after (f a) old | None => old end in
  let num (f : AdditionalData -> NumField) (old : option number) :=
    match additionalData with Some a => number_after (f a) old | None => old end in
  {| CompanyProfiles.id := CompanyProfiles.id r;
     CompanyProfiles.companyName := CompanyProfiles.companyName r;
     CompanyProfiles.website := text_after website (CompanyProfiles.website r);
     CompanyProfiles.yearFounded := num ad_yearFounded (CompanyProfiles.yearFounded r);
     CompanyProfiles.description :=
       text ad_description (CompanyProfiles.description r);
     CompanyProfiles.techStack := text ad_techStack (CompanyProfiles.techStack r);
     CompanyProfiles.employeeCountMin :=
       num ad_employeeCountMin (CompanyProfiles.employeeCountMin r);
     CompanyProfiles.employeeCountMax :=
       num ad_employeeCountMax (CompanyProfiles.employeeCountMax r);
     CompanyProfiles.revenue := text ad_revenue (CompanyProfiles.revenue r);
     CompanyProfiles.funding := text ad_funding (CompanyProfiles.funding r);
     CompanyProfiles.headquarters :=
       text ad_headquarters (CompanyProfiles.headquarters r);
     CompanyProfiles.industry := text ad_industry (CompanyProfiles.industry r);
     CompanyProfiles.createdAt := CompanyProfiles.createdAt r |}.

Definition employee_after (employeeTitle email : Value) (r : Employees.row)
  : Employees.row :=
  {| Employees.id := Employees.id r;
     Employees.employeeName := Employees.employeeName r;
     Employees.employeeTitle := text_after employeeTitle (Employees.employeeTitle r);
     Employees.email := text_after email (Employees.email r);
     Employees.companyId := Employees.companyId r;
     Employees.createdAt := Employees.createdAt r |}.

Lemma text_after_kept (arg : Value) (old : option jstring) :
  text_after arg old = old \/
  exists s, arg = JStr s /\ trim s <> [] /\ text_after arg old = Some (trim s).
Proof.
  destruct arg; try (now left). cbn. destruct (trim s) eqn:E; [now left|].
  right. exists s. rewrite E. repeat split; discriminate || reflexivity.
Qed.

Lemma number_after_kept (arg : NumField) (old : option number) :
  number_after arg old = old \/
  (exists n, arg = NVal n /\ n <> NaN /\ number_after arg old = Some n) \/
  arg = NVal NaN /\ number_after arg old = None.
Proof.
  destruct arg as [| |[z| |b digits]]; cbn; auto;
    right; left; eexists; repeat split; discriminate.
Qed.

Lemma assign_text_entry (v : Value) (e : Entry jstring) (old : option jstring) :
  text_entry v = Returned e -> assign e old = text_after v old.
Proof.
  destruct v; cbn; try discriminate; try (now intros [= <-]).
  destruct (trim s); now intros [= <-].
Qed.

Lemma assign_site (website : Value) (site : option jstring) (old : option jstring) :
  trimmed_if_nonblank website = Returned site ->
  assign (match site with Some w => Set_ w | None => Absent end) old
  = text_after website old.
Proof.
  unfold trimmed_if_nonblank.
  destruct website; try (cbn; now intros [= <-]).
  - unfold nonblank. destruct (truthy (JBool b)); cbn; [discriminate|].
    now intros [= <-].
  - unfold nonblank. destruct (truthy (JNum n)); cbn; [discriminate|].
    now intros [= <-].
  - rewrite nonblank_JStr. cbn [trim_method text_after].
    destruct (jstring_eqb_spec (trim s) []) as [E|E]; cbn [negb].
    + intros [= <-]. now rewrite E.
    + intros [= <-]. cbn. destruct (trim s); [contradiction | reflexivity].
Qed.

Lemma assign_num_entry (f : NumField) (old : option number) :
  assign_num (num_entry f) old = number_after f old.
Proof. destruct f as [| |[z| |b digits]]; reflexivity. Qed.

Lemma apply_company_update_after (website : Value) (site : option jstring)
    (additionalData : option AdditionalData) (u : UpdateData)
    (r : CompanyProfiles.row) :
  trimmed_if_nonblank website = Returned site ->
  build_updateData site additionalData = Returned u ->
  apply_company_update u r = company_after website additionalData r.
Proof.
  intros Hsite. unfold build_updateData, company_after, apply_company_update.
  destruct additionalData as [a|].
  - destruct (text_entry (ad_description a)) eqn:E1; [|discriminate].
    destruct (text_entry (ad_techStack a)) eqn:E2; [|discriminate].
    destruct (text_entry (ad_industry a)) eqn:E3; [|discriminate].
    destruct (text_entry (ad_headquarters a)) eqn:E4; [|discriminate].
    destruct (text_entry (ad_revenue a)) eqn:E5; [|discriminate].
    destruct (text_entry (ad_funding a)) eqn:E6; [|discriminate].
    intros [= <-]. cbn [u_website u_description u_techStack u_industry
                         u_yearFounded u_headquarters u_revenue u_funding
                         u_employeeCountMin u_employeeCountMax].
    now rewrite (@assign_site _ _ _ Hsite), !assign_num_entry,
      (@assign_text_entry _ _ _ E1), (@assign_text_entry _ _ _ E2),
      (@assign_text_entry _ _ _ E3), (@assign_text_entry _ _ _ E4),
      (@assign_text_entry _ _ _ E5), (@assign_text_entry _ _ _ E6).
  - intros [= <-]. cbn [u_website u_description u_techStack u_industry
                         u_yearFounded u_headquarters u_revenue u_funding
                         u_employeeCountMin u_employeeCountMax].
    now rewrite (@assign_site _ _ _ Hsite).
Qed.

Lemma apply_company_update_none (u : UpdateData) (r : CompanyProfiles.row) :
  has_fields u = false -> apply_company_update u r = r.
Proof.
  unfold has_fields, apply_company_update, assign, assign_num.
  destruct (written (u_website u)); [discriminate|].
  destruct (written (u_description u)); [discriminate|].
  destruct (written (u_techStack u)); [discriminate|].
  destruct (written (u_industry u)); [discriminate|].
  destruct (written (u_yearFounded u)); [discriminate|].
  destruct (written (u_headquarters u)); [discriminate|].
  destruct (written (u_revenue u)); [discriminate|].
  destruct (written (u_funding u)); [discriminate|].
  destruct (written (u_employeeCountMin u)); [discriminate|].
  destruct (written (u_employeeCountMax u)); [discriminate|].
  intros _. now destruct r.
Qed.

Lemma map_if_same (A : Type) (p : A -> bool) (f : A -> A) (l : list A) :
  (forall x, f x = x) -> List.map (fun x => if p x then f x else x) l = l.
Proof.
  intros H. induction l as [|x l IH]; [reflexivity|]. cbn. rewrite IH.
  destruct (p x); now rewrite ?H.
Qed.

Lemma map_if_ext (A : Type) (p : A -> bool) (f g : A -> A) (l : list A) :
  (forall x, f x = g x) ->
  List.map (fun x => if p x then f x else x) l
  = List.map (fun x => if p x then g x else x) l.
Proof. intros H. apply map_ext. intros x. now rewrite H. Qed.

(** The rows after a call of [upsertCompany] that found a stored row. *)
Lemma upsertCompany_existing_rows (s : jstring) (website : Value)
    (additionalData : option AdditionalData) (d : D1) (rid : Z) :
  (exists r, In r (company_profiles (tables d)) /\ same_company s website r) ->
  let run := upsertCompany (JStr s) website additionalData d in
  fst run = Returned rid ->
  company_profiles (tables (snd run))
  = List.map (fun r => if (CompanyProfiles.id r =? rid)%Z
                       then company_after website additionalData r else r)
      (company_profiles (tables d)).
Proof.
  intros Hex run. subst run. unfold upsertCompany.
  step_lift. rewrite nonblank_JStr.
  destruct (jstring_eqb_spec (trim s) []) as [Ht|Ht]; cbn [negb]; cbv beta iota;
    [intros H; discriminate H|].
  step_lift. cbn [trim_method]. step_lift.
  destruct (trimmed_if_nonblank website) as [site|m] eqn:Hsite;
    [|intros H; discriminate H].
  assert (Hfind : exists r0, find (company_matches (trim s) site)
                               (company_profiles (tables d)) = Some r0).
  { apply find_exists. destruct Hex as (r & Hr & Hs). exists r. split; [exact Hr|].
    now apply (@company_matches_same s website site r Hsite). }
  destruct Hfind as (r0 & Hfind).
  step_bind.
  destruct (stmt_cases (select_company (trim s) site) d) as (rest & [E|E]);
    rewrite E; [intros H; discriminate H|].
  cbn [select_company fst snd]. rewrite Hfind. step_lift.
  destruct (build_updateData site additionalData) as [u|m] eqn:Hu;
    [|intros H; discriminate H].
  step_bind. destruct (has_fields u) eqn:Hfields.
  - match goal with |- context [stmt ?f ?d0] =>
      destruct (stmt_cases f d0) as (rest' & [E'|E']); rewrite E' end;
      [intros H; discriminate H|].
    cbn [ret fst snd tables update_company with_company_profiles company_profiles].
    intros [= <-]. apply map_if_ext. intros x.
    now apply apply_company_update_after with (site := site).
  - cbn [ret fst snd tables]. intros [= <-]. symmetry. apply map_if_same.
    intros x.
    rewrite <- (@apply_company_update_after website site additionalData u x Hsite Hu).
    now apply apply_company_update_none.
Qed.

Lemma assign_mail (v : Value) (x : option jstring) (old : option jstring) :
  trimmed_if_nonblank v = Returned x ->
  match x with Some t => Some t | None => old end = text_after v old.
Proof.
  intros H. rewrite <- (@assign_site _ _ old H). now destruct x.
Qed.

(** The rows after a call of [upsertEmployee] that found a stored row. *)
Lemma upsertEmployee_existing_rows (s : jstring) (cid : Z)
    (employeeTitle email : Value) (d : D1) (rid : Z) :
  (exists r, In r (employees (tables d)) /\ same_employee s cid r) ->
  let run := upsertEmployee cid (JStr s) employeeTitle email d in
  fst run = Returned rid ->
  employees (tables (snd run))
  = List.map (fun r => if (Employees.id r =? rid)%Z
                       then employee_after employeeTitle email r else r)
      (employees (tables d)).
Proof.
  intros Hex run. subst run. unfold upsertEmployee.
  step_lift. rewrite nonblank_JStr.
  destruct (jstring_eqb_spec (trim s) []) as [Ht|Ht]; cbn [negb]; cbv beta iota;
    [intros H; discriminate H|].
  step_lift. cbn [trim_method].
  assert (Hfind : exists r0, find (employee_matches (trim s) cid)
                               (employees (tables d)) = Some r0).
  { apply find_exists. destruct Hex as (r & Hr & Hs). exists r. split; [exact Hr|].
    now apply employee_matches_same. }
  destruct Hfind as (r0 & Hfind).
  step_bind.
  destruct (stmt_cases (select_employee (trim s) cid) d) as (rest & [E|E]);
    rewrite E; [intros H; discriminate H|].
  cbn [select_employee fst snd]. rewrite Hfind. step_lift.
  destruct (trimmed_if_nonblank employeeTitle) as [title|m] eqn:Htitle;
    [|intros H; discriminate H].
  step_lift.
  destruct (trimmed_if_nonblank email) as [mail|m] eqn:Hmail;
    [|intros H; discriminate H].
  step_bind.
  assert (Hafter : forall x, apply_employee_update title mail x
                             = employee_after employeeTitle email x).
  { intros x. unfold apply_employee_update, employee_after.
    now rewrite (@assign_mail _ _ _ Htitle), (@assign_mail _ _ _ Hmail). }
  assert (Hupd :
    fst (match stmt (update_employee (Employees.id r0) title mail)
                 {| tables := tables d; failures := rest |} with
         | (Returned a, d') => ret (Employees.id r0) d'
         | (Threw m, d') => (Threw m, d')
         end) = Returned rid ->
    employees (tables (snd
      (match stmt (update_employee (Employees.id r0) title mail)
               {| tables := tables d; failures := rest |} with
       | (Returned a, d') => ret (Employees.id r0) d'
       | (Threw m, d') => (Threw m, d')
       end)))
    = List.map (fun r => if (Employees.id r =? rid)%Z
                         then employee_after employeeTitle email r else r)
        (employees (tables d))).
  { destruct (stmt_cases (update_employee (Employees.id r0) title mail)
                {| tables := tables d; failures := rest |}) as (rest' & [E'|E']);
      rewrite E'; [intros H; discriminate H|].
    cbn [ret fst snd tables update_employee with_employees employees].
    intros [= <-]. now apply map_if_ext. }
  destruct title as [t|], mail as [e|]; try exact Hupd.
  cbn [ret fst snd tables]. intros [= <-]. symmetry. apply map_if_same.
  intros x. rewrite <- Hafter. now destruct x.
Qed.

End UpsertExisting.

Section UpsertClaims.
Import Values Db Upsert.

(** C9 (amended). Whatever the arguments and whatever the database does, a
    call of [upsertCompany] or [upsertEmployee] leaves every stored row in
    place with its id and name, and each of its texts either as it was or
    holding a new text that is not empty; it may add rows at the end. When
    a row with the same name up to the case of ASCII letters (for a company:
    or with the same website; for an employee: in the same company) is
    already stored, the call adds no row, the id it returns is the id of
    such a row, and it does return one when the database answers and the
    arguments have their declared types; the table is then as before except
    in the rows of that id, where a text given as a string that is not blank
    replaces the stored text by its trimmed value and a number given replaces
    the stored number. An argument that is null, undefined or blank leaves
    the stored value in place: no stored text is overwritten with null or
    an empty string, and no stored number with null by an argument other
    than [NaN]. *)
Theorem upsert_no_duplicate_no_erasure :
  (forall companyName website additionalData d,
     frame (tables d)
       (tables (snd (upsertCompany companyName website additionalData d)))) /\
  (forall companyId employeeName employeeTitle email d,
     frame (tables d)
       (tables (snd (upsertEmployee companyId employeeName employeeTitle email d)))) /\
  (forall s website additionalData d,
     (exists r, In r (company_profiles (tables d)) /\ same_company s website r) ->
     let run := upsertCompany (JStr s) website additionalData d in
     length (company_profiles (tables (snd run)))
     = length (company_profiles (tables d)) /\
     (forall rid, fst run = Returned rid ->
        (exists r, In r (company_profiles (tables d)) /\
                   same_company s website r /\ CompanyProfiles.id r = rid) /\
        company_profiles (tables (snd run))
        = List.map (fun r => if (CompanyProfiles.id r =? rid)%Z
                             then company_after website additionalData r else r)
            (company_profiles (tables d))) /\
     (failures d = [] -> trim s <> [] -> text_or_nullish website ->
      typed_data additionalData -> exists rid, fst run = Returned rid)) /\
  (forall s companyId employeeTitle email d,
     (exists r, In r (employees (tables d)) /\ same_employee s companyId r) ->
     let run := upsertEmployee companyId (JStr s) employeeTitle email d in
     length (employees (tables (snd run))) = length (employees (tables d)) /\
     (forall rid, fst run = Returned rid ->
        (exists r, In r (employees (tables d)) /\
                   same_employee s companyId r /\ Employees.id r = rid) /\
        employees (tables (snd run))
        = List.map (fun r => if (Employees.id r =? rid)%Z
                             then employee_after employeeTitle email r else r)
            (employees (tables d))) /\
     (failures d = [] -> trim s <> [] -> text_or_nullish employeeTitle ->
      text_or_nullish email -> exists rid, fst run = Returned rid)) /\
  (forall arg old,
     text_after arg old = old \/
     exists s, arg = JStr s /\ trim s <> [] /\ text_after arg old = Some (trim s)) /\
  (forall arg old,
     number_after arg old = old \/
     (exists n, arg = NVal n /\ n <> NaN /\ number_after arg old = Some n) \/
     arg = NVal NaN /\ number_after arg old = None).
Proof.
  split; [|split; [|split; [|split; [|split]]]].
  - intros companyName website additionalData d.
    destruct (upsertCompany companyName website additionalData d) as [o d'] eqn:E.
    eapply upsertCompany_preserves; eassumption.
  - intros companyId employeeName employeeTitle email d.
    destruct (upsertEmployee companyId employeeName employeeTitle email d)
      as [o d'] eqn:E.
    eapply upsertEmployee_preserves; eassumption.
  - intros s website additionalData d H run.
    destruct (@upsertCompany_existing s website additionalData d H)
      as (Hlen & Hret & Htot).
    split; [exact Hlen|]. split; [|exact Htot].
    intros rid Hrid. split; [now apply Hret|].
    now apply upsertCompany_existing_rows.
  - intros s companyId employeeTitle email d H run.
    destruct (@upsertEmployee_existing s companyId employeeTitle email d H)
      as (Hlen & Hret & Htot).
    split; [exact Hlen|]. split; [|exact Htot].
    intros rid Hrid. split; [now apply Hret|].
    now apply upsertEmployee_existing_rows.
  - exact text_after_kept.
  - exact number_after_kept.
Qed.

Definition acme : CompanyProfiles.row :=
  {| CompanyProfiles.id := 1; CompanyProfiles.companyName := js "Acme";
     CompanyProfiles.website := Some (js "https://acme.io");
     CompanyProfiles.yearFounded := Some (Int 1999);
     CompanyProfiles.description := Some (js "Rockets");
     CompanyProfiles.techStack := None;
     CompanyProfiles.employeeCountMin := None;
     CompanyProfiles.employeeCountMax := None;
     CompanyProfiles.revenue := None; CompanyProfiles.funding := None;
     CompanyProfiles.headquarters := None; CompanyProfiles.industry := None;
     CompanyProfiles.createdAt := Some (js "2025-01-01 00:00:00") |}.

Definition wile : Employees.row :=
  {| Employees.id := 1; Employees.employeeName := js "Wile Coyote";
     Employees.employeeTitle := Some (js "CEO");
     Employees.email := Some (js "wile@acme.io");
     Employees.companyId := Some 1%Z;
     Employees.createdAt := Some (js "2025-01-01 00:00:00") |}.

Definition sample_tables : Tables :=
  {| company_profiles := [acme]; employees := [wile]; companies := [];
     company_profiles_seq := 1; employees_seq := 1; companies_seq := 0;
     current_timestamp := js "2025-06-01 12:00:00" |}.

Definition sample_d1 : D1 := {| tables := sample_tables; failures := [] |}.

Definition sample_data : AdditionalData :=
  {| ad_description := JStr (js "   "); ad_techStack := JNull;
     ad_industry := JStr (js " Aerospace "); ad_yearFounded := NNull;
     ad_headquarters := JUndefined; ad_revenue := JNull; ad_funding := JNull;
     ad_employeeCountMin := NVal (Int 10); ad_employeeCountMax := NUndefined |}.

(** A blank description and a null year leave the stored ones in place. *)
Example upsertCompany_on_stored_name :
  let run := upsertCompany (JStr (js " ACME ")) JNull (Some sample_data) sample_d1 in
  fst run = Returned 1%Z /\
  List.map (fun r => (CompanyProfiles.description r, CompanyProfiles.industry r,
                      CompanyProfiles.yearFounded r,
                      CompanyProfiles.employeeCountMin r))
    (company_profiles (tables (snd run)))
  = [(Some (js "Rockets"), Some (js "Aerospace"), Some (Int 1999), Some (Int 10))].
Proof. vm_compute. split; reflexivity. Qed.

(** The data of a company whose year the model could not read:
    [parseInt("unknown")] is [NaN]. *)
Definition unknown_year : AdditionalData :=
  {| ad_description := JNull; ad_techStack := JNull; ad_industry := JNull;
     ad_yearFounded := NVal NaN; ad_headquarters := JNull; ad_revenue := JNull;
     ad_funding := JNull; ad_employeeCountMin := NNull;
     ad_employeeCountMax := NNull |}.

(** A company stored under a name that starts with a capital E with an
    acute accent (code unit 201); code unit 233 is the small letter. *)
Definition ecole : CompanyProfiles.row :=
  {| CompanyProfiles.id := 1; CompanyProfiles.companyName := 201%N :: js "cole";
     CompanyProfiles.website := None; CompanyProfiles.yearFounded := None;
     CompanyProfiles.description := None; CompanyProfiles.techStack := None;
     CompanyProfiles.employeeCountMin := None;
     CompanyProfiles.employeeCountMax := None;
     CompanyProfiles.revenue := None; CompanyProfiles.funding := None;
     CompanyProfiles.headquarters := None; CompanyProfiles.industry := None;
     CompanyProfiles.createdAt := Some (js "2025-01-01 00:00:00") |}.

Definition ecole_d1 : D1 :=
  {| tables := {| company_profiles := [ecole]; employees := []; companies := [];
                  company_profiles_seq := 1; employees_seq := 0;
                  companies_seq := 0;
                  current_timestamp := js "2025-06-01 12:00:00" |};
     failures := [] |}.

(** C9 as stated fails twice. A year that is [NaN] passes the filter of the
    fields to update and is stored as null over the stored year 1999. And
    the comparison of names folds the case of ASCII letters only: a name that
    differs from a stored one by the case of an accented letter gets a second
    row. *)
Lemma upsert_erasure_and_duplicate_cex :
  let run := upsertCompany (JStr (js "Acme")) JNull (Some unknown_year) sample_d1 in
  let again := upsertCompany (JStr (233%N :: js "cole")) JNull None ecole_d1 in
  (List.map CompanyProfiles.yearFounded (company_profiles (tables sample_d1))
   = [Some (Int 1999)] /\
   fst run = Returned 1%Z /\
   List.map CompanyProfiles.yearFounded (company_profiles (tables (snd run)))
   = [None]) /\
  (fst again = Returned 2%Z /\
   List.map CompanyProfiles.companyName (company_profiles (tables (snd again)))
   = [201%N :: js "cole"; 233%N :: js "cole"]).
Proof. vm_compute. repeat split; reflexivity. Qed.

Example upsertEmployee_on_stored_name :
  let run := upsertEmployee 1 (JStr (js "wile coyote")) JNull (JStr (js " ")) sample_d1 in
  fst run = Returned 1%Z /\ employees (tables (snd run)) = [wile].
Proof. vm_compute. split; reflexivity. Qed.

Example upsertEmployee_new_name :
  let run := upsertEmployee 1 (JStr (js "Road Runner")) JNull
               (JStr (js "rr@acme.io")) sample_d1 in
  fst run = Returned 2%Z /\
  List.map Employees.employeeName (employees (tables (snd run)))
  = [js "Wile Coyote"; js "Road Runner"].
Proof. vm_compute. split; reflexivity. Qed.

End UpsertClaims.

(** ** The orchestrator: extracting the JSON text *)

Section JsonExtraction.
Import Values Orchestrator.

Lemma mem_false_cons (c x : N) (s : jstring) :
  mem c (x :: s) = false <-> N.eqb x c = false /\ mem c s = false.
Proof.
  unfold mem. cbn [existsb]. rewrite orb_false_iff, (N.eqb_sym c x). tauto.
Qed.

Lemma upto_last_none (c : N) (s : jstring) :
  mem c s = false -> upto_last c s = None.
Proof.
  induction s as [|x r IH]; [reflexivity|].
  intros H. apply mem_false_cons in H as [Hx Hr].
  cbn [upto_last]. now rewrite (IH Hr), Hx.
Qed.

Lemma upto_last_found (c : N) (mid post : jstring) :
  mem c post = false -> upto_last c (mid ++ c :: post) = Some (mid ++ [c]).
Proof.
  intros H. induction mid as [|x mid IH]; cbn [app upto_last].
  - now rewrite (upto_last_none _ _ H), N.eqb_refl.
  - now rewrite IH.
Qed.

Lemma upto_last_Some (c : N) (s p : jstring) :
  upto_last c s = Some p ->
  exists mid post, s = mid ++ c :: post /\ p = mid ++ [c].
Proof.
  revert p; induction s as [|x r IH]; intros p; cbn [upto_last]; [discriminate|].
  destruct (upto_last c r) as [q|].
  - intros [= <-]. destruct (IH q eq_refl) as (mid & post & -> & ->).
    now exists (x :: mid), post.
  - destruct (N.eqb_spec x c) as [->|]; [|discriminate].
    intros [= <-]. now exists [], r.
Qed.

Lemma match_braces_found (pre mid post : jstring) :
  mem open_brace pre = false -> mem close_brace post = false ->
  match_braces (pre ++ open_brace :: mid ++ close_brace :: post)
  = Some (open_brace :: mid ++ [close_brace]).
Proof.
  intros Hpre Hpost. induction pre as [|x pre IH]; cbn [app match_braces].
  - now rewrite N.eqb_refl, upto_last_found.
  - apply mem_false_cons in Hpre as [Hx Hpre]. rewrite Hx. now apply IH.
Qed.

Lemma match_braces_Some (s m : jstring) :
  match_braces s = Some m ->
  exists pre mid post, s = pre ++ open_brace :: mid ++ close_brace :: post.
Proof.
  induction s as [|x r IH]; cbn [match_braces]; [discriminate|].
  destruct (N.eqb_spec x open_brace) as [->|].
  - destruct (upto_last close_brace r) as [p|] eqn:E.
    + intros _. apply upto_last_Some in E as (mid & post & -> & _).
      now exists [], mid, post.
    + intros H. destruct (IH H) as (pre & mid & post & ->).
      now exists (open_brace :: pre), mid, post.
  - intros H. destruct (IH H) as (pre & mid & post & ->).
    now exists (x :: pre), mid, post.
Qed.

(** White space at the two ends. *)
Definition all_space (s : jstring) : Prop := Forall (fun c => is_space c = true) s.

Definition no_space_first (s : jstring) : Prop :=
  match s with [] => True | c :: _ => is_space c = false end.

Definition no_space_last (s : jstring) : Prop := no_space_first (rev s).

Lemma trimStart_app (ws rest : jstring) :
  all_space ws -> no_space_first rest -> trimStart (ws ++ rest) = rest.
Proof.
  intros Hws Hrest. induction Hws as [|c ws Hc _ IH].
  - destruct rest as [|c r]; [reflexivity|].
    unfold trimStart, no_space_first in *. cbn [app dropWhile]. now rewrite Hrest.
  - unfold trimStart in *. cbn [app dropWhile]. now rewrite Hc.
Qed.

Lemma trimEnd_app (core ws : jstring) :
  all_space ws -> no_space_last core -> trimEnd (core ++ ws) = core.
Proof.
  intros Hws Hcore. unfold trimEnd. rewrite rev_app_distr.
  change (dropWhile is_space (rev ws ++ rev core)) with (trimStart (rev ws ++ rev core)).
  rewrite trimStart_app; [apply rev_involutive | | exact Hcore].
  apply Forall_rev. exact Hws.
Qed.

Lemma endsWith_app (b f : jstring) : endsWith f (b ++ f) = true.
Proof. unfold endsWith. rewrite rev_app_distr. apply startsWith_app. Qed.

Lemma strip_trailing_fence_closed (core ws : jstring) :
  all_space ws -> no_space_last core ->
  strip_trailing_fence (core ++ ws ++ fence) = core.
Proof.
  intros Hws Hcore. unfold strip_trailing_fence.
  rewrite app_assoc, endsWith_app, length_app, Nat.add_sub.
  rewrite firstn_app, firstn_all, Nat.sub_diag. simpl firstn.
  rewrite app_nil_r. now apply trimEnd_app.
Qed.

Lemma strip_leading_fence_app (f ws rest : jstring) :
  all_space ws -> no_space_first rest ->
  strip_leading_fence f (f ++ ws ++ rest) = rest.
Proof.
  intros Hws Hrest. unfold strip_leading_fence.
  rewrite skipn_app, skipn_all, Nat.sub_diag. simpl. now apply trimStart_app.
Qed.

End JsonExtraction.

Section OrchestratorParsing.
Import Values Db Orchestrator.

Variable JSON_parse : jstring -> Outcome Value.
Variable generateText : Value -> Outcome jstring.
Variable parseInt_String : Value -> Outcome number.
Variable to_number : Value -> number.
Variable extractDomain : Value -> Outcome (option jstring).

Let handle := onRequest JSON_parse generateText parseInt_String to_number
                extractDomain.

(** C5 (amended). The text handed to [JSON.parse] is computed from the
    output of the model in three steps. (1) The output is trimmed. (2) When
    it starts with the fence [```json], or else with the fence [```], that
    fence is removed with the white space after it, and then a closing fence
    [```] at the very end, if there is one, is removed with the white space
    before it; a text that starts with no fence is left as it is. (3) When
    the text has an opening brace with a closing brace somewhere after it,
    exactly the part from the first opening brace through the last closing
    brace is kept; otherwise the text is left as it is. Whenever
    [JSON.parse] throws on the result, the request completes with status 500
    and the body [{"error":"parsing error"}], the database is as it was and
    nothing is logged. *)
Theorem orchestrator_json_extraction :
  (forall t, startsWith fence t = false -> strip_fences t = t) /\
  (forall t f ws rest,
     startsWith fence t = true ->
     f = (if startsWith fence_json t then fence_json else fence) ->
     t = f ++ ws ++ rest -> all_space ws -> no_space_first rest ->
     (forall core ws',
        rest = core ++ ws' ++ fence -> all_space ws' -> no_space_last core ->
        strip_fences t = core) /\
     (endsWith fence rest = false -> strip_fences t = rest)) /\
  (forall text,
     let cleanText := strip_fences (trim text) in
     (forall pre mid post,
        cleanText = pre ++ open_brace :: mid ++ close_brace :: post ->
        mem open_brace pre = false -> mem close_brace post = false ->
        extract_json text = open_brace :: mid ++ [close_brace]) /\
     ((forall pre mid post,
         cleanText <> pre ++ open_brace :: mid ++ close_brace :: post) ->
      extract_json text = cleanText)) /\
  (forall request state d q text m,
     get request (js "query") = Returned q -> truthy q = true ->
     generateText q = Returned text ->
     JSON_parse (extract_json text) = Threw m ->
     handle request state d
     = {| response := Returned parsing_error; database := d;
          console_errors := [] |}).
Proof.
  split; [|split; [|split]].
  - intros t H. unfold strip_fences. rewrite H.
    destruct (startsWith fence_json t) eqn:E; [|reflexivity].
    apply startsWith_spec in E as [r ->]. discriminate H.
  - intros t f ws rest Hf -> Ht Hws Hrest.
    assert (E : strip_fences t
                = strip_trailing_fence
                    (strip_leading_fence
                       (if startsWith fence_json t then fence_json else fence) t)).
    { unfold strip_fences. rewrite Hf. now destruct (startsWith fence_json t). }
    assert (E' : strip_fences t = strip_trailing_fence rest).
    { rewrite E. f_equal. rewrite Ht at 2. now apply strip_leading_fence_app. }
    rewrite E'. split.
    + intros core ws' -> Hws' Hcore. now apply strip_trailing_fence_closed.
    + intros Hend. unfold strip_trailing_fence. now rewrite Hend.
  - intros text cleanText. unfold extract_json. fold cleanText. split.
    + intros pre mid post -> Hpre Hpost. now rewrite match_braces_found.
    + intros Hno. destruct (match_braces cleanText) as [m|] eqn:E; [|reflexivity].
      apply match_braces_Some in E as (pre & mid & post & E).
      exfalso. exact (Hno _ _ _ E).
  - intros request state d q text m Hq Htruthy Htext Hparse.
    unfold handle, onRequest. cbv zeta. rewrite Hq.
    unfold js_or. rewrite Htruthy, Htruthy. cbn [negb].
    rewrite Htext, Hparse. reflexivity.
Qed.

End OrchestratorParsing.

Section OrchestratorParsingExamples.
Import Values Orchestrator.

Definition quote : jstring := [34%N].
Definition newline : jstring := [10%N].

Example extract_json_fenced :
  extract_json (js "  ```json" ++ newline ++ js "{ {a} }" ++ newline ++ js "``` ")
  = js "{ {a} }".
Proof. vm_compute. reflexivity. Qed.

Example extract_json_prose :
  extract_json (js "Here you go: {x} and {y}. Bye") = js "{x} and {y}".
Proof. vm_compute. reflexivity. Qed.

Example extract_json_brace_never_closed :
  extract_json (js "} then {") = js "} then {".
Proof. vm_compute. reflexivity. Qed.

(** C5 as stated fails on a text that has an opening brace and no closing
    brace after it, such as the JSON string literal made of one opening
    brace: the text is handed to [JSON.parse] whole, and it is not a part
    that runs from an opening brace through a closing brace. *)
Lemma extract_json_unclosed_brace_cex :
  let text := quote ++ js "{" ++ quote in
  mem open_brace (strip_fences (trim text)) = true /\
  extract_json text = text /\
  ~ (exists mid, extract_json text = open_brace :: mid ++ [close_brace]).
Proof.
  intros text. split; [reflexivity|]. split; [reflexivity|].
  intros (mid & H). vm_compute in H. discriminate H.
Qed.

End OrchestratorParsingExamples.

(** ** The orchestrator: the people of a response *)

Section OrchestratorPeople.
Import Values Db Orchestrator.

Lemma lookup_obj_set (k k' : jstring) (v : Value) (fields : list (jstring * Value)) :
  lookup k (obj_set k' v fields)
  = if JStr.eqb k' k then v else lookup k fields.
Proof.
  induction fields as [|[k0 v0] rest IH]; cbn [obj_set lookup].
  - reflexivity.
  - destruct (jstring_eqb_spec k0 k') as [->|Hne]; cbn [lookup].
    + destruct (JStr.eqb k' k); reflexivity.
    + destruct (jstring_eqb_spec k0 k) as [->|Hne'].
      * destruct (jstring_eqb_spec k' k) as [->|]; [contradiction | reflexivity].
      * exact IH.
Qed.

(** The entry has an [emails] array with at least one element. *)
Definition with_emails (person : Value) : Prop :=
  exists first rest, get person (js "emails") = Returned (JArr (first :: rest)).



Lemma filter_step_cases (parsed finalResult : Value) :
  filter_step parsed = Returned finalResult ->
  (exists fields l kept,
      parsed = JObj fields /\ lookup (js "people") fields = JArr l /\
      filter_people l = Returned kept /\
      finalResult = JObj (obj_set (js "people") (JArr kept) fields)) \/
  (finalResult = parsed /\
   forall l, get parsed (js "people") <> Returned (JArr l)).
Proof.
  unfold filter_step.
  destruct (get parsed (js "people")) as [people|] eqn:E; [|discriminate].
  destruct people as [| | | | |l|];
    try (intros [= <-]; right; split; [reflexivity | intros l'; discriminate]).
  destruct (filter_people l) as [kept|] eqn:F; [|discriminate].
  intros [= <-]. left.
  destruct parsed as [| | | | | |fields]; cbn in E; try discriminate.
  injection E as E. exists fields, l, kept. auto.
Qed.








Variable JSON_parse : jstring -> Outcome Value.
Variable generateText : Value -> Outcome jstring.
Variable parseInt_String : Value -> Outcome number.
Variable to_number : Value -> number.
Variable extractDomain : Value -> Outcome (option jstring).

Let handle := onRequest JSON_parse generateText parseInt_String to_number
                extractDomain.


End OrchestratorPeople.

(** ** The orchestrator: what a successful save stores *)

Section SaveStores.
Import Values Db Upsert.
Local Open Scope db_scope.





End SaveStores.

Section SaveLoop.
Import Orchestrator.
Local Open Scope db_scope.

Variable parseInt_String : Value -> Outcome number.
Variable to_number : Value -> number.


(** Every address stored in [employees] afterwards is one of [S] or was
    stored in the same row before. *)
Definition emails_within (S : jstring -> Prop) (t t' : Tables) : Prop :=
  forall r' e, In r' (employees t') -> Employees.email r' = Some e ->
    S e \/ exists r, In r (employees t) /\ Employees.id r = Employees.id r' /\
                     Employees.email r = Some e.

(** [e] is the first element of the [emails] of [person], trimmed. *)
Definition first_email (person : Value) (e : jstring) : Prop :=
  exists emails s,
    get person (js "emails") = Returned emails /\
    index0 emails = Returned (JStr s) /\ e = trim s.

Definition first_emails (people : list Value) (e : jstring) : Prop :=
  exists person, In person people /\ first_email person e.



Lemma emails_within_refl (S : jstring -> Prop) (t : Tables) : emails_within S t t.
Proof. intros r e Hr He. right. now exists r. Qed.

Lemma emails_within_trans (S : jstring -> Prop) (t0 t1 t2 : Tables) :
  emails_within S t0 t1 -> emails_within S t1 t2 -> emails_within S t0 t2.
Proof.
  intros H01 H12 r2 e Hr2 He.
  destruct (H12 r2 e Hr2 He) as [HS|(r1 & Hr1 & Hid & He1)]; [now left|].
  destruct (H01 r1 e Hr1 He1) as [HS|(r0 & Hr0 & Hid0 & He0)]; [now left|].
  right. exists r0. repeat split; congruence.
Qed.

Lemma preserving_weaken (R R' : Tables -> Tables -> Prop) (A : Type) (c : M A) :
  (forall t t', R t t' -> R' t t') -> preserving R c -> preserving R' c.
Proof. intros H Hc d o d' E. apply H. eapply Hc; eassumption. Qed.

Lemma trimmed_or_null_Some (v : Value) (t : jstring) :
  trimmed_or_null v = Returned (Some t) -> exists s, v = JStr s /\ t = trim s.
Proof.
  unfold trimmed_or_null. destruct v; try discriminate. cbn [trim_method].
  destruct (trim s) eqn:E; [discriminate|]. intros [= <-]. now exists s.
Qed.

(** The address that a call of [upsertEmployee] may write. *)
Definition given_email (email : Value) (e : jstring) : Prop :=
  exists s, email = JStr s /\ e = trim s.

Lemma upsertEmployee_emails (cid : Z) (name employeeTitle email : Value) :
  preserving (emails_within (given_email email))
    (upsertEmployee cid name employeeTitle email).
Proof.
  pose proof (@emails_within_refl (given_email email)) as Hrefl.
  pose proof (@emails_within_trans (given_email email)) as Htrans.
  unfold upsertEmployee.
  apply preserving_bind_lift; [assumption|]; intros named _.
  destruct (negb named); [now apply preserving_throw|].
  apply preserving_bind_lift; [assumption|]; intros normalizedName _.
  apply preserving_bind; [assumption| |].
  { apply preserving_stmt; [assumption|]. intros t. apply Hrefl. }
  intros [row|].
  - apply preserving_bind_lift; [assumption|]; intros title _.
    apply preserving_bind_lift; [assumption|]; intros mail Hmail.
    apply preserving_bind; [assumption| |intros; now apply preserving_ret].
    assert (Hu : preserving (emails_within (given_email email))
                   (stmt (update_employee (Employees.id row) title mail))).
    { apply preserving_stmt; [assumption|]. intros t r' e Hr' He.
      cbn [snd update_employee with_employees employees] in Hr'.
      apply in_map_iff in Hr' as (r & <- & Hr).
      destruct (Employees.id r =? Employees.id row)%Z.
      - destruct mail as [x|]; cbn in He.
        + injection He as <-. left.
          apply trimmed_if_nonblank_Some in Hmail as (w & -> & -> & _).
          now exists w.
        + right. exists r. auto.
      - right. exists r. auto. }
    destruct title, mail; first [exact Hu | now apply preserving_ret].
  - apply preserving_bind_lift; [assumption|]; intros title _.
    apply preserving_bind_lift; [assumption|]; intros mail Hmail.
    apply preserving_checked_stmt; [assumption|]. intros t r' e Hr' He.
    cbn [snd insert_employee with_employees employees] in Hr'.
    apply in_app_or in Hr' as [Hr'|[<-|[]]].
    + right. exists r'. auto.
    + cbn in He. subst mail. left.
      apply trimmed_or_null_Some in Hmail as (s & -> & ->). now exists s.
Qed.


(** The three relations kept by one turn of the loop. *)
Section OnePerson.

Variable R : Tables -> Tables -> Prop.
Hypothesis R_refl : forall t, R t t.
Hypothesis R_trans : forall t0 t1 t2, R t0 t1 -> R t1 t2 -> R t0 t2.

Lemma save_person_preserving (cid : Z) (person : Value) :
  (forall name emails email role,
      get person (js "name") = Returned name ->
      get person (js "emails") = Returned emails ->
      index0 emails = Returned email ->
      preserving R (upsertEmployee cid name role email)) ->
  preserving R (save_person to_number cid person).
Proof.
  intros Hup. unfold save_person.
  apply preserving_bind_lift; [assumption|]; intros name Hname.
  destruct (truthy name); [|now apply preserving_ret].
  apply preserving_bind_lift; [assumption|]; intros emails Hemails.
  destruct (truthy emails); [|now apply preserving_ret].
  apply preserving_bind_lift; [assumption|]; intros len _.
  destruct (gt_zero to_number len); [|now apply preserving_ret].
  apply preserving_bind_lift; [assumption|]; intros email Hemail.
  apply preserving_bind_lift; [assumption|]; intros role _.
  apply preserving_bind; [assumption| |intros; now apply preserving_ret].
  eapply Hup; eassumption.
Qed.

Lemma save_each_preserving (cid : Z) (people : list Value) :
  (forall person, In person people ->
     preserving R (save_person to_number cid person)) ->
  preserving R (save_each to_number cid people).
Proof.
  induction people as [|person rest IH]; intros H; cbn [save_each].
  - now apply preserving_ret.
  - apply preserving_bind; [assumption| |].
    + apply H. now left.
    + intros _. apply IH. intros p Hp. apply H. now right.
Qed.

End OnePerson.

End SaveLoop.

Section SaveSuccess.
Import Orchestrator.
Local Open Scope db_scope.

Variable parseInt_String : Value -> Outcome number.
Variable to_number : Value -> number.






Lemma save_person_frame (cid : Z) (person : Value) :
  preserves (save_person to_number cid person).
Proof.
  apply save_person_preserving; [apply frame_refl | apply frame_trans|].
  intros. apply upsertEmployee_preserves.
Qed.



End SaveSuccess.

Section SaveBlock.
Import Orchestrator.
Local Open Scope db_scope.

Variable parseInt_String : Value -> Outcome number.
Variable to_number : Value -> number.

(** The [employees] table and its sequence are not touched. *)
Definition same_employees (t t' : Tables) : Prop :=
  employees t' = employees t /\ employees_seq t' = employees_seq t.

Lemma upsertCompany_employees (companyName website : Value)
    (additionalData : option AdditionalData) :
  preserving same_employees (upsertCompany companyName website additionalData).
Proof.
  assert (Hrefl : forall t, same_employees t t) by (split; reflexivity).
  assert (Htrans : forall t0 t1 t2, same_employees t0 t1 -> same_employees t1 t2 ->
                                    same_employees t0 t2)
    by (unfold same_employees; intros t0 t1 t2 [] []; split; congruence).
  unfold upsertCompany.
  apply preserving_bind_lift; [assumption|]; intros named _.
  destruct (negb named); [now apply preserving_throw|].
  apply preserving_bind_lift; [assumption|]; intros normalizedName _.
  apply preserving_bind_lift; [assumption|]; intros site _.
  apply preserving_bind; [assumption| |].
  { apply preserving_stmt; [assumption|]. intros t. split; reflexivity. }
  intros existing.
  apply preserving_bind_lift; [assumption|]; intros u _.
  destruct existing as [row|].
  - apply preserving_bind; [assumption| |intros; now apply preserving_ret].
    destruct (has_fields u); [|now apply preserving_ret].
    apply preserving_stmt; [assumption|]. intros t. split; reflexivity.
  - apply preserving_bind_lift; [assumption|]; intros inserted_site _.
    apply preserving_stmt; [assumption|]. intros t. split; reflexivity.
Qed.

Section AnyRelation.

Variable R : Tables -> Tables -> Prop.
Hypothesis R_refl : forall t, R t t.
Hypothesis R_trans : forall t0 t1 t2, R t0 t1 -> R t1 t2 -> R t0 t2.

Lemma save_people_preserving (cid : Z) (people : Value) :
  (forall l person, people = JArr l -> In person l ->
     preserving R (save_person to_number cid person)) ->
  preserving R (save_people to_number cid people).
Proof.
  intros H. destruct people; cbn [save_people]; try now apply preserving_throw.
  - apply save_each_preserving; [assumption..|].
    intros person Hp. apply in_map_iff in Hp as (c & <- & _).
    unfold save_person. apply preserving_bind_lift; [assumption|].
    intros name Hname. cbn in Hname. injection Hname as <-.
    now apply preserving_ret.
  - apply save_each_preserving; [assumption..|].
    intros person Hp. now apply (H items).
Qed.

Lemma save_preserving (finalResult : list (jstring * Value)) :
  (forall companyName website additionalData,
     preserving R (upsertCompany companyName website additionalData)) ->
  (forall cid l person, lookup (js "people") finalResult = JArr l -> In person l ->
     preserving R (save_person to_number cid person)) ->
  preserving R (save parseInt_String to_number finalResult).
Proof.
  intros Hc Hp. unfold save.
  apply preserving_bind_lift; [assumption|]; intros named _.
  destruct named; [|now apply preserving_ret].
  apply preserving_bind_lift; [assumption|]; intros companyData _.
  apply preserving_bind; [assumption|apply Hc|].
  intros cid. apply save_people_preserving. intros l person E. now apply Hp.
Qed.

End AnyRelation.

Lemma save_frame (finalResult : list (jstring * Value)) :
  preserves (save parseInt_String to_number finalResult).
Proof.
  apply save_preserving; [apply frame_refl | apply frame_trans | |].
  - intros. apply upsertCompany_preserves.
  - intros. apply save_person_frame.
Qed.

Lemma save_emails (finalResult : list (jstring * Value)) (people : list Value) :
  lookup (js "people") finalResult = JArr people ->
  preserving (emails_within (first_emails people))
    (save parseInt_String to_number finalResult).
Proof.
  intros Hpeople.
  apply save_preserving; [apply emails_within_refl | apply emails_within_trans | |].
  - intros. eapply preserving_weaken; [|apply upsertCompany_employees].
    intros t t' [E _] r' e Hr' He. right. exists r'. rewrite <- E. auto.
  - intros cid l person El Hin. rewrite Hpeople in El. injection El as <-.
    apply save_person_preserving;
      [apply emails_within_refl | apply emails_within_trans |].
    intros name emails email role _ Hemails Hfirst.
    eapply preserving_weaken; [|apply upsertEmployee_emails].
    intros t t'. unfold emails_within. intros H r' e Hr' He.
    destruct (H r' e Hr' He) as [(s & -> & ->)|H']; [|now right].
    left. exists person. split; [assumption|]. now exists emails, s.
Qed.


End SaveBlock.

Section SaveTotal.
Import Orchestrator.
Local Open Scope db_scope.

Variable parseInt_String : Value -> Outcome number.
Variable to_number : Value -> number.

Lemma text_entry_typed (v : Value) :
  text_or_nullish v -> exists e, text_entry v = Returned e.
Proof.
  intros [->|[->|[x ->]]]; cbn; eauto. destruct (trim x); eauto.
Qed.

Lemma trimmed_or_null_typed (v : Value) :
  text_or_nullish v -> exists t, trimmed_or_null v = Returned t.
Proof.
  intros [->|[->|[x ->]]]; cbn; eauto. destruct (trim x); eauto.
Qed.

Lemma build_updateData_typed (site : option jstring)
    (additionalData : option AdditionalData) :
  typed_data additionalData ->
  exists u, build_updateData site additionalData = Returned u.
Proof.
  unfold build_updateData. destruct additionalData as [a|]; [|eauto].
  intros (H1 & H2 & H3 & H4 & H5 & H6).
  destruct (text_entry_typed H1) as [? ->], (text_entry_typed H2) as [? ->],
           (text_entry_typed H3) as [? ->], (text_entry_typed H4) as [? ->],
           (text_entry_typed H5) as [? ->], (text_entry_typed H6) as [? ->].
  eauto.
Qed.



(** A value read from the result that is missing or falsy, or a string. *)
Definition text_or_falsy (v : Value) : Prop :=
  truthy v = false \/ exists s, v = JStr s.


(** An entry of [people] as the output schema of the prompt describes it:
    a name that is a non-blank string (or no name), a role and a first
    address that are strings when they are given. *)
Definition well_formed_person (person : Value) : Prop :=
  with_emails person /\
  (exists name, get person (js "name") = Returned name /\
                (truthy name = false \/ exists n, name = JStr n /\ trim n <> [])) /\
  (exists role, get person (js "role") = Returned role /\ text_or_falsy role) /\
  (forall emails first,
     get person (js "emails") = Returned emails ->
     index0 emails = Returned first -> text_or_nullish first).



(** The fields of the result that the save reads are of the types of the
    output schema. *)
Definition well_formed_result (finalResult : list (jstring * Value)) : Prop :=
  text_or_falsy (lookup (js "website") finalResult) /\
  exists companyData,
    company_data parseInt_String finalResult = Returned companyData /\
    typed_data (Some companyData).


End SaveTotal.

Section SaveFirstEmail.
Import Orchestrator.
Local Open Scope db_scope.

Variable parseInt_String : Value -> Outcome number.
Variable to_number : Value -> number.

(** The primary key of [employees]: the ids of the stored rows are pairwise
    different, and none is beyond the last id given by AUTOINCREMENT. *)
Definition employees_keyed (t : Tables) : Prop :=
  NoDup (List.map Employees.id (employees t)) /\
  Forall (fun r => (Employees.id r <= employees_seq t)%Z) (employees t).







(** Two persons whose names differ by more than the case of ASCII
    letters. *)
Definition other_name (p q : Value) : Prop :=
  forall n m, get p (js "name") = Returned (JStr n) ->
              get q (js "name") = Returned (JStr m) ->
              sql_lower (trim n) <> sql_lower (trim m).






End SaveFirstEmail.

(** ** The orchestrator: saving the result *)

Section OrchestratorSave.
Import Orchestrator.

Variable JSON_parse : jstring -> Outcome Value.
Variable generateText : Value -> Outcome jstring.
Variable parseInt_String : Value -> Outcome number.
Variable to_number : Value -> number.
Variable extractDomain : Value -> Outcome (option jstring).

Let handle := onRequest JSON_parse generateText parseInt_String to_number
                extractDomain.

(** The run of a request whose result passes the filter with somebody
    left. *)
Lemma onRequest_saving (request state : Value) (d : D1) (q : Value)
    (text : jstring) (parsed : Value) (fields : list (jstring * Value))
    (people : list Value) :
  get request (js "query") = Returned q -> truthy q = true ->
  generateText q = Returned text ->
  JSON_parse (extract_json text) = Returned parsed ->
  filter_step parsed = Returned (JObj fields) ->
  lookup (js "people") fields = JArr people -> people <> [] ->
  handle request state d
  = {| response :=
         match favicon_of extractDomain (JObj fields) with
         | Threw m => Threw m
         | Returned favicon =>
             Returned {| status := 200; content_type := json;
                         body := final_body (JObj fields) favicon state |}
         end;
       database := snd (save parseInt_String to_number fields d);
       console_errors :=
         match fst (save parseInt_String to_number fields d) with
         | Returned _ => []
         | Threw _ => [save_error]
         end |}.
Proof.
  intros Hq Htruthy Htext Hparse Hfilter Hpeople Hne.
  unfold handle, onRequest. cbv zeta. rewrite Hq.
  unfold js_or. rewrite Htruthy, Htruthy. cbn [negb].
  rewrite Htext, Hparse, Hfilter.
  unfold people_length. cbn [get]. rewrite Hpeople. cbn [get].
  rewrite jstring_eqb_refl.
  assert (Hlen : truthy (JNum (Int (Z.of_nat (length people)))) = true).
  { destruct people; [contradiction|]. reflexivity. }
  rewrite Hlen. cbn [negb].
  destruct (save parseInt_String to_number fields d) as [saved d'].
  cbn [fst snd].
  destruct (favicon_of extractDomain (JObj fields)); reflexivity.
Qed.


End OrchestratorSave.

Section OrchestratorExamples.
Import Orchestrator.

Definition qs (s : jstring) : jstring := quote ++ s ++ quote.

(** [{"company":"Acme","people":[{"name":"Bob","emails":["bob@acme.io"]},
    {"name":"Eve","emails":[]}]}] *)
Definition text_acme : jstring :=
  js "{" ++ qs (js "company") ++ js ":" ++ qs (js "Acme") ++ js ","
  ++ qs (js "people") ++ js ":[{" ++ qs (js "name") ++ js ":" ++ qs (js "Bob")
  ++ js "," ++ qs (js "emails") ++ js ":[" ++ qs (js "bob@acme.io") ++ js "]},{"
  ++ qs (js "name") ++ js ":" ++ qs (js "Eve") ++ js ","
  ++ qs (js "emails") ++ js ":[]}]}".

Definition bob_person : Value :=
  JObj [(js "name", JStr (js "Bob")); (js "emails", JArr [JStr (js "bob@acme.io")])].

Definition value_acme : Value :=
  JObj [(js "company", JStr (js "Acme"));
        (js "people",
         JArr [bob_person;
               JObj [(js "name", JStr (js "Eve")); (js "emails", JArr [])]])].

(** [{"company":"Acme","people":[{"name":" ","emails":["x@acme.io"]},
    {"name":"Bob","emails":["bob@acme.io"]}]}] *)
Definition text_blank_name : jstring :=
  js "{" ++ qs (js "company") ++ js ":" ++ qs (js "Acme") ++ js ","
  ++ qs (js "people") ++ js ":[{" ++ qs (js "name") ++ js ":" ++ qs (js " ")
  ++ js "," ++ qs (js "emails") ++ js ":[" ++ qs (js "x@acme.io") ++ js "]},{"
  ++ qs (js "name") ++ js ":" ++ qs (js "Bob") ++ js ","
  ++ qs (js "emails") ++ js ":[" ++ qs (js "bob@acme.io") ++ js "]}]}".

Definition value_blank_name : Value :=
  JObj [(js "company", JStr (js "Acme"));
        (js "people",
         JArr [JObj [(js "name", JStr (js " "));
                     (js "emails", JArr [JStr (js "x@acme.io")])];
               bob_person])].

(** [{"people":[]}] *)
Definition text_nobody : jstring := js "{" ++ qs (js "people") ++ js ":[]}".
Definition value_nobody : Value := JObj [(js "people", JArr [])].

(** A [JSON.parse] that knows the three texts above. *)
Definition sample_parse (t : jstring) : Outcome Value :=
  if JStr.eqb t text_acme then Returned value_acme
  else if JStr.eqb t text_blank_name then Returned value_blank_name
  else if JStr.eqb t text_nobody then Returned value_nobody
  else Threw (js "SyntaxError").

(** A model that answers by the query. *)
Definition sample_generateText (q : Value) : Outcome jstring :=
  match q with
  | JStr s =>
      if JStr.eqb s (js "acme")
      then Returned (js "```json" ++ newline ++ text_acme ++ newline ++ js "```")
      else if JStr.eqb s (js "blank") then Returned text_blank_name
      else if JStr.eqb s (js "nobody") then Returned (js "Sure: " ++ text_nobody)
      else Returned (js "I could not find anything.")
  | _ => Threw (js "bad prompt")
  end.

Definition sample_parseInt (v : Value) : Outcome number :=
  match v with JNum n => Returned n | _ => Returned NaN end.

Definition sample_to_number (v : Value) : number := NaN.

Definition sample_extractDomain (v : Value) : Outcome (option jstring) :=
  Returned None.

Definition sample_handle : Value -> Value -> D1 -> Run :=
  onRequest sample_parse sample_generateText sample_parseInt sample_to_number
    sample_extractDomain.

Definition query (s : jstring) : Value := JObj [(js "query", JStr s)].

Definition empty_d1 : D1 :=
  {| tables := {| company_profiles := []; employees := []; companies := [];
                  company_profiles_seq := 0; employees_seq := 0;
                  companies_seq := 0;
                  current_timestamp := js "2025-06-01 12:00:00" |};
     failures := [] |}.

Example orchestrator_acme :
  let run := sample_handle (query (js "acme")) JNull empty_d1 in
  console_errors run = [] /\
  List.map CompanyProfiles.companyName (company_profiles (tables (database run)))
  = [js "Acme"] /\
  List.map (fun r => (Employees.employeeName r, Employees.email r,
                      Employees.companyId r))
    (employees (tables (database run)))
  = [(js "Bob", Some (js "bob@acme.io"), Some 1%Z)] /\
  response run
  = Returned {| status := 200; content_type := json;
                body := JObj [(js "company", JStr (js "Acme"));
                              (js "people", JArr [bob_person]);
                              (js "favicon", JNull); (js "state", JNull)] |}.
Proof. vm_compute. repeat split; reflexivity. Qed.

Example orchestrator_unparsable :
  sample_handle (query (js "anything else")) JNull empty_d1
  = {| response := Returned parsing_error; database := empty_d1;
       console_errors := [] |}.
Proof. vm_compute. reflexivity. Qed.

(** A failure of the database on the first statement of the save changes
    neither the status nor the body of the response. *)
Example orchestrator_database_down :
  let down := {| tables := tables empty_d1; failures := [true] |} in
  let run := sample_handle (query (js "acme")) JNull down in
  console_errors run = [save_error] /\
  tables (database run) = tables empty_d1 /\
  response run = response (sample_handle (query (js "acme")) JNull empty_d1).
Proof. vm_compute. repeat split; reflexivity. Qed.






(** The sample result and its person are well formed, so that the run
    over the empty database logs nothing. *)
Example acme_well_formed :
  failures empty_d1 = [] /\
  well_formed_result sample_parseInt
    [(js "company", JStr (js "Acme")); (js "people", JArr [bob_person])] /\
  Forall well_formed_person [bob_person].
Proof.
  split; [reflexivity|]. split.
  - split; [now left|]. eexists. split; [reflexivity|].
    repeat split; right; now left.
  - constructor; [|constructor]. repeat split.
    + now exists (JStr (js "bob@acme.io")), [].
    + exists (JStr (js "Bob")). split; [reflexivity|]. right.
      exists (js "Bob"). split; [reflexivity | discriminate].
    + exists JUndefined. split; [reflexivity | now left].
    + intros emails first Hemails Hfirst. cbn in Hemails.
      injection Hemails as <-. cbn in Hfirst. injection Hfirst as <-.
      right. right. now eexists.
Qed.


Example acme_keyed_and_named :
  employees_keyed (tables empty_d1) /\ ForallOrdPairs other_name [bob_person].
Proof. split; [split; constructor | repeat constructor]. Qed.

End OrchestratorExamples.

(** ** Populating the vector index *)

Section VectorizeFacts.
Import Vectorize.

Lemma lefts_In (A B : Type) (f : A -> B + Value) (l : list A) (x : A) (v : B) :
  In x l -> f x = inl v -> In v (lefts (List.map f l)).
Proof.
  induction l as [|a l IH]; intros Hx Hf; [contradiction|].
  cbn [List.map lefts]. destruct Hx as [->|Hx].
  - rewrite Hf. now left.
  - destruct (f a); [right|]; now apply IH.
Qed.

Lemma populateCompanies_keys (env : Bindings) (d : D1) (k : jstring) :
  In k (keys (result (populateCompanies env d))) ->
  In k [js "success"; js "error"; js "message"; js "errors"; js "details"].
Proof.
  unfold populateCompanies.
  destruct (stmt select_companies d) as [[[|company rest]|m] d'].
  - cbn. tauto.
  - destruct (lefts (List.map (embed_company env) (company :: rest)))
      as [|v vs].
    + cbn. tauto.
    + destruct (COMPANY_VECTORS_insert env (v :: vs)); cbn; tauto.
  - cbn. tauto.
Qed.

(** The vectors the index is to receive for the rows read: for each row
    whose text the embedding model answers with data, in the order of the
    rows, the vector [company_<id>] with the first row of the data and the
    metadata of the row. *)
Definition vectors_due (env : Bindings) (rows : list CompanyProfiles.row)
  : list Vector :=
  List.flat_map
    (fun company =>
       match AI_run env embedding_model (textToEmbed company) with
       | Returned (Some data) =>
           [{| vector_id := js "company_" ++ js_of_Z (CompanyProfiles.id company);
               values := hd_error data;
               metadata := metadata_of company |}]
       | _ => []
       end)
    rows.

(** Every row has a vector in the batch. *)
Definition every_row_inserted (rows : list CompanyProfiles.row) (run : Populated)
  : Prop :=
  forall company,
    In company rows ->
    exists batch v,
      inserted run = Some batch /\ In v batch /\
      vector_id v = js "company_" ++ js_of_Z (CompanyProfiles.id company).

Lemma lefts_embed_company (env : Bindings) (rows : list CompanyProfiles.row) :
  lefts (List.map (embed_company env) rows) = vectors_due env rows.
Proof.
  induction rows as [|company rows IH]; [reflexivity|].
  cbn [List.map vectors_due List.flat_map]. fold (vectors_due env rows).
  rewrite <- IH. unfold embed_company, embed_call. cbn [snd].
  destruct (AI_run env embedding_model (textToEmbed company)) as [[[|row data]|]|m];
    reflexivity.
Qed.

Lemma select_companies_cases (d : D1) :
  (exists d', stmt select_companies d = (Returned (company_profiles (tables d)), d')
              /\ tables d' = tables d) \/
  (exists d', stmt select_companies d = (Threw d1_error, d')
              /\ tables d' = tables d).
Proof.
  unfold stmt. destruct (failures d) as [|[|] rest]; cbn;
    [left|right|left]; eexists; split; reflexivity.
Qed.

(** C10 (amended). With the same bindings and the same database, the route
    for populating company vectors does the same for any two pairs of offset
    and limit: same response, same texts sent to the embedding model, same
    batch given to the index. None of the fields [processed], [total],
    [hasMore], [nextOffset] is a key of the returned object. Whatever the
    offset and the limit, the [SELECT] either fails, and then nothing is
    embedded or inserted and the status is 500, or it returns all the rows of
    [company_profiles]; then the text of every row is sent to the embedding
    model, in the order of the rows, and the index is given, in one batch and
    in that order, the vector [company_<id>] of every row whose embedding
    returned data, with the first row of the data and the metadata of the
    row; when no embedding returned data the index is not called. So every
    row has a vector in the batch when every embedding returns data. *)
Theorem populate_ignores_offset_and_limit (env : Bindings) (d : D1) :
  (forall offset1 limit1 offset2 limit2,
     populate_companies_route env offset1 limit1 d
     = populate_companies_route env offset2 limit2 d) /\
  (forall offset limit k,
     In k pagination_fields ->
     ~ In k (keys (body (fst (populate_companies_route env offset limit d))))) /\
  (forall offset limit,
     let resp := fst (populate_companies_route env offset limit d) in
     let run := snd (populate_companies_route env offset limit d) in
     let rows := company_profiles (tables d) in
     tables (database run) = tables d /\
     ((fst (stmt select_companies d) = Threw d1_error /\
       embedded run = [] /\ inserted run = None /\ status resp = 500) \/
      (fst (stmt select_companies d) = Returned rows /\
       embedded run = List.map textToEmbed rows /\
       inserted run = match vectors_due env rows with
                      | [] => None
                      | v :: vs => Some (v :: vs)
                      end /\
       ((forall company, In company rows ->
           exists data, AI_run env embedding_model (textToEmbed company)
                        = Returned (Some data)) ->
        every_row_inserted rows run)))).
Proof.
  split; [|split].
  - reflexivity.
  - intros offset limit k Hk Hin. cbn [populate_companies_route fst body] in Hin.
    apply populateCompanies_keys in Hin.
    cbn in Hk, Hin.
    repeat match goal with H : _ \/ _ |- _ => destruct H end;
      try contradiction; subst; discriminate.
  - intros offset limit resp run rows. subst resp run rows.
    cbn [populate_companies_route fst snd status]. unfold populateCompanies.
    destruct (select_companies_cases d) as [(d' & -> & Ht)|(d' & -> & Ht)].
    2:{ cbn. split; [exact Ht|]. left. auto. }
    cbn [fst]. rewrite lefts_embed_company.
    assert (Hall : forall rows,
               (forall company, In company rows ->
                  exists data, AI_run env embedding_model (textToEmbed company)
                               = Returned (Some data)) ->
               forall company, In company rows ->
                 exists v, In v (vectors_due env rows) /\
                           vector_id v
                           = js "company_" ++ js_of_Z (CompanyProfiles.id company)).
    { intros rows Hdata company Hin. destruct (Hdata company Hin) as (data & E).
      eexists. split.
      - unfold vectors_due. apply in_flat_map. exists company. split; [exact Hin|].
        rewrite E. left. reflexivity.
      - reflexivity. }
    destruct (company_profiles (tables d)) as [|company rest] eqn:Hrows.
    { cbn. split; [exact Ht|]. right. repeat split; try reflexivity.
      intros _ c []. }
    destruct (vectors_due env (company :: rest)) as [|v0 vs] eqn:Hdue.
    + cbn [database embedded inserted]. split; [exact Ht|]. right.
      split; [reflexivity|]. split; [reflexivity|]. split; [reflexivity|].
      intros Hdata c Hc. destruct (Hall _ Hdata c Hc) as (v & Hv & _).
      rewrite Hdue in Hv. contradiction.
    + destruct (COMPANY_VECTORS_insert env (v0 :: vs));
        cbn [database embedded inserted]; (split; [exact Ht|]); right;
        (split; [reflexivity|]); (split; [reflexivity|]);
        (split; [reflexivity|]); intros Hdata c Hc;
        destruct (Hall _ Hdata c Hc) as (v & Hv & Hid);
        rewrite Hdue in Hv; exists (v0 :: vs), v; auto.
Qed.

Definition sample_bindings : Bindings :=
  {| AI_run := fun _ text =>
       if JStr.eqb text (js "Broken   ") then Threw (js "model unavailable")
       else Returned (Some [[Int 1; Int 2]]);
     COMPANY_VECTORS_insert := fun vs =>
       Returned (JObj [(js "count", JNum (Int (Z.of_nat (length vs))))]) |}.

Definition broken : CompanyProfiles.row :=
  {| CompanyProfiles.id := 2; CompanyProfiles.companyName := js "Broken";
     CompanyProfiles.website := None; CompanyProfiles.yearFounded := None;
     CompanyProfiles.description := None; CompanyProfiles.techStack := None;
     CompanyProfiles.employeeCountMin := None;
     CompanyProfiles.employeeCountMax := None;
     CompanyProfiles.revenue := None; CompanyProfiles.funding := None;
     CompanyProfiles.headquarters := None; CompanyProfiles.industry := None;
     CompanyProfiles.createdAt := None |}.

Definition two_companies : D1 :=
  {| tables := {| company_profiles := [acme; broken]; employees := [];
                  companies := []; company_profiles_seq := 2; employees_seq := 0;
                  companies_seq := 0;
                  current_timestamp := js "2025-06-01 12:00:00" |};
     failures := [] |}.

(** C10 as stated fails when the embedding of a row fails: the row is
    reported in [errors], the index is given the vectors of the other rows
    only, and the route answers 200. *)
Lemma populate_skips_failed_embedding_cex :
  let run :=
    populate_companies_route sample_bindings (Int 0) (Int 50) two_companies in
  company_profiles (tables two_companies) = [acme; broken] /\
  status (fst run) = 200 /\
  embedded (snd run) = [js "Acme Rockets  "; js "Broken   "] /\
  option_map (List.map vector_id) (inserted (snd run)) = Some [js "company_1"] /\
  ~ every_row_inserted (company_profiles (tables two_companies)) (snd run).
Proof.
  intros run. split; [reflexivity|]. split; [reflexivity|].
  split; [vm_compute; reflexivity|]. split; [vm_compute; reflexivity|].
  intros H. destruct (H broken) as (batch & v & Hb & Hv & Hid).
  { right. left. reflexivity. }
  vm_compute in Hb. injection Hb as <-.
  destruct Hv as [<-|[]]. vm_compute in Hid. discriminate.
Qed.

Example populate_two_companies :
  let '(resp, run) :=
    populate_companies_route sample_bindings (Int 1) (Int 1) two_companies in
  status resp = 200 /\
  embedded run = [js "Acme Rockets  "; js "Broken   "] /\
  option_map (List.map vector_id) (inserted run) = Some [js "company_1"] /\
  lookup (js "message") (match body resp with JObj f => f | _ => [] end)
  = JStr (js "Populated 1 company vectors").
Proof. vm_compute. repeat split; reflexivity. Qed.

End VectorizeFacts.

(** ** The finder agents *)

Section AgentFacts.
Import Agents.

(** The database answers the next statement. *)
Definition answers (d : D1) : Prop := hd false (failures d) = false.

Lemma query_companies_answers (p : Companies.row -> bool) (d : D1) :
  answers d ->
  exists d', query_companies p d = (Returned (filter p (companies (tables d))), d')
             /\ tables d' = tables d.
Proof.
  unfold answers, query_companies, stmt.
  destruct (failures d) as [|[|] rest]; cbn; intros H; try discriminate;
    eexists; split; reflexivity.
Qed.

Lemma opt_text_eqb_spec (a b : option jstring) : reflect (a = b) (opt_text_eqb a b).
Proof.
  destruct a as [x|], b as [y|]; cbn; try (constructor; congruence).
  destruct (jstring_eqb_spec x y); constructor; congruence.
Qed.

Lemma people_row_eqb_spec (a b : PeopleRow) : reflect (a = b) (people_row_eqb a b).
Proof.
  destruct a as [a1 a2 a3 a4], b as [b1 b2 b3 b4]. unfold people_row_eqb. cbn.
  destruct (jstring_eqb_spec a1 b1); [|constructor; congruence].
  destruct (opt_text_eqb_spec a2 b2); [|constructor; congruence].
  destruct (jstring_eqb_spec a3 b3); [|constructor; congruence].
  destruct (opt_text_eqb_spec a4 b4); constructor; congruence.
Qed.

Lemma distinct_from_In (seen rows : list PeopleRow) (x : PeopleRow) :
  In x (distinct_from seen rows) <-> In x rows /\ ~ In x seen.
Proof.
  revert seen; induction rows as [|r rest IH]; intros seen; cbn [distinct_from].
  - cbn. tauto.
  - destruct (existsb (people_row_eqb r) seen) eqn:E.
    + apply existsb_exists in E as (y & Hy & Ey).
      destruct (people_row_eqb_spec r y); [subst y | discriminate].
      rewrite IH. cbn. split; [tauto|].
      intros [[<-|H] Hn]; [contradiction | tauto].
    + assert (Hr : ~ In r seen).
      { intros H. assert (existsb (people_row_eqb r) seen = true); [|congruence].
        apply existsb_exists. exists r. split; [assumption|].
        now destruct (people_row_eqb_spec r r). }
      cbn. rewrite IH. cbn. split.
      * intros [<-|[H1 H2]]; [tauto|]. split; [tauto|]. intros H; apply H2; tauto.
      * intros [[<-|H] H2]; [tauto|].
        destruct (people_row_eqb_spec r x) as [->|Hne]; [tauto|].
        right. split; [assumption|]. intros [E'|H3]; [congruence | contradiction].
Qed.

Lemma distinct_In (rows : list PeopleRow) (x : PeopleRow) :
  In x (distinct rows) <-> In x rows.
Proof. unfold distinct. rewrite distinct_from_In. cbn. tauto. Qed.

Lemma lower_eq_true (a b : jstring) :
  lower_eq a b = true <-> sql_lower a = sql_lower b.
Proof.
  unfold lower_eq. destruct (jstring_eqb_spec (sql_lower a) (sql_lower b));
    split; congruence.
Qed.

Variable normalizeUrl : option jstring -> option jstring.
Variable exa : Tools.ExaClient.
Variable env : Tools.Env.
Variable JSON_parse : jstring -> Outcome Value.
Variable JSON_stringify : Value -> jstring.
Variable is_url : jstring -> bool.
Variable people_generateText : PeoplePrompt -> Outcome jstring.
Variable email_generateText : EmailPrompt -> Outcome jstring.
Variable verifyEmail : Value -> Outcome jstring.

Let people_handle :=
  peopleFinder_onRequest normalizeUrl exa env JSON_parse is_url people_generateText.
Let email_handle :=
  emailFinder_onRequest normalizeUrl JSON_parse JSON_stringify email_generateText
    verifyEmail.

(** C8 (amended). When the lookup in the [companies] table is answered:
    a [PeopleFinder] request whose company name is not empty and equals,
    up to the case of ASCII letters, the [company_name] of a stored row is
    answered with the stored people of that company; an [EmailFinder]
    request whose employee name (first and last name joined and trimmed) is
    neither empty nor the word ["Unknown"] and equals, up to case, the
    [employee_name] of a stored row is answered with at most three of the
    stored addresses and a summary that counts them all as verified. In both
    cases the agent makes no web search, no call of the model and no
    verification, and the tables are as they were. *)
Theorem finders_answer_from_the_database :
  (forall request state d c,
     company request = Some c -> c <> [] -> answers d ->
     (exists r, In r (companies (tables d)) /\
                sql_lower (Companies.company_name r) = sql_lower c) ->
     let run := people_handle request state d in
     people_events run = [] /\
     tables (people_database run) = tables d /\
     exists found,
       people_response run
       = {| people_status := 200; people_body := PeopleFound found state |} /\
       (exists r, In r (companies (tables d)) /\
                  sql_lower (Companies.company_name r) = sql_lower c /\
                  people_company found = Companies.company_name r) /\
       (forall p, In p (people found) <->
          exists r, In r (companies (tables d)) /\
                    sql_lower (Companies.company_name r) = sql_lower c /\
                    p = person_of (people_row r))) /\
  (forall request state d employeeName,
     employeeName
     = trim (or_empty (req_firstName request) ++ js " "
             ++ or_empty (req_lastName request)) ->
     employeeName <> [] -> employeeName <> unknown -> answers d ->
     (exists r, In r (companies (tables d)) /\
                sql_lower (Companies.employee_name r) = sql_lower employeeName) ->
     let run := email_handle request state d in
     email_events run = [] /\
     tables (email_database run) = tables d /\
     exists found r,
       email_response run = Returned {| email_status := 200; email_body := found |} /\
       In r (companies (tables d)) /\
       sql_lower (Companies.employee_name r) = sql_lower employeeName /\
       emails found = firstn 3 (stored_emails JSON_parse (Companies.email r)) /\
       length (emails found) <= 3 /\
       body_company_name found = Companies.company_name r /\
       body_employee_title found = or_empty (Companies.employee_title r) /\
       verification_summary found
       = summary (length (emails found)) (length (emails found))).
Proof.
  split.
  - intros request state d c Hc Hne Hans (r & Hr & Hm) run. subst run.
    unfold people_handle, peopleFinder_onRequest. rewrite Hc. cbn [or_empty].
    destruct c as [|c0 c']; [contradiction|].
    unfold checkPeopleInDB.
    destruct (query_companies_answers
                (fun r => lower_eq (Companies.company_name r) (c0 :: c')) Hans)
      as (d' & -> & Ht).
    set (rows := filter (fun r => lower_eq (Companies.company_name r) (c0 :: c'))
                   (companies (tables d))).
    assert (Hrows : forall x, In x rows <->
              In x (companies (tables d)) /\
              sql_lower (Companies.company_name x) = sql_lower (c0 :: c')).
    { intros x. unfold rows. rewrite filter_In, lower_eq_true. tauto. }
    destruct (distinct (List.map people_row rows)) as [|first rest] eqn:Hd.
    + exfalso. assert (H : In (people_row r) (distinct (List.map people_row rows))).
      { apply distinct_In, in_map, Hrows. auto. }
      rewrite Hd in H. exact H.
    + cbn [people_events people_database people_response].
      split; [reflexivity|]. split; [exact Ht|].
      eexists. split; [reflexivity|]. cbn [people_company people]. split.
      * assert (H : In first (distinct (List.map people_row rows))).
        { rewrite Hd. now left. }
        apply distinct_In, in_map_iff in H as (x & <- & Hx).
        apply Hrows in Hx as [Hx1 Hx2]. exists x. auto.
      * intros p. rewrite <- Hd, in_map_iff. split.
        -- intros (pr & <- & Hpr).
           apply distinct_In, in_map_iff in Hpr as (x & <- & Hx).
           apply Hrows in Hx as [Hx1 Hx2]. exists x. auto.
        -- intros (x & Hx1 & Hx2 & ->). exists (people_row x). split; [reflexivity|].
           apply distinct_In, in_map, Hrows. auto.
  - intros request state d employeeName -> Hne Hunk Hans (r & Hr & Hm) run.
    subst run. unfold email_handle, emailFinder_onRequest. cbv zeta.
    set (employeeName := trim (or_empty (req_firstName request) ++ js " "
                               ++ or_empty (req_lastName request))) in *.
    destruct (jstring_eqb_spec employeeName []) as [|_]; [contradiction|].
    destruct (jstring_eqb_spec employeeName unknown) as [|_]; [contradiction|].
    cbn [negb andb]. unfold checkEmailsInDB.
    destruct (query_companies_answers
                (fun r => lower_eq (Companies.employee_name r) employeeName) Hans)
      as (d' & -> & Ht).
    destruct (filter (fun r => lower_eq (Companies.employee_name r) employeeName)
                (companies (tables d))) as [|result rest] eqn:Hf.
    + exfalso. assert (H : In r (filter (fun r => lower_eq (Companies.employee_name r)
                                           employeeName) (companies (tables d)))).
      { apply filter_In. split; [assumption | now apply lower_eq_true]. }
      rewrite Hf in H. exact H.
    + assert (H : In result (filter (fun r => lower_eq (Companies.employee_name r)
                                       employeeName) (companies (tables d)))).
      { rewrite Hf. now left. }
      apply filter_In in H as [H1 H2]. apply lower_eq_true in H2.
      cbn [email_events email_database email_response].
      split; [reflexivity|]. split; [exact Ht|].
      eexists. exists result. split; [reflexivity|].
      cbn [emails body_company_name body_employee_title verification_summary].
      repeat split; try assumption. apply firstn_le_length.
Qed.

End AgentFacts.

Section AgentExamples.
Import Agents.

(** [["ada@maths.io","a.lovelace@maths.io","al@maths.io","x@maths.io"]] *)
Definition text_four_emails : jstring :=
  js "[" ++ qs (js "ada@maths.io") ++ js "," ++ qs (js "a.lovelace@maths.io")
  ++ js "," ++ qs (js "al@maths.io") ++ js "," ++ qs (js "x@maths.io") ++ js "]".

Definition four_emails : list Value :=
  [JStr (js "ada@maths.io"); JStr (js "a.lovelace@maths.io");
   JStr (js "al@maths.io"); JStr (js "x@maths.io")].

(** [{"emails":["guess@who.io"],"employee_title":"CEO"}] *)
Definition text_guess : jstring :=
  js "{" ++ qs (js "emails") ++ js ":[" ++ qs (js "guess@who.io") ++ js "],"
  ++ qs (js "employee_title") ++ js ":" ++ qs (js "CEO") ++ js "}".

Definition agents_parse (t : jstring) : Outcome Value :=
  if JStr.eqb t text_four_emails then Returned (JArr four_emails)
  else if JStr.eqb t text_guess
  then Returned (JObj [(js "emails", JArr [JStr (js "guess@who.io")]);
                       (js "employee_title", JStr (js "CEO"))])
  else Threw (js "SyntaxError").

Definition agents_stringify (v : Value) : jstring := js "[...]".

Definition ada_row : Companies.row :=
  {| Companies.id := 1; Companies.company_name := js "Maths Ltd";
     Companies.website := Some (js "maths.io");
     Companies.employee_name := js "Ada Lovelace";
     Companies.employee_title := Some (js "Founder");
     Companies.email := Some text_four_emails |}.

Definition unknown_row : Companies.row :=
  {| Companies.id := 2; Companies.company_name := js "Unknown";
     Companies.website := None;
     Companies.employee_name := js "Unknown";
     Companies.employee_title := Some (js "CEO");
     Companies.email := Some text_four_emails |}.

Definition finder_d1 : D1 :=
  {| tables := {| company_profiles := []; employees := [];
                  companies := [ada_row; unknown_row];
                  company_profiles_seq := 0; employees_seq := 0;
                  companies_seq := 2;
                  current_timestamp := js "2025-06-01 12:00:00" |};
     failures := [] |}.

Definition sample_people_handle :=
  peopleFinder_onRequest (fun w => w) sample_exa sample_env agents_parse
    (fun _ => true) (fun _ => Returned (js "no idea")).

Definition sample_email_handle :=
  emailFinder_onRequest (fun w => w) agents_parse agents_stringify
    (fun _ => Returned text_guess) (fun _ => Returned (js "invalid")).

Definition email_request (first last : option jstring) : EmailRequest :=
  {| req_firstName := first; req_lastName := last; req_company := None;
     req_domain := None; req_company_name := None; req_website := None;
     req_role := None |}.

Example peopleFinder_from_database :
  let run := sample_people_handle
               {| company := Some (js "MATHS LTD"); website := None; notes := None |}
               JNull finder_d1 in
  people_events run = [] /\
  people_response run
  = {| people_status := 200;
       people_body :=
         PeopleFound {| people_company := js "Maths Ltd";
                        people_website := js "maths.io";
                        people := [ {| name := js "Ada Lovelace";
                                       role := js "Founder" |} ] |} JNull |}.
Proof. vm_compute. split; reflexivity. Qed.

Example peopleFinder_from_the_web :
  people_events
    (sample_people_handle
       {| company := Some (js "Nowhere"); website := None; notes := None |}
       JNull finder_d1)
  = [WebSearch (quote ++ js "Nowhere" ++ quote ++ js " founder ceo " ++ quote
                ++ js "c-suite" ++ quote ++ js " leadership team site:*");
     ModelCall].
Proof. vm_compute. reflexivity. Qed.

Example emailFinder_from_database :
  let run := sample_email_handle (email_request (Some (js "ada")) (Some (js "lovelace ")))
               JNull finder_d1 in
  email_events run = [] /\
  option_map (fun r => (emails (email_body r), verification_summary (email_body r)))
    (match email_response run with Returned r => Some r | Threw _ => None end)
  = Some (firstn 3 four_emails, js "3 out of 3 emails verified").
Proof. vm_compute. split; reflexivity. Qed.

(** C8 as stated fails for the name ["Unknown"], the name under which
    the agent itself stores the addresses of a request without a name: a row
    with that [employee_name] is stored, the database answers, and the agent
    still calls the model and verifies the candidate. *)
Lemma emailFinder_unknown_cex :
  let request := email_request (Some (js "Unknown")) None in
  let run := sample_email_handle request JNull finder_d1 in
  answers finder_d1 /\
  (exists r, In r (companies (tables finder_d1)) /\
             sql_lower (Companies.employee_name r)
             = sql_lower (trim (or_empty (req_firstName request) ++ js " "
                                ++ or_empty (req_lastName request)))) /\
  email_events run = [ModelCall; Verification (JStr (js "guess@who.io"))].
Proof.
  intros request run. split; [reflexivity|]. split.
  - exists unknown_row. split; [right; left; reflexivity | reflexivity].
  - vm_compute. reflexivity.
Qed.

End AgentExamples.

(** ** The template routes: round trips *)

Section TemplateRoundTrips.
Import Templates.

(** Newest first. *)
Definition newest_first (a b : TemplateRow) : Prop := (createdAt b <= createdAt a)%Z.

Lemma insert_desc_In (r x : TemplateRow) (l : list TemplateRow) :
  In x (insert_desc r l) <-> x = r \/ In x l.
Proof.
  induction l as [|y l IH]; cbn [insert_desc].
  - cbn. intuition congruence.
  - destruct (createdAt y <? createdAt r)%Z; cbn [In]; [intuition congruence|].
    rewrite IH. intuition congruence.
Qed.

Lemma insert_desc_perm (r : TemplateRow) (l : list TemplateRow) :
  Permutation (insert_desc r l) (r :: l).
Proof.
  induction l as [|y l IH]; cbn [insert_desc]; [reflexivity|].
  destruct (createdAt y <? createdAt r)%Z; [reflexivity|].
  rewrite IH. apply perm_swap.
Qed.

Lemma order_desc_perm (l : list TemplateRow) : Permutation (order_desc l) l.
Proof.
  induction l as [|r l IH]; cbn; [reflexivity|].
  fold (order_desc l). rewrite insert_desc_perm. now constructor.
Qed.

Lemma insert_desc_sorted (r : TemplateRow) (l : list TemplateRow) :
  StronglySorted newest_first l -> StronglySorted newest_first (insert_desc r l).
Proof.
  induction 1 as [|y l Hl IH Hy]; cbn [insert_desc].
  - repeat constructor.
  - destruct (Z.ltb_spec (createdAt y) (createdAt r)) as [Hlt|Hge].
    + constructor; [now constructor|].
      constructor; [unfold newest_first; lia|].
      rewrite Forall_forall in *. intros x Hx. specialize (Hy x Hx).
      unfold newest_first in *. lia.
    + constructor; [exact IH|].
      rewrite Forall_forall in *. intros x Hx.
      apply insert_desc_In in Hx as [->|Hx]; [exact Hge | now apply Hy].
Qed.

Lemma order_desc_sorted (l : list TemplateRow) :
  StronglySorted newest_first (order_desc l).
Proof.
  induction l as [|r l IH]; cbn; [constructor|].
  now apply insert_desc_sorted.
Qed.

Lemma owned_by_true (u : User) (r : TemplateRow) :
  owned_by u r = true <-> userId r = user_id u.
Proof.
  unfold owned_by. destruct (jstring_eqb_spec (userId r) (user_id u)); split; congruence.
Qed.

(** The session of a signed-in user. *)
Definition signed_in (u : User) : Session := Some {| user := Some u |}.

(** X1. For a signed-in user the list route answers 200 and leaves the table
    as it is. The list it returns is a rearrangement of the stored rows of
    that user: it holds a row exactly when the row is stored and belongs to
    the user, and it runs from the newest to the oldest creation time. *)
Theorem templates_list_owned_newest_first (u : User) (db : Table) :
  exists l,
    list_handle (signed_in u) db = (ok (TemplateList l), db) /\
    Permutation l (filter (owned_by u) db) /\
    (forall r, In r l <-> In r db /\ userId r = user_id u) /\
    StronglySorted newest_first l.
Proof.
  unfold list_handle. cbn [signed_in session_user user]. eexists.
  split; [reflexivity|].
  split; [apply order_desc_perm|]. split; [|apply order_desc_sorted].
  intros r. split.
  - intros H. apply (Permutation_in _ (order_desc_perm _)) in H.
    apply filter_In in H as [H1 H2]. split; [exact H1 | now apply owned_by_true].
  - intros [H1 H2]. apply (Permutation_in _ (Permutation_sym (order_desc_perm _))).
    apply filter_In. split; [exact H1 | now apply owned_by_true].
Qed.

(** X2. Creating a template as a signed-in user answers 200 with the created
    row: the fresh id, the user as owner and the name, subject and body of
    the request. The next list of that user contains the created row and is
    one row longer than the rows the user had; what any other user lists is
    what that user listed before. *)
Theorem templates_create_then_list (u : User) (b : CreateBody)
    (uuid : jstring) (now1 now2 : Z) (db : Table) :
  let session := signed_in u in
  let created :=
    {| id := uuid; userId := user_id u; name := new_name b;
       subject := new_subject b; body := new_body b;
       createdAt := now1; updatedAt := now2 |} in
  let db' := snd (create_handle session b uuid now1 now2 db) in
  fst (create_handle session b uuid now1 now2 db) = ok (TemplateOne created) /\
  (exists l, list_handle session db' = (ok (TemplateList l), db') /\
             In created l /\ length l = S (length (filter (owned_by u) db))) /\
  (forall v,
     user_id v <> user_id u ->
     fst (list_handle (signed_in v) db') = fst (list_handle (signed_in v) db)).
Proof.
  intros session created db'. subst session db'. unfold create_handle.
  cbn [signed_in session_user user fst snd]. fold created.
  split; [reflexivity|]. split.
  - unfold list_handle. cbn [signed_in session_user user]. eexists. split; [reflexivity|].
    assert (Hown : owned_by u created = true) by (apply owned_by_true; reflexivity).
    split.
    + apply (Permutation_in _ (Permutation_sym (order_desc_perm _))).
      apply filter_In. split; [apply in_or_app; right; now left | exact Hown].
    + rewrite (Permutation_length (order_desc_perm _)), filter_app, length_app.
      cbn [filter]. rewrite Hown. cbn [length]. lia.
  - intros v Hne. unfold list_handle. cbn [signed_in session_user user fst].
    rewrite filter_app. cbn [filter].
    assert (Hother : owned_by v created = false).
    { destruct (owned_by v created) eqn:E; [|reflexivity].
      apply owned_by_true in E. cbn in E. congruence. }
    now rewrite Hother, app_nil_r.
Qed.

(** X3. When a row with the requested id belongs to the signed-in user, the
    update route answers 200 with a row that is stored afterwards. That row
    has the id, the owner and the creation time of a row of the user stored
    before, its [updatedAt] is the time of the update, and each of its name,
    subject and body is the one of the request when the request has one and
    the one of the stored row otherwise. *)
Theorem templates_update_keeps_the_rest (u : User) (tid : jstring) (b : UpdateBody)
    (now : Z) (db : Table) :
  (exists r, In r db /\ id r = tid /\ userId r = user_id u) ->
  let run := update_handle (signed_in u) tid b now db in
  exists r t,
    In r db /\ id r = tid /\ userId r = user_id u /\
    fst run = ok (TemplateOne t) /\ In t (snd run) /\
    id t = tid /\ userId t = user_id u /\
    createdAt t = createdAt r /\ updatedAt t = now /\
    name t = match upd_name b with Some v => v | None => name r end /\
    subject t = match upd_subject b with Some v => v | None => subject r end /\
    body t = match upd_body b with Some v => v | None => body r end.
Proof.
  intros (r0 & Hr0 & Hid & Hown) run. subst run.
  unfold update_handle, update_where. cbn [signed_in session_user user].
  destruct (filter (selected tid u) db) as [|r rest] eqn:Hf.
  - exfalso. assert (H : In r0 (filter (selected tid u) db)).
    { apply filter_In. split; [exact Hr0 | now apply selected_true]. }
    rewrite Hf in H. exact H.
  - assert (H : In r (filter (selected tid u) db)) by (rewrite Hf; now left).
    apply filter_In in H as [Hr Hsel]. pose proof Hsel as Hsel'.
    apply selected_true in Hsel' as [Hrid Hrown].
    cbn [List.map fst snd]. exists r, (apply_update b now r).
    split; [exact Hr|]. split; [exact Hrid|]. split; [exact Hrown|].
    split; [reflexivity|]. split.
    + apply in_map_iff. exists r. now rewrite Hsel.
    + cbn. repeat split; assumption.
Qed.

Lemma templates_update_keeps_the_rest_witness :
  let run := update_handle (signed_in alice) (js "t1")
               {| upd_name := None; upd_subject := Some (js "Hi"); upd_body := None |}
               30 sample_templates in
  exists r t,
    In r sample_templates /\ id r = js "t1" /\ userId r = user_id alice /\
    fst run = ok (TemplateOne t) /\ In t (snd run) /\
    id t = js "t1" /\ userId t = user_id alice /\
    createdAt t = createdAt r /\ updatedAt t = 30%Z /\
    name t = name r /\ subject t = js "Hi" /\ body t = body r.
Proof.
  apply (@templates_update_keeps_the_rest alice (js "t1")
           {| upd_name := None; upd_subject := Some (js "Hi"); upd_body := None |}
           30 sample_templates).
  eexists. split; [left; reflexivity|]. split; reflexivity.
Defined.

(** X4. The delete route answers 200 exactly when a row with the requested
    id belongs to the signed-in user. After the call no stored row has that
    id and that owner, whatever the answer was: a second delete and any
    update of the id answer 404 and change nothing, and the list of the user
    holds no row with that id. *)
Theorem templates_delete_is_final (u : User) (tid : jstring) (db : Table) :
  let session := signed_in u in
  let db' := snd (delete_handle session tid db) in
  (status (fst (delete_handle session tid db)) = 200 <->
   exists r, In r db /\ id r = tid /\ userId r = user_id u) /\
  (forall r, In r db' -> ~ (id r = tid /\ userId r = user_id u)) /\
  delete_handle session tid db' = (not_found, db') /\
  (forall b now, update_handle session tid b now db' = (not_found, db')) /\
  (forall l, fst (list_handle session db') = ok (TemplateList l) ->
             forall r, In r l -> id r <> tid).
Proof.
  intros session db'.
  assert (Hdb' : db' = filter (fun r => negb (selected tid u r)) db).
  { subst db' session. unfold delete_handle, delete_where.
    cbn [signed_in session_user user]. now destruct (filter (selected tid u) db). }
  assert (Hgone : forall r, In r db' -> selected tid u r = false).
  { intros r Hr. rewrite Hdb' in Hr. apply filter_In in Hr as [_ Hr].
    now destruct (selected tid u r). }
  split; [|split; [|split; [|split]]].
  - subst session. unfold delete_handle, delete_where.
    cbn [signed_in session_user user].
    destruct (filter (selected tid u) db) as [|r rest] eqn:Hf; cbn [fst status not_found ok].
    + split; [discriminate|]. intros (r & Hr & Hid & Hown). exfalso.
      assert (H : In r (filter (selected tid u) db)).
      { apply filter_In. split; [exact Hr | now apply selected_true]. }
      rewrite Hf in H. exact H.
    + split; [|reflexivity]. intros _.
      assert (H : In r (filter (selected tid u) db)) by (rewrite Hf; now left).
      apply filter_In in H as [Hr Hsel]. apply selected_true in Hsel. now exists r.
  - intros r Hr Hsel. apply selected_true in Hsel. rewrite (Hgone r Hr) in Hsel.
    discriminate.
  - subst session. unfold delete_handle, delete_where.
    cbn [signed_in session_user user].
    rewrite (filter_none _ _ Hgone). rewrite filter_all; [reflexivity|].
    intros x Hx. now rewrite (Hgone x Hx).
  - intros b now. subst session. unfold update_handle, update_where.
    cbn [signed_in session_user user].
    rewrite (filter_none _ _ Hgone). cbn [List.map].
    now rewrite (map_if_none _ _ _ Hgone).
  - subst session. unfold list_handle. cbn [signed_in session_user user fst].
    intros l [= <-] r Hr Hid.
    apply (Permutation_in _ (order_desc_perm _)) in Hr.
    apply filter_In in Hr as [Hr Hown]. apply owned_by_true in Hown.
    assert (Hsel : selected tid u r = true) by (apply selected_true; auto).
    rewrite (Hgone r Hr) in Hsel. discriminate.
Qed.

End TemplateRoundTrips.

(** ** The upsert helpers: round trips and errors *)

Section UpsertRoundTrips.
Import Values Db Upsert.
Local Open Scope db_scope.

Lemma find_no_match (A : Type) (p : A -> bool) (l : list A) :
  (forall x, In x l -> p x = false) -> find p l = None.
Proof.
  intros H. destruct (find p l) as [x|] eqn:E; [|reflexivity].
  apply find_some in E as [Hx Hp]. rewrite (H x Hx) in Hp. discriminate.
Qed.

(** A call for a company that matches no stored row adds one row at the
    end, under the next id and the trimmed name. *)
Lemma upsertCompany_fresh (s : jstring) (website : Value)
    (additionalData : option AdditionalData) (d : D1) :
  failures d = [] -> trim s <> [] -> text_or_nullish website ->
  typed_data additionalData ->
  (forall r, In r (company_profiles (tables d)) -> ~ same_company s website r) ->
  exists row d1,
    upsertCompany (JStr s) website additionalData d
    = (Returned (company_profiles_seq (tables d) + 1)%Z, d1) /\
    failures d1 = [] /\
    company_profiles (tables d1) = company_profiles (tables d) ++ [row] /\
    employees (tables d1) = employees (tables d) /\
    CompanyProfiles.id row = (company_profiles_seq (tables d) + 1)%Z /\
    CompanyProfiles.companyName row = trim s.
Proof.
  intros Hd Hs Hweb Hdata Hfresh. unfold upsertCompany.
  step_lift. rewrite nonblank_JStr.
  destruct (jstring_eqb_spec (trim s) []) as [|_]; [contradiction|].
  cbn [negb]. cbv beta iota. step_lift. cbn [trim_method]. step_lift.
  destruct (trimmed_if_nonblank_typed Hweb) as [site Hsite]. rewrite Hsite.
  step_bind. rewrite (@stmt_healthy _ _ d Hd). cbn [select_company fst snd].
  rewrite find_no_match.
  2:{ intros r Hr. destruct (company_matches (trim s) site r) eqn:E; [|reflexivity].
      apply (@company_matches_same s website site r Hsite) in E.
      exfalso. exact (Hfresh r Hr E). }
  step_lift.
  destruct (@build_updateData_typed site additionalData Hdata) as [u ->].
  step_lift. destruct (trimmed_or_null_typed Hweb) as [inserted ->].
  rewrite stmt_healthy by reflexivity.
  cbn [insert_company fst snd tables with_company_profiles company_profiles
       employees company_profiles_seq].
  eexists _, _. split; [reflexivity|]. cbn [failures tables company_profiles employees].
  repeat split; reflexivity.
Qed.

Lemma same_company_lower (s s' : jstring) (website : Value) (r : CompanyProfiles.row) :
  sql_lower (trim s') = sql_lower (trim s) ->
  same_company s' website r <-> same_company s website r.
Proof. intros H. unfold same_company. now rewrite H. Qed.

Lemma sql_lower_nonempty (a b : jstring) :
  sql_lower a = sql_lower b -> b <> [] -> a <> [].
Proof. intros H Hb ->. destruct b; [contradiction | discriminate]. Qed.

(** X5. Insert, then find. On a healthy database, [upsertCompany] with a
    name that is not blank, for which no stored row has that name (up to the
    case of ASCII letters) or that website, returns a new id and adds one
    row. A second call with a name that differs from the first only by case
    and surrounding white space returns the same id and adds no row. *)
Theorem upsertCompany_insert_then_find (s s' : jstring) (website : Value)
    (data data' : option AdditionalData) (d : D1) :
  failures d = [] -> trim s <> [] -> text_or_nullish website ->
  typed_data data -> typed_data data' ->
  (forall r, In r (company_profiles (tables d)) -> ~ same_company s website r) ->
  sql_lower (trim s') = sql_lower (trim s) ->
  exists rid d1 d2,
    upsertCompany (JStr s) website data d = (Returned rid, d1) /\
    length (company_profiles (tables d1))
    = S (length (company_profiles (tables d))) /\
    upsertCompany (JStr s') website data' d1 = (Returned rid, d2) /\
    length (company_profiles (tables d2)) = length (company_profiles (tables d1)).
Proof.
  intros Hd Hs Hweb Hdata Hdata' Hfresh Hlow.
  destruct (@upsertCompany_fresh s website data d Hd Hs Hweb Hdata Hfresh)
    as (row & d1 & E1 & Hd1 & Hrows & _ & Hid & Hname).
  assert (Hs' : trim s' <> []) by (eapply sql_lower_nonempty; eassumption).
  assert (Hrow : same_company s' website row).
  { left. now rewrite Hname, Hlow. }
  assert (Hex : exists r, In r (company_profiles (tables d1)) /\
                          same_company s' website r).
  { exists row. split; [|exact Hrow]. rewrite Hrows. apply in_or_app. right. now left. }
  destruct (@upsertCompany_existing s' website data' d1 Hex) as (Hlen & Hret & Htot).
  destruct (Htot Hd1 Hs' Hweb Hdata') as (rid & Hrid).
  destruct (Hret rid Hrid) as (r & Hr & Hsame & Hrid').
  assert (r = row) as ->.
  { rewrite Hrows in Hr. apply in_app_or in Hr as [Hr|[Hr|[]]]; [|now symmetry].
    exfalso. apply (Hfresh r Hr). now apply (@same_company_lower s s' website r Hlow). }
  destruct (upsertCompany (JStr s') website data' d1) as [o d2] eqn:E2.
  cbn [fst snd] in *. subst o.
  exists (company_profiles_seq (tables d) + 1)%Z, d1, d2.
  split; [exact E1|]. split; [rewrite Hrows, length_app; cbn; lia|].
  split; [now rewrite <- Hid, Hrid'|]. exact Hlen.
Qed.

Lemma upsertEmployee_fresh (cid : Z) (s : jstring) (employeeTitle email : Value)
    (d : D1) :
  failures d = [] -> trim s <> [] -> text_or_nullish employeeTitle ->
  text_or_nullish email -> references_company cid (tables d) = true ->
  (forall r, In r (employees (tables d)) -> ~ same_employee s cid r) ->
  exists row d1,
    upsertEmployee cid (JStr s) employeeTitle email d
    = (Returned (employees_seq (tables d) + 1)%Z, d1) /\
    failures d1 = [] /\
    employees (tables d1) = employees (tables d) ++ [row] /\
    company_profiles (tables d1) = company_profiles (tables d) /\
    employees_seq (tables d1) = (employees_seq (tables d) + 1)%Z /\
    Employees.id row = (employees_seq (tables d) + 1)%Z /\
    Employees.employeeName row = trim s /\
    Employees.companyId row = Some cid.
Proof.
  intros Hd Hs Htitle Hemail Hcompany Hfresh. unfold upsertEmployee.
  step_lift. rewrite nonblank_JStr.
  destruct (jstring_eqb_spec (trim s) []) as [|_]; [contradiction|].
  cbn [negb]. cbv beta iota. step_lift. cbn [trim_method].
  step_bind. rewrite (@stmt_healthy _ _ d Hd). cbn [select_employee fst snd].
  rewrite find_no_match.
  2:{ intros r Hr. destruct (employee_matches (trim s) cid r) eqn:E; [|reflexivity].
      apply employee_matches_same in E. exfalso. exact (Hfresh r Hr E). }
  step_lift. destruct (trimmed_or_null_typed Htitle) as [title ->].
  step_lift. destruct (trimmed_or_null_typed Hemail) as [mail ->].
  rewrite checked_stmt_healthy by (reflexivity || exact Hcompany).
  cbn [insert_employee fst snd tables with_employees employees employees_seq].
  eexists _, _. split; [reflexivity|].
  cbn [failures tables employees employees_seq company_profiles].
  repeat split; reflexivity.
Qed.

(** Without a stored company of that id the insertion breaks the foreign
    key of [employees]: the call throws and stores nothing. *)
Lemma upsertEmployee_orphan (cid : Z) (s : jstring) (employeeTitle email : Value)
    (d : D1) :
  failures d = [] -> trim s <> [] -> text_or_nullish employeeTitle ->
  text_or_nullish email -> references_company cid (tables d) = false ->
  (forall r, In r (employees (tables d)) -> ~ same_employee s cid r) ->
  fst (upsertEmployee cid (JStr s) employeeTitle email d) = Threw d1_error /\
  tables (snd (upsertEmployee cid (JStr s) employeeTitle email d)) = tables d.
Proof.
  intros Hd Hs Htitle Hemail Hcompany Hfresh. unfold upsertEmployee.
  step_lift. rewrite nonblank_JStr.
  destruct (jstring_eqb_spec (trim s) []) as [|_]; [contradiction|].
  cbn [negb]. cbv beta iota. step_lift. cbn [trim_method].
  step_bind. rewrite (@stmt_healthy _ _ d Hd). cbn [select_employee fst snd].
  rewrite find_no_match.
  2:{ intros r Hr. destruct (employee_matches (trim s) cid r) eqn:E; [|reflexivity].
      apply employee_matches_same in E. exfalso. exact (Hfresh r Hr E). }
  step_lift. destruct (trimmed_or_null_typed Htitle) as [title ->].
  step_lift. destruct (trimmed_or_null_typed Hemail) as [mail ->].
  unfold checked_stmt. cbn [failures tables]. rewrite Hcompany. split; reflexivity.
Qed.

(** The company [cid] is stored. *)
Definition company_stored (cid : Z) (t : Tables) : Prop :=
  exists c, In c (company_profiles t) /\ CompanyProfiles.id c = cid.

(** X6. Insert, then find. On a healthy database in which the company is
    stored, [upsertEmployee] with a name that is not blank and that no
    stored employee of the company has (up to the case of ASCII letters)
    returns a new id and adds one row. A second call for the same company
    with a name that differs only by case and surrounding white space returns
    the same id and adds no row; the same name in another company, where
    nobody has it, gets another id and a row of its own when that company is
    stored, and is rejected by the foreign key of [employees], with nothing
    stored, when it is not. *)
Theorem upsertEmployee_insert_then_find (cid cid' : Z) (s s' : jstring)
    (title title' email email' : Value) (d : D1) :
  failures d = [] -> trim s <> [] ->
  text_or_nullish title -> text_or_nullish email ->
  text_or_nullish title' -> text_or_nullish email' ->
  company_stored cid (tables d) ->
  (forall r, In r (employees (tables d)) -> ~ same_employee s cid r) ->
  sql_lower (trim s') = sql_lower (trim s) ->
  exists rid d1,
    upsertEmployee cid (JStr s) title email d = (Returned rid, d1) /\
    length (employees (tables d1)) = S (length (employees (tables d))) /\
    (exists d2,
       upsertEmployee cid (JStr s') title' email' d1 = (Returned rid, d2) /\
       length (employees (tables d2)) = length (employees (tables d1))) /\
    (cid' <> cid ->
     (forall r, In r (employees (tables d)) -> ~ same_employee s cid' r) ->
     (company_stored cid' (tables d) ->
      exists rid' d2,
        upsertEmployee cid' (JStr s') title' email' d1 = (Returned rid', d2) /\
        rid' <> rid /\
        length (employees (tables d2)) = S (length (employees (tables d1)))) /\
     (~ company_stored cid' (tables d) ->
      fst (upsertEmployee cid' (JStr s') title' email' d1) = Threw d1_error /\
      tables (snd (upsertEmployee cid' (JStr s') title' email' d1)) = tables d1)).
Proof.
  intros Hd Hs Htitle Hemail Htitle' Hemail' Hcompany Hfresh Hlow.
  apply references_company_true in Hcompany.
  destruct (@upsertEmployee_fresh cid s title email d Hd Hs Htitle Hemail
              Hcompany Hfresh)
    as (row & d1 & E1 & Hd1 & Hrows & Hprofiles & Hseq & Hid & Hname & Hcid).
  assert (Hs' : trim s' <> []) by (eapply sql_lower_nonempty; eassumption).
  exists (employees_seq (tables d) + 1)%Z, d1.
  split; [exact E1|]. split; [rewrite Hrows, length_app; cbn; lia|]. split.
  - assert (Hrow : same_employee s' cid row).
    { split; [now rewrite Hname, Hlow | exact Hcid]. }
    assert (Hex : exists r, In r (employees (tables d1)) /\ same_employee s' cid r).
    { exists row. split; [|exact Hrow]. rewrite Hrows. apply in_or_app. right. now left. }
    destruct (@upsertEmployee_existing s' cid title' email' d1 Hex)
      as (Hlen & Hret & Htot).
    destruct (Htot Hd1 Hs' Htitle' Hemail') as (rid & Hrid).
    destruct (Hret rid Hrid) as (r & Hr & Hsame & Hrid').
    assert (r = row) as ->.
    { rewrite Hrows in Hr. apply in_app_or in Hr as [Hr|[Hr|[]]]; [|now symmetry].
      exfalso. apply (Hfresh r Hr). destruct Hsame as [H1 H2].
      split; [now rewrite H1, Hlow | exact H2]. }
    destruct (upsertEmployee cid (JStr s') title' email' d1) as [o d2] eqn:E2.
    cbn [fst snd] in *. subst o. exists d2. split; [now rewrite <- Hid, Hrid'|].
    exact Hlen.
  - intros Hne Hfresh'.
    assert (Hnone : forall r, In r (employees (tables d1)) ->
                      ~ same_employee s' cid' r).
    { intros r Hr [H1 H2]. rewrite Hrows in Hr.
      apply in_app_or in Hr as [Hr|[<-|[]]].
      - apply (Hfresh' r Hr). split; [now rewrite H1, Hlow | exact H2].
      - rewrite Hcid in H2. congruence. }
    split.
    + intros Hcompany'. apply references_company_true in Hcompany'.
      assert (Hc1 : references_company cid' (tables d1) = true).
      { unfold references_company in *. now rewrite Hprofiles. }
      destruct (@upsertEmployee_fresh cid' s' title' email' d1 Hd1 Hs' Htitle'
                  Hemail' Hc1 Hnone)
        as (row' & d2 & E2 & _ & Hrows' & _).
      eexists _, d2. split; [exact E2|]. split; [rewrite Hseq; lia|].
      rewrite Hrows', length_app. cbn. lia.
    + intros Hno.
      assert (Hc1 : references_company cid' (tables d1) = false).
      { destruct (references_company cid' (tables d1)) eqn:E; [|reflexivity].
        exfalso. apply Hno. apply references_company_true.
        unfold references_company in *. now rewrite <- Hprofiles. }
      now apply upsertEmployee_orphan.
Qed.

End UpsertRoundTrips.

Section UpsertErrors.
Import Values Db Upsert.
Local Open Scope db_scope.

(** The messages a computation can throw. *)
Definition raises_only (P : jstring -> Prop) (A : Type) (c : M A) : Prop :=
  forall d m d', c d = (Threw m, d') -> P m.

Definition only_type_error (A : Type) (o : Outcome A) : Prop :=
  forall m, o = Threw m -> m = type_error.

Section Raises.
Variable P : jstring -> Prop.

Lemma raises_ret (A : Type) (a : A) : raises_only P (ret a).
Proof. intros d m d' H. discriminate H. Qed.

Lemma raises_throw (A : Type) (m : jstring) : P m -> raises_only P (@throw A m).
Proof. intros H d m' d' [= <- _]. exact H. Qed.

Lemma raises_bind (A B : Type) (c : M A) (k : A -> M B) :
  raises_only P c -> (forall a, raises_only P (k a)) -> raises_only P (bind c k).
Proof.
  intros Hc Hk d m d'. unfold bind. destruct (c d) as [[a|m0] d0] eqn:E.
  - apply Hk.
  - intros [= <- _]. exact (Hc _ _ _ E).
Qed.

Lemma raises_lift (A : Type) (o : Outcome A) :
  P type_error -> only_type_error o -> raises_only P (lift o).
Proof.
  intros HP Ho d m d'. destruct o as [a|m0]; cbn; [discriminate|].
  intros [= <- _]. now rewrite (Ho m0 eq_refl).
Qed.

Lemma raises_stmt (A : Type) (f : Tables -> A * Tables) :
  P d1_error -> raises_only P (stmt f).
Proof.
  intros HP d m d'. destruct (stmt_cases f d) as (rest & [E|E]); rewrite E.
  - now intros [= <- _].
  - discriminate.
Qed.

Lemma raises_checked_stmt (A : Type) (check : Tables -> bool)
    (f : Tables -> A * Tables) :
  P d1_error -> raises_only P (checked_stmt check f).
Proof.
  intros HP d m d'.
  destruct (checked_stmt_cases check f d) as (rest & [E|[_ E]]); rewrite E.
  - now intros [= <- _].
  - discriminate.
Qed.

End Raises.

Lemma trim_method_type_error (v : Value) : only_type_error (trim_method v).
Proof. intros m. destruct v; cbn; congruence. Qed.

Lemma nonblank_type_error (v : Value) : only_type_error (nonblank v).
Proof.
  intros m. unfold nonblank. destruct (truthy v); [|discriminate].
  destruct (trim_method v) eqn:E; [discriminate|].
  intros [= <-]. now apply (@trim_method_type_error v).
Qed.

Lemma trimmed_if_nonblank_type_error (v : Value) :
  only_type_error (trimmed_if_nonblank v).
Proof.
  intros m. unfold trimmed_if_nonblank.
  destruct (nonblank v) as [[|]|m0] eqn:E.
  - destruct (trim_method v) eqn:E'; [discriminate|].
    intros [= <-]. now apply (@trim_method_type_error v).
  - discriminate.
  - intros [= <-]. now apply (@nonblank_type_error v).
Qed.

Lemma trimmed_or_null_type_error (v : Value) : only_type_error (trimmed_or_null v).
Proof.
  intros m. unfold trimmed_or_null.
  destruct v; try discriminate; cbn; try congruence.
  destruct (trim s); discriminate.
Qed.

Lemma text_entry_type_error (v : Value) : only_type_error (text_entry v).
Proof.
  intros m. unfold text_entry. destruct v; try discriminate;
    (destruct (trimmed_or_null _) as [[t|]|m0] eqn:E; [discriminate..|];
     intros [= <-]; eapply trimmed_or_null_type_error; exact E).
Qed.

Lemma build_updateData_type_error (site : option jstring)
    (additionalData : option AdditionalData) :
  only_type_error (build_updateData site additionalData).
Proof.
  intros m. unfold build_updateData. destruct additionalData as [a|]; [|discriminate].
  repeat match goal with
  | |- context [match text_entry ?v with _ => _ end] =>
      let E := fresh "E" in
      destruct (text_entry v) eqn:E;
        [| intros [= <-]; eapply text_entry_type_error; exact E]
  end.
  discriminate.
Qed.

(** A name that the two helpers reject: a falsy value or a string of white
    space. *)
Definition blank (v : Value) : Prop :=
  truthy v = false \/ exists s, v = JStr s /\ trim s = [].

Lemma nonblank_false (v : Value) : nonblank v = Returned false <-> blank v.
Proof.
  unfold nonblank, blank. destruct (truthy v) eqn:Ht.
  - destruct v as [| |b|n|s|l|f]; cbn in *; try discriminate;
      try (split; [discriminate | intros [H|(s0 & H & _)]; discriminate]).
    destruct (jstring_eqb_spec (trim s) []) as [E|E]; cbn.
    + split; [intros _|reflexivity]. right. now exists s.
    + split; [discriminate|]. intros [H|(s0 & [= <-] & H)]; [discriminate|contradiction].
  - split; [now left | reflexivity].
Qed.

Definition database_or_type_error (m : jstring) : Prop :=
  m = type_error \/ m = d1_error.

Lemma upsertCompany_after_name (normalizedName : jstring) (website : Value)
    (additionalData : option AdditionalData) :
  raises_only database_or_type_error
    (site <- lift (trimmed_if_nonblank website) ;;
     existing <- stmt (select_company normalizedName site) ;;
     updateData <- lift (build_updateData site additionalData) ;;
     match existing with
     | Some row =>
         _ <- (if has_fields updateData
               then stmt (update_company (CompanyProfiles.id row) updateData)
               else ret tt) ;;
         ret (CompanyProfiles.id row)
     | None =>
         inserted_site <- lift (trimmed_or_null website) ;;
         stmt (insert_company
                 (new_company normalizedName inserted_site updateData additionalData))
     end).
Proof.
  assert (Ht : database_or_type_error type_error) by now left.
  assert (Hd : database_or_type_error d1_error) by now right.
  apply raises_bind;
    [apply raises_lift; [exact Ht | apply trimmed_if_nonblank_type_error]|].
  intros site. apply raises_bind; [now apply raises_stmt|].
  intros existing. apply raises_bind;
    [apply raises_lift; [exact Ht | apply build_updateData_type_error]|].
  intros u. destruct existing as [row|].
  - apply raises_bind; [|intros; apply raises_ret].
    destruct (has_fields u); [now apply raises_stmt | apply raises_ret].
  - apply raises_bind;
      [apply raises_lift; [exact Ht | apply trimmed_or_null_type_error]|].
    intros w. now apply raises_stmt.
Qed.

Lemma upsertEmployee_after_name (companyId : Z) (normalizedName : jstring)
    (employeeTitle email : Value) :
  raises_only database_or_type_error
    (existing <- stmt (select_employee normalizedName companyId) ;;
     match existing with
     | Some row =>
         title <- lift (trimmed_if_nonblank employeeTitle) ;;
         mail <- lift (trimmed_if_nonblank email) ;;
         _ <- (match title, mail with
               | None, None => ret tt
               | _, _ => stmt (update_employee (Employees.id row) title mail)
               end) ;;
         ret (Employees.id row)
     | None =>
         title <- lift (trimmed_or_null employeeTitle) ;;
         mail <- lift (trimmed_or_null email) ;;
         checked_stmt (references_company companyId)
           (insert_employee normalizedName title mail companyId)
     end).
Proof.
  assert (Ht : database_or_type_error type_error) by now left.
  assert (Hd : database_or_type_error d1_error) by now right.
  apply raises_bind; [now apply raises_stmt|].
  intros existing. destruct existing as [row|].
  - apply raises_bind;
      [apply raises_lift; [exact Ht | apply trimmed_if_nonblank_type_error]|].
    intros title. apply raises_bind;
      [apply raises_lift; [exact Ht | apply trimmed_if_nonblank_type_error]|].
    intros mail. apply raises_bind; [|intros; apply raises_ret].
    destruct title, mail; try (now apply raises_stmt). apply raises_ret.
  - apply raises_bind;
      [apply raises_lift; [exact Ht | apply trimmed_or_null_type_error]|].
    intros title. apply raises_bind;
      [apply raises_lift; [exact Ht | apply trimmed_or_null_type_error]|].
    intros mail. now apply raises_checked_stmt.
Qed.

(** X7. [upsertCompany] throws ["Company name is required"] exactly when
    the name is falsy or a string that is blank after trimming, and
    [upsertEmployee] throws ["Employee name is required"] under the same
    condition on the employee name; in that case the database is not
    touched. Any other throw of either function is a [TypeError] (an argument
    that is not a string where [trim] is called) or the error of a failed
    statement of the database. *)
Theorem upsert_name_required :
  (forall companyName website additionalData d,
     let run := upsertCompany companyName website additionalData d in
     (fst run = Threw company_name_required <-> blank companyName) /\
     (blank companyName -> snd run = d) /\
     (forall m, fst run = Threw m ->
        m = company_name_required \/ m = type_error \/ m = d1_error)) /\
  (forall companyId employeeName employeeTitle email d,
     let run := upsertEmployee companyId employeeName employeeTitle email d in
     (fst run = Threw employee_name_required <-> blank employeeName) /\
     (blank employeeName -> snd run = d) /\
     (forall m, fst run = Threw m ->
        m = employee_name_required \/ m = type_error \/ m = d1_error)).
Proof.
  split.
  - intros v website additionalData d run. subst run. unfold upsertCompany.
    step_lift. destruct (nonblank v) as [[|]|m0] eqn:Hn; cbn [negb]; cbv beta iota.
    + assert (Hnb : ~ blank v).
      { intros H. apply nonblank_false in H. congruence. }
      step_lift. destruct (trim_method v) as [n|m1] eqn:Hm.
      2:{ pose proof (@trim_method_type_error v m1 Hm) as ->. cbn [fst snd].
          split; [split; [discriminate | contradiction]|].
          split; [contradiction|]. intros m [= <-]. auto. }
      match goal with |- context [bind ?c ?k d] =>
        pose proof (@upsertCompany_after_name n website additionalData d) as Hr;
        destruct (bind c k d) as [[rid|m] d'] eqn:E end.
      * cbn [fst snd]. split; [split; [discriminate | contradiction]|].
        split; [contradiction|]. discriminate.
      * cbn [fst snd]. specialize (Hr m d' eq_refl).
        split; [split; [|contradiction]|split; [contradiction|]].
        -- intros [= ->]. destruct Hr as [Hr|Hr]; discriminate Hr.
        -- intros m' [= <-]. destruct Hr; auto.
    + cbn [throw fst snd]. apply nonblank_false in Hn.
      split; [tauto|]. split; [reflexivity|]. intros m [= <-]. auto.
    + pose proof (@nonblank_type_error v m0 Hn) as ->. cbn [fst snd].
      assert (Hnb : ~ blank v).
      { intros H. apply nonblank_false in H. congruence. }
      split; [split; [discriminate | contradiction]|].
      split; [contradiction|]. intros m [= <-]. auto.
  - intros cid v employeeTitle email d run. subst run. unfold upsertEmployee.
    step_lift. destruct (nonblank v) as [[|]|m0] eqn:Hn; cbn [negb]; cbv beta iota.
    + assert (Hnb : ~ blank v).
      { intros H. apply nonblank_false in H. congruence. }
      step_lift. destruct (trim_method v) as [n|m1] eqn:Hm.
      2:{ pose proof (@trim_method_type_error v m1 Hm) as ->. cbn [fst snd].
          split; [split; [discriminate | contradiction]|].
          split; [contradiction|]. intros m [= <-]. auto. }
      match goal with |- context [bind ?c ?k d] =>
        pose proof (@upsertEmployee_after_name cid n employeeTitle email d) as Hr;
        destruct (bind c k d) as [[rid|m] d'] eqn:E end.
      * cbn [fst snd]. split; [split; [discriminate | contradiction]|].
        split; [contradiction|]. discriminate.
      * cbn [fst snd]. specialize (Hr m d' eq_refl).
        split; [split; [|contradiction]|split; [contradiction|]].
        -- intros [= ->]. destruct Hr as [Hr|Hr]; discriminate Hr.
        -- intros m' [= <-]. destruct Hr; auto.
    + cbn [throw fst snd]. apply nonblank_false in Hn.
      split; [tauto|]. split; [reflexivity|]. intros m [= <-]. auto.
    + pose proof (@nonblank_type_error v m0 Hn) as ->. cbn [fst snd].
      assert (Hnb : ~ blank v).
      { intros H. apply nonblank_false in H. congruence. }
      split; [split; [discriminate | contradiction]|].
      split; [contradiction|]. intros m [= <-]. auto.
Qed.

End UpsertErrors.

(** ** The extraction of the JSON text and the template prefill, again *)

Section ExtractedPart.
Import Orchestrator.

(** [a] is a contiguous part of [b]. *)
Definition part_of (a b : jstring) : Prop := exists pre post, b = pre ++ a ++ post.

Lemma part_of_refl (a : jstring) : part_of a a.
Proof. exists [], []. now rewrite app_nil_r. Qed.

Lemma part_of_trans (a b c : jstring) : part_of a b -> part_of b c -> part_of a c.
Proof.
  intros (p1 & q1 & ->) (p2 & q2 & ->). exists (p2 ++ p1), (q1 ++ q2).
  now rewrite <- !app_assoc.
Qed.

Lemma part_of_suffix (pre a : jstring) : part_of a (pre ++ a).
Proof. exists pre, []. now rewrite app_nil_r. Qed.

Lemma part_of_prefix (a post : jstring) : part_of a (a ++ post).
Proof. now exists [], post. Qed.

Lemma dropWhile_suffix (f : N -> bool) (s : jstring) :
  exists pre, s = pre ++ dropWhile f s.
Proof.
  induction s as [|c s [pre IH]]; [now exists []|].
  cbn [dropWhile]. destruct (f c); [|now exists []].
  exists (c :: pre). cbn. now rewrite <- IH.
Qed.

Lemma trimStart_part (s : jstring) : part_of (trimStart s) s.
Proof.
  destruct (dropWhile_suffix is_space s) as [pre H].
  unfold trimStart. rewrite H at 2. apply part_of_suffix.
Qed.

Lemma trimEnd_part (s : jstring) : part_of (trimEnd s) s.
Proof.
  destruct (dropWhile_suffix is_space (rev s)) as [pre H].
  unfold trimEnd. apply (f_equal (@rev N)) in H.
  rewrite rev_involutive, rev_app_distr in H. rewrite H at 2. apply part_of_prefix.
Qed.

Lemma trim_part (s : jstring) : part_of (trim s) s.
Proof.
  unfold trim. eapply part_of_trans; [apply trimEnd_part | apply trimStart_part].
Qed.

Lemma skipn_part (n : nat) (s : jstring) : part_of (skipn n s) s.
Proof. rewrite <- (firstn_skipn n s) at 2. apply part_of_suffix. Qed.

Lemma firstn_part (n : nat) (s : jstring) : part_of (firstn n s) s.
Proof. rewrite <- (firstn_skipn n s) at 2. apply part_of_prefix. Qed.

Lemma strip_leading_fence_part (f s : jstring) : part_of (strip_leading_fence f s) s.
Proof.
  unfold strip_leading_fence.
  eapply part_of_trans; [apply trimStart_part | apply skipn_part].
Qed.

Lemma strip_trailing_fence_part (s : jstring) : part_of (strip_trailing_fence s) s.
Proof.
  unfold strip_trailing_fence. destruct (endsWith fence s); [|apply part_of_refl].
  eapply part_of_trans; [apply trimEnd_part | apply firstn_part].
Qed.

Lemma strip_fences_part (s : jstring) : part_of (strip_fences s) s.
Proof.
  unfold strip_fences.
  destruct (startsWith fence_json s);
    [eapply part_of_trans;
       [apply strip_trailing_fence_part | apply strip_leading_fence_part]|].
  destruct (startsWith fence s); [|apply part_of_refl].
  eapply part_of_trans; [apply strip_trailing_fence_part | apply strip_leading_fence_part].
Qed.

Lemma upto_last_prefix (c : N) (s p : jstring) :
  upto_last c s = Some p -> exists post, s = p ++ post.
Proof.
  intros H. apply upto_last_Some in H as (mid & post & -> & ->).
  exists post. now rewrite <- app_assoc.
Qed.

Lemma match_braces_part (s m : jstring) : match_braces s = Some m -> part_of m s.
Proof.
  revert m; induction s as [|x r IH]; intros m; cbn [match_braces]; [discriminate|].
  assert (Hrec : match_braces r = Some m -> part_of m (x :: r)).
  { intros H. eapply part_of_trans; [apply IH, H|]. apply (part_of_suffix [x]). }
  destruct (N.eqb x open_brace); [|exact Hrec].
  destruct (upto_last close_brace r) as [p|] eqn:E; [|exact Hrec].
  intros [= <-]. apply upto_last_prefix in E as [post ->].
  exists [], post. reflexivity.
Qed.

(** X8. The text the orchestrator hands to [JSON.parse] is a contiguous part
    of the output of the model: the extraction only cuts characters off the
    two ends, it never inserts or changes one. It is never longer than the
    output, and has its length only when it is the output itself. *)
Theorem extract_json_cuts_only (text : jstring) :
  part_of (extract_json text) text /\
  length (extract_json text) <= length text /\
  (length (extract_json text) = length text -> extract_json text = text).
Proof.
  assert (H : part_of (extract_json text) text).
  { unfold extract_json.
    destruct (match_braces (strip_fences (trim text))) as [m|] eqn:E.
    - eapply part_of_trans; [apply match_braces_part, E|].
      eapply part_of_trans; [apply strip_fences_part | apply trim_part].
    - eapply part_of_trans; [apply strip_fences_part | apply trim_part]. }
  split; [exact H|]. destruct H as (pre & post & H).
  assert (Hl : length text
               = length pre + (length (extract_json text) + length post)).
  { rewrite H at 1. now rewrite !length_app. }
  split; [lia|]. intros E.
  destruct pre; [|cbn in Hl; lia]. destruct post; [|cbn in Hl; lia].
  rewrite H at 2. cbn. now rewrite app_nil_r.
Qed.

End ExtractedPart.

Section PlainBody.
Import PersonCard.

Lemma replace_from_absent (pat rep : jstring) (s before : jstring) :
  ~ occurs pat s -> replace_from pat rep 0 before s = s.
Proof.
  revert before; induction s as [|c s IH]; intros before Hno; [reflexivity|].
  cbn [replace_from]. destruct (startsWith pat (c :: s)) eqn:Hs.
  - exfalso. apply startsWith_spec in Hs as [r Hr]. apply Hno. exists [], r. exact Hr.
  - f_equal. apply IH. intros (pre & rest & E). apply Hno.
    exists (c :: pre), rest. cbn. now rewrite E.
Qed.

Lemma takeWhile_dropWhile (f : N -> bool) (s : jstring) :
  s = takeWhile f s ++ dropWhile (fun c => f c) s.
Proof.
  induction s as [|c s IH]; [reflexivity|]. cbn. destruct (f c); [|reflexivity].
  cbn. now rewrite <- IH.
Qed.

(** X9. The first name inserted by the template prefill contains no space,
    and the name of the person is that first name followed by nothing or by
    a space and the rest. A template body in which neither [{{firstName}}]
    nor [{{company}}] occurs is prefilled as it is. *)
Theorem handleTemplateSelect_first_name_and_plain_body
    (personName : jstring) (companyName : option jstring)
    (template : Template) (st : ComposeState) :
  let st' := handleTemplateSelect personName companyName template st in
  let firstName := split_first personName in
  mem space firstName = false /\
  (exists rest, personName = firstName ++ rest /\
                (rest = [] \/ exists r, rest = space :: r)) /\
  (~ occurs ph_firstName (body template) -> ~ occurs ph_company (body template) ->
   emailBody st' = body template).
Proof.
  intros st' firstName. subst st' firstName. split; [|split].
  - unfold split_first. induction personName as [|c s IH]; [reflexivity|].
    cbn [takeWhile]. destruct (N.eqb_spec c space) as [->|Hne]; [reflexivity|].
    cbn [negb]. apply mem_false_cons. split; [|exact IH].
    now apply N.eqb_neq.
  - exists (dropWhile (fun c => negb (N.eqb c space)) personName). split.
    + apply takeWhile_dropWhile.
    + induction personName as [|c s IH]; [now left|].
      cbn [dropWhile]. destruct (N.eqb_spec c space) as [->|Hne]; cbn [negb].
      * right. now exists s.
      * exact IH.
  - intros H1 H2. cbn [handleTemplateSelect emailBody]. unfold replace_global.
    rewrite (replace_from_absent _ _ H1). now apply replace_from_absent.
Qed.

End PlainBody.

(** ** The agents: research, saving and looking up *)

Section AgentResearch.
Import Values Db Agents.

Variable normalizeUrl : option jstring -> option jstring.
Variable exa : Tools.ExaClient.
Variable env : Tools.Env.
Variable JSON_parse : jstring -> Outcome Value.
Variable JSON_stringify : Value -> jstring.
Variable is_url : jstring -> bool.
Variable people_generateText : PeoplePrompt -> Outcome jstring.
Variable email_generateText : EmailPrompt -> Outcome jstring.
Variable verifyEmail : Value -> Outcome jstring.

Let people_handle :=
  peopleFinder_onRequest normalizeUrl exa env JSON_parse is_url people_generateText.
Let email_handle :=
  emailFinder_onRequest normalizeUrl JSON_parse JSON_stringify email_generateText
    verifyEmail.

Lemma verification_results_In (candidates : list Value) (e : Value) :
  In e (filter not_null (verification_results verifyEmail candidates)) ->
  In e candidates /\ verified verifyEmail e = true /\ e <> JNull.
Proof.
  intros H. apply filter_In in H as [H Hnull]. unfold verification_results in H.
  apply in_map_iff in H as (x & Hx & Hin).
  destruct (verified verifyEmail x) eqn:Hv.
  - subst x. repeat split; auto. intros ->. discriminate.
  - subst e. discriminate.
Qed.

(** A candidate [null] is queried like the others, and never kept. *)
Lemma null_candidate_dropped (candidates : list Value) :
  ~ In JNull (filter not_null (verification_results verifyEmail candidates)).
Proof. intros H. now apply verification_results_In in H as (_ & _ & H). Qed.

Lemma verified_valid (e : Value) :
  verified verifyEmail e = true <-> verifyEmail e = Returned (js "valid").
Proof.
  unfold verified. destruct (verifyEmail e) as [status|m].
  - destruct (jstring_eqb_spec status (js "valid")); split; congruence.
  - split; discriminate.
Qed.

(** X10. When the [EmailFinder] agent does not answer from the database
    (it called the model) and answers at all, the status is 200, the answer
    holds at most three addresses, each of them was handed to [verifyEmail]
    during the request and classified ["valid"], the events of the request
    are one call of the model followed by one verification per candidate,
    the summary counts the addresses of the answer out of the candidates,
    and the employee name of the answer is the trimmed ["first last"] of the
    request. *)
Theorem emailFinder_agent_answers_verified
    (request : EmailRequest) (state : Value) (d : D1) (resp : EmailResponse) :
  let run := email_handle request state d in
  email_response run = Returned resp -> email_events run <> [] ->
  email_status resp = 200 /\
  length (emails (email_body resp)) <= 3 /\
  (forall e, In e (emails (email_body resp)) ->
     verifyEmail e = Returned (js "valid") /\
     In (Verification e) (email_events run)) /\
  (exists candidates,
     email_events run = ModelCall :: List.map Verification candidates /\
     verification_summary (email_body resp)
     = summary (length (emails (email_body resp))) (length candidates)) /\
  body_employee_name (email_body resp)
  = trim (or_empty (req_firstName request) ++ js " " ++ or_empty (req_lastName request)).
Proof.
  intros run. subst run. unfold email_handle, emailFinder_onRequest. cbv zeta.
  set (employeeName := trim (or_empty (req_firstName request) ++ js " "
                             ++ or_empty (req_lastName request))).
  assert (Hfind : forall d0,
    email_response (find_emails JSON_parse JSON_stringify email_generateText
                      verifyEmail request employeeName state d0) = Returned resp ->
    email_status resp = 200 /\
    length (emails (email_body resp)) <= 3 /\
    (forall e, In e (emails (email_body resp)) ->
       verifyEmail e = Returned (js "valid") /\
       In (Verification e)
         (email_events (find_emails JSON_parse JSON_stringify email_generateText
                          verifyEmail request employeeName state d0))) /\
    (exists candidates,
       email_events (find_emails JSON_parse JSON_stringify email_generateText
                       verifyEmail request employeeName state d0)
       = ModelCall :: List.map Verification candidates /\
       verification_summary (email_body resp)
       = summary (length (emails (email_body resp))) (length candidates)) /\
    body_employee_name (email_body resp) = employeeName).
  { intros d0. unfold find_emails. cbv zeta.
    destruct (email_generateText _) as [text|m]; [|discriminate].
    destruct (read_answer JSON_parse text) as [candidates title].
    destruct (title_or title (or_empty (req_role request))) as [t|m]; [|discriminate].
    cbn [email_response email_events]. intros E.
    apply (f_equal (fun o => match o with Returned r => r | Threw _ => resp end)) in E.
    cbv beta iota in E. subst resp.
    cbn [email_status email_body emails verification_summary body_employee_name].
    split; [reflexivity|]. split; [apply firstn_le_length|]. split; [|split].
    - intros e He.
      apply firstn_In_inv, verification_results_In in He as (He & Hv & _). split.
      + now apply verified_valid.
      + right. now apply in_map.
    - exists candidates. split; reflexivity.
    - reflexivity. }
  destruct (negb (JStr.eqb employeeName []) && negb (JStr.eqb employeeName unknown)).
  - destruct (checkEmailsInDB normalizeUrl JSON_parse employeeName state d)
      as [[existing|] d'].
    + cbn [email_events]. intros _ H. now contradiction H.
    + intros H _. now apply Hfind.
  - intros H _. now apply Hfind.
Qed.

Lemma parse_persons_length (l : list Value) (ps : list Person) :
  parse_persons l = Some ps -> length ps = length l.
Proof.
  revert ps; induction l as [|v l IH]; intros ps; cbn [parse_persons].
  - now intros [= <-].
  - destruct (parse_person v); [|discriminate].
    destruct (parse_persons l) as [ps'|]; [|discriminate].
    intros [= <-]. cbn. now rewrite (IH ps' eq_refl).
Qed.

Lemma PeopleSchema_parse_max (v : Value) (p : People) :
  PeopleSchema_parse is_url v = Some p ->
  length (people p) <= 3 /\
  (people_website p = [] \/ is_url (people_website p) = true).
Proof.
  unfold PeopleSchema_parse. destruct v as [| | | | | |f]; try discriminate.
  destruct (lookup (js "company") f); try discriminate.
  destruct (lookup (js "website") f) as [| | | |w| |]; try discriminate.
  destruct (lookup (js "people") f) as [| | | | |l|]; try discriminate.
  destruct (_ && _) eqn:E; [|discriminate].
  apply andb_true_iff in E as [Hw Hl]. apply Nat.leb_le in Hl.
  destruct (parse_persons l) as [ps|] eqn:Hp; [|discriminate].
  intros [= <-]. cbn [people people_website].
  rewrite (parse_persons_length _ Hp). split; [exact Hl|].
  destruct w; [now left | now right].
Qed.

Lemma checkPeopleInDB_tables (companyName : jstring) (d : D1) :
  tables (snd (checkPeopleInDB normalizeUrl companyName d)) = tables d.
Proof.
  unfold checkPeopleInDB, query_companies.
  match goal with |- context [stmt ?f d] =>
    destruct (stmt_cases f d) as (rest & [E|E]); rewrite E end.
  - reflexivity.
  - cbn [fst snd]. now destruct (distinct _).
Qed.

(** X11. The [PeopleFinder] agent never writes to the database. A request
    without a company name is answered 400 without any search. An answer
    found by research has status 200, at most three people, was obtained by
    one web search followed by one call of the model, and has a website
    whenever the request had one. An answer with status 500 carries the failure
    message together with the company and website of the request and no
    people. *)
Theorem peopleFinder_agent_reads_only
    (request : PeopleRequest) (state : Value) (d : D1) :
  let run := people_handle request state d in
  let companyName := or_empty (company request) in
  let site := or_empty (website request) in
  tables (people_database run) = tables d /\
  (companyName = [] ->
   run = {| people_response :=
              {| people_status := 400;
                 people_body := RequestError (js "Company name is required") |};
            people_events := []; people_database := d |}) /\
  (forall found st,
     people_body (people_response run) = PeopleFound found st ->
     people_events run <> [] ->
     people_status (people_response run) = 200 /\
     length (people found) <= 3 /\
     (exists q, people_events run = [WebSearch q; ModelCall]) /\
     (people_website found = [] -> site = [])) /\
  (people_status (people_response run) = 500 ->
   exists m,
     people_body (people_response run)
     = PeopleFailed {| people_company := companyName; people_website := site;
                       people := [] |} research_failed (Some m) state).
Proof.
  intros run companyName site. subst run.
  unfold people_handle, peopleFinder_onRequest. cbv zeta.
  fold companyName. fold site.
  destruct companyName as [|c0 c'] eqn:Hc.
  { cbn [people_database people_response people_body people_status people_events].
    split; [reflexivity|]. split; [reflexivity|].
    split; [discriminate|]. discriminate. }
  pose proof (checkPeopleInDB_tables (c0 :: c') d) as Ht.
  destruct (checkPeopleInDB normalizeUrl (c0 :: c') d) as [[existing|] d'];
    cbn [snd] in Ht.
  { cbn [people_database people_response people_body people_status people_events].
    split; [exact Ht|]. split; [discriminate|].
    split; [intros found st _ H; now contradiction H | discriminate]. }
  unfold research. cbv zeta.
  destruct (fst (Tools.searchWeb_execute exa env _)) as [out|m] eqn:Hsearch.
  2:{ cbn [people_database people_response people_body people_status people_events].
      split; [exact Ht|]. split; [discriminate|]. split; [discriminate|].
      intros _. now exists m. }
  destruct (Tools.join [10%N] (List.map snippet (Tools.search_results out)))
    as [|s0 s'] eqn:Hsnip.
  { cbn [people_database people_response people_body people_status people_events].
    split; [exact Ht|]. split; [discriminate|]. split; [discriminate|]. discriminate. }
  destruct (people_generateText _) as [text|m].
  2:{ cbn [people_database people_response people_body people_status people_events].
      split; [exact Ht|]. split; [discriminate|]. split; [discriminate|].
      intros _. now exists m. }
  destruct (JSON_parse (Orchestrator.extract_json text)) as [parsed|m].
  2:{ cbn [people_database people_response people_body people_status people_events].
      split; [exact Ht|]. split; [discriminate|]. split; [discriminate|].
      intros _. eexists. reflexivity. }
  destruct (PeopleSchema_parse is_url parsed) as [extracted|] eqn:Hparse.
  2:{ cbn [people_database people_response people_body people_status people_events].
      split; [exact Ht|]. split; [discriminate|]. split; [discriminate|].
      intros _. eexists. reflexivity. }
  cbn [people_database people_response people_body people_status people_events].
  split; [exact Ht|]. split; [discriminate|]. split; [|discriminate].
  intros found st [= <- <-] _. cbn [people people_website].
  apply PeopleSchema_parse_max in Hparse as [Hlen _].
  split; [reflexivity|]. split; [exact Hlen|]. split; [eexists; reflexivity|].
  unfold or_else. destruct (people_website extracted); [|discriminate].
  destruct site; [reflexivity | discriminate].
Qed.

End AgentResearch.

Section EmailSave.
Import Values Db Upsert Agents.
Local Open Scope db_scope.

Variable JSON_parse : jstring -> Outcome Value.
Variable JSON_stringify : Value -> jstring.

Lemma same_value_JStr (s : jstring) (y : Value) :
  same_value (JStr s) y = true <-> y = JStr s.
Proof.
  destruct y; cbn; try (split; discriminate).
  destruct (jstring_eqb_spec s s0); split; congruence.
Qed.

Lemma existsb_same_value_JStr (s : jstring) (seen : list Value) :
  existsb (same_value (JStr s)) seen = true <-> In (JStr s) seen.
Proof.
  rewrite existsb_exists. split.
  - intros (y & Hy & E). apply same_value_JStr in E. now subst y.
  - intros H. exists (JStr s). split; [exact H | now apply same_value_JStr].
Qed.

Lemma merge_from_In (seen xs : list Value) (x : Value) :
  In x (merge_from seen xs) -> In x xs.
Proof.
  revert seen; induction xs as [|y xs IH]; intros seen; cbn [merge_from]; [tauto|].
  destruct (existsb (same_value y) seen).
  - intros H. right. eapply IH, H.
  - intros [<-|H]; [now left | right; eapply IH, H].
Qed.

Lemma merge_from_In_JStr (seen xs : list Value) (s : jstring) :
  In (JStr s) (merge_from seen xs) <-> In (JStr s) xs /\ ~ In (JStr s) seen.
Proof.
  revert seen; induction xs as [|y xs IH]; intros seen; cbn [merge_from].
  - cbn. tauto.
  - destruct (existsb (same_value y) seen) eqn:E.
    + rewrite IH. cbn [In]. split; [tauto|]. intros [[->|H] Hn]; [|tauto].
      apply existsb_same_value_JStr in E. contradiction.
    + cbn [In]. rewrite IH. cbn [In]. split.
      * intros [->|[H Hn]].
        -- split; [now left|]. intros H. apply existsb_same_value_JStr in H. congruence.
        -- split; [now right|]. tauto.
      * intros [[->|H] Hn]; [now left|].
        destruct y; try (right; split; [exact H|]; intros [E'|E']; [discriminate|tauto]).
        destruct (jstring_eqb_spec s0 s) as [->|Hne]; [now left|].
        right. split; [exact H|]. intros [E'|E']; [congruence | tauto].
Qed.

(** How many entries of a list are the string [s]. *)
Definition times (s : jstring) (l : list Value) : nat :=
  length (filter (same_value (JStr s)) l).

Lemma merge_from_once (seen xs : list Value) (s : jstring) :
  times s (merge_from seen xs) <= 1 /\
  (In (JStr s) seen -> times s (merge_from seen xs) = 0).
Proof.
  revert seen; induction xs as [|y xs IH]; intros seen; cbn [merge_from].
  - cbn. split; [lia | reflexivity].
  - destruct (existsb (same_value y) seen) eqn:E; [apply IH|].
    unfold times. cbn [filter]. destruct (same_value (JStr s) y) eqn:Ey.
    + apply same_value_JStr in Ey. subst y. cbn [length].
      destruct (IH (JStr s :: seen)) as [_ H0]. unfold times in H0.
      rewrite H0 by now left. split; [lia|].
      intros H. apply existsb_same_value_JStr in H. congruence.
    + destruct (IH (y :: seen)) as [H1 H0]. split; [exact H1|].
      intros H. apply H0. now right.
Qed.

(** X12. On a healthy database the save of the [EmailFinder] agent
    succeeds and touches only the [companies] table. When no stored row has
    the employee name (up to the case of ASCII letters) it appends one row
    with the company, website, name, title and the verified addresses. When
    there is one, the number of rows stays, every row with another id stays
    as it is, and the rows with the id of the first match receive the new
    company, website, name and title and the merged addresses: the string
    addresses of the merged list are exactly those stored before or
    verified now, every element of it comes from one of the two, and no
    string occurs twice. *)
Theorem emailFinder_save_merges_addresses
    (companyName domain employeeName role0 : jstring) (title : Value)
    (verifiedEmails : list Value) (d : D1) (t : jstring) :
  failures d = [] -> title_or title role0 = Returned t ->
  let name := nonblank_or employeeName unknown in
  let run := save_emails JSON_parse JSON_stringify companyName domain employeeName
               role0 title verifiedEmails d in
  let rows := companies (tables d) in
  let rows' := companies (tables (snd run)) in
  let saved (r : Companies.row) (addresses : list Value) : Prop :=
    Companies.company_name r = nonblank_or companyName unknown /\
    Companies.website r = (match trim domain with [] => None | _ => Some domain end) /\
    Companies.employee_name r = name /\
    Companies.employee_title r = Some t /\
    Companies.email r = Some (JSON_stringify (JArr addresses)) in
  fst run = Returned tt /\
  company_profiles (tables (snd run)) = company_profiles (tables d) /\
  employees (tables (snd run)) = employees (tables d) /\
  match filter (fun r => lower_eq (Companies.employee_name r) name) rows with
  | existing :: _ =>
      length rows' = length rows /\
      (forall r, In r rows -> Companies.id r <> Companies.id existing -> In r rows') /\
      exists merged,
        (forall r', In r' rows' -> Companies.id r' = Companies.id existing ->
                    saved r' merged) /\
        (exists r', In r' rows' /\ Companies.id r' = Companies.id existing) /\
        (forall s, In (JStr s) merged <->
                   In (JStr s) (stored_emails JSON_parse (Companies.email existing)) \/
                   In (JStr s) verifiedEmails) /\
        (forall x, In x merged ->
                   In x (stored_emails JSON_parse (Companies.email existing)) \/
                   In x verifiedEmails) /\
        (forall s, times s merged <= 1)
  | [] =>
      exists row, rows' = rows ++ [row] /\ saved row verifiedEmails
  end.
Proof.
  intros Hd Ht name run rows rows' saved. subst run rows rows'.
  unfold save_emails. step_lift. rewrite Ht. cbv zeta.
  fold name. step_bind. unfold query_companies.
  rewrite (@stmt_healthy _ _ d Hd). cbv beta iota. cbn [fst snd].
  destruct (filter (fun r => lower_eq (Companies.employee_name r) name)
              (companies (tables d))) as [|existing rest] eqn:Hf.
  - rewrite stmt_healthy by reflexivity.
    cbn [fst snd tables with_companies company_profiles employees companies].
    split; [reflexivity|]. split; [reflexivity|]. split; [reflexivity|].
    eexists. split; [reflexivity|]. subst saved. cbn. repeat split; reflexivity.
  - rewrite stmt_healthy by reflexivity.
    cbn [fst snd tables with_companies company_profiles employees companies].
    split; [reflexivity|]. split; [reflexivity|]. split; [reflexivity|].
    assert (Hin : In existing (companies (tables d))).
    { assert (H : In existing (existing :: rest)) by now left.
      rewrite <- Hf in H. now apply filter_In in H. }
    split; [apply length_map|]. split.
    { intros r Hr Hne. apply in_map_iff. exists r. split; [|exact Hr].
      destruct (Z.eqb_spec (Companies.id r) (Companies.id existing)); [contradiction|].
      reflexivity. }
    exists (merge_from [] (stored_emails JSON_parse (Companies.email existing)
                           ++ verifiedEmails)).
    split; [|split; [|split; [|split]]].
    + intros r' Hr' Hid. apply in_map_iff in Hr' as (r & <- & Hr).
      destruct (Z.eqb_spec (Companies.id r) (Companies.id existing)) as [E|E].
      * subst saved. cbn. repeat split; reflexivity.
      * contradiction.
    + eexists. split.
      * apply in_map_iff. exists existing. split; [|exact Hin].
        rewrite Z.eqb_refl. reflexivity.
      * reflexivity.
    + intros s. rewrite merge_from_In_JStr, in_app_iff. cbn. tauto.
    + intros x Hx. apply merge_from_In in Hx. now apply in_app_or.
    + intros s. apply merge_from_once.
Qed.

End EmailSave.

Section EmailRoundTrip.
Import Values Db Upsert Agents.
Local Open Scope db_scope.

Variable normalizeUrl : option jstring -> option jstring.
Variable JSON_parse : jstring -> Outcome Value.
Variable JSON_stringify : Value -> jstring.

Lemma lower_eq_same_arg (a b : jstring) (r : Companies.row) :
  sql_lower a = sql_lower b ->
  lower_eq (Companies.employee_name r) a = lower_eq (Companies.employee_name r) b.
Proof. unfold lower_eq. now intros ->. Qed.

(** The first row a predicate selects after an [UPDATE ... WHERE id = ?]
    that makes the updated rows selected. *)
Lemma filter_updated_head (p : Companies.row -> bool)
    (upd : Companies.row -> Companies.row) (e : Companies.row)
    (rows rest : list Companies.row) :
  (forall r, Companies.id r = Companies.id e -> p (upd r) = true) ->
  filter p rows = e :: rest ->
  exists r tl,
    Companies.id r = Companies.id e /\
    filter p (List.map (fun r => if (Companies.id r =? Companies.id e)%Z
                                 then upd r else r) rows)
    = upd r :: tl.
Proof.
  intros Hupd. induction rows as [|r rows IH]; cbn [filter List.map]; [discriminate|].
  destruct (Z.eqb_spec (Companies.id r) (Companies.id e)) as [E|E].
  - intros _. rewrite (Hupd r E). eauto.
  - destruct (p r) eqn:Hp.
    + intros [= -> _]. contradiction.
    + intros H. apply IH, H.
Qed.

(** X27. Save, then look up. On a healthy database, after the [EmailFinder]
    agent has saved addresses for an employee name, its database lookup for
    a name that differs only by the case of ASCII letters answers with the
    company, normalised website and title just saved and with the first three of the
    saved addresses, which are the verified addresses when no row had the
    name and the merged addresses otherwise, provided [JSON.parse] reads
    back what [JSON.stringify] wrote for them. *)
Theorem emailFinder_save_then_lookup
    (companyName domain employeeName role0 : jstring) (title : Value)
    (verifiedEmails : list Value) (d : D1) (t lookupName : jstring)
    (state : Value) :
  failures d = [] -> title_or title role0 = Returned t ->
  let name := nonblank_or employeeName unknown in
  let saved :=
    match filter (fun r => lower_eq (Companies.employee_name r) name)
            (companies (tables d)) with
    | existing :: _ =>
        merge_from [] (stored_emails JSON_parse (Companies.email existing)
                       ++ verifiedEmails)
    | [] => verifiedEmails
    end in
  JSON_parse (JSON_stringify (JArr saved)) = Returned (JArr saved) ->
  sql_lower lookupName = sql_lower name ->
  fst (checkEmailsInDB normalizeUrl JSON_parse lookupName state
         (snd (save_emails JSON_parse JSON_stringify companyName domain
                 employeeName role0 title verifiedEmails d)))
  = Some {| emails := firstn 3 saved;
            body_company_name := nonblank_or companyName unknown;
            body_website :=
              or_empty (normalizeUrl
                          (match trim domain with [] => None | _ => Some domain end));
            body_employee_name := lookupName;
            body_employee_title := t;
            verification_summary :=
              summary (length (firstn 3 saved)) (length (firstn 3 saved));
            body_state := state |}.
Proof.
  intros Hd Ht name saved Hjson Hlower. subst saved.
  unfold save_emails. step_lift. rewrite Ht. cbv zeta.
  fold name. step_bind. unfold query_companies at 1.
  rewrite (@stmt_healthy _ _ d Hd). cbv beta iota. cbn [fst snd].
  unfold checkEmailsInDB, query_companies.
  assert (Hp : forall rows,
             filter (fun r => lower_eq (Companies.employee_name r) lookupName) rows
             = filter (fun r => lower_eq (Companies.employee_name r) name) rows).
  { intros rows. apply filter_ext. intros r. now apply lower_eq_same_arg. }
  destruct (filter (fun r => lower_eq (Companies.employee_name r) name)
              (companies (tables d))) as [|existing rest] eqn:Hf.
  - rewrite stmt_healthy by reflexivity. cbn [fst snd].
    rewrite stmt_healthy by reflexivity.
    cbn [fst snd tables with_companies companies].
    rewrite Hp, filter_app, Hf. cbn [filter app Companies.employee_name].
    assert (Hself : lower_eq name name = true) by now apply lower_eq_true.
    rewrite Hself. cbn [fst Companies.email Companies.company_name
                          Companies.website Companies.employee_title
                          stored_emails or_empty].
    rewrite Hjson. reflexivity.
  - rewrite stmt_healthy by reflexivity. cbn [fst snd].
    rewrite stmt_healthy by reflexivity.
    cbn [fst snd tables with_companies companies].
    rewrite Hp.
    set (merged := merge_from [] _) in *.
    destruct (@filter_updated_head
                (fun r => lower_eq (Companies.employee_name r) name)
                (fun r => {| Companies.id := Companies.id r;
                             Companies.company_name := nonblank_or companyName unknown;
                             Companies.website :=
                               match trim domain with [] => None | _ => Some domain end;
                             Companies.employee_name := name;
                             Companies.employee_title := Some t;
                             Companies.email := Some (JSON_stringify (JArr merged)) |})
                existing (companies (tables d)) rest)
      as (r & tl & _ & ->); [| exact Hf |].
    + intros r _. cbn. now apply lower_eq_true.
    + cbn [fst Companies.email Companies.company_name
             Companies.website Companies.employee_title stored_emails or_empty].
      rewrite Hjson. reflexivity.
Qed.

End EmailRoundTrip.

(** ** The [peopleFinder] tool *)

Section PeopleFinderToolFacts.
Import Tools PeopleFinderTool.

Variable exa : ExaClient.
Variable generateObject : option jstring -> PeoplePrompt -> Outcome (list Person).

Lemma join_nil (sep : jstring) (parts : list jstring) :
  (forall p, In p parts -> p <> []) -> join sep parts = [] -> parts = [].
Proof.
  destruct parts as [|p rest]; [reflexivity|]. intros Hne H. exfalso.
  apply (Hne p (or_introl eq_refl)). cbn [join] in H.
  destruct rest; [exact H|]. now apply app_eq_nil in H.
Qed.

Lemma render_source_nonempty (r : ExaResult) : render_source r <> [].
Proof. discriminate. Qed.

Lemma combinedContent_nil (rs : list ExaResult) :
  join separator (List.map render_source rs) = [] <-> rs = [].
Proof.
  split; [|now intros ->]. intros H. apply join_nil in H.
  - now destruct rs.
  - intros p Hp. apply in_map_iff in Hp as (r & <- & _). apply render_source_nonempty.
Qed.

Lemma flat_map_nil (A B : Type) (f : A -> list B) (l : list A) :
  List.flat_map f l = [] <-> forall x, In x l -> f x = [].
Proof.
  induction l as [|a l IH]; cbn [List.flat_map].
  - split; [intros _ x [] | reflexivity].
  - split.
    + intros H. apply app_eq_nil in H as [Ha Hl]. intros x [<-|Hx]; [exact Ha|].
      now apply IH.
    + intros H. rewrite (H a (or_introl eq_refl)). apply IH. intros x Hx. apply H.
      now right.
Qed.

(** X13. The [peopleFinder] tool throws, without searching, exactly when
    [EXA_API_KEY] is missing or empty. With a key it always returns: it sends
    the two leadership queries for the company to Exa; when neither finds a
    result it returns no people without calling the model; otherwise it
    calls the model once, for that company, and returns the people of the
    model, or no people, with a logged error, when the model fails. The
    [website] of the input has no influence on the call. *)
Theorem peopleFinder_tool_contract (env : Env) (input : Input) :
  let run := peopleFinder_execute exa generateObject env input in
  (key_set (EXA_API_KEY env) = false ->
   fst run = Threw (js "People finder - EXA_API_KEY is missing") /\
   searches (snd run) = [] /\ prompts (snd run) = []) /\
  (forall key, EXA_API_KEY env = Some key -> key <> [] ->
   searches (snd run) = peopleFinder_queries (company input) /\
   length (prompts (snd run)) <= 1 /\
   (prompts (snd run) = [] <->
    forall q, In q (peopleFinder_queries (company input)) ->
              fst (search_one exa key q) = []) /\
   exists people,
     fst run = Returned people /\
     (prompts (snd run) = [] -> people = []) /\
     (forall p, prompts (snd run) = [p] ->
        prompt_company p = company input /\
        match generateObject (OPENAI_API_KEY env) p with
        | Returned found => people = found
        | Threw _ => people = [] /\ In (js "llm extraction failed:") (errors (snd run))
        end)) /\
  (forall website',
     peopleFinder_execute exa generateObject env
       {| company := company input; website := website' |} = run).
Proof.
  intros run. subst run. unfold peopleFinder_execute. split; [|split].
  - destruct (EXA_API_KEY env) as [[|c k]|]; cbn; try discriminate; auto.
  - intros key -> Hkey. destruct key as [|c k]; [contradiction|]. cbv zeta.
    set (queries := peopleFinder_queries (company input)).
    set (found := List.flat_map fst (List.map (search_one exa (c :: k)) queries)).
    assert (Hfound : found = [] <->
              forall q, In q queries -> fst (search_one exa (c :: k) q) = []).
    { unfold found. rewrite List.flat_map_concat_map, List.map_map,
        <- List.flat_map_concat_map. apply flat_map_nil. }
    destruct (join separator (List.map render_source found)) as [|x rest] eqn:Hj.
    + cbn [fst snd searches prompts]. split; [reflexivity|].
      split; [cbn; lia|].
      apply combinedContent_nil in Hj. split; [split; [intros _; now apply Hfound | reflexivity]|].
      exists []. split; [reflexivity|]. split; [reflexivity|]. discriminate.
    + assert (Hne : found <> []).
      { intros H. apply combinedContent_nil in H. congruence. }
      destruct (generateObject (OPENAI_API_KEY env) _) as [people|m] eqn:Hg;
        cbn [fst snd searches prompts errors].
      * split; [reflexivity|]. split; [cbn; lia|]. split.
        { split; [discriminate|]. intros H. apply Hfound in H. contradiction. }
        exists people. split; [reflexivity|]. split; [discriminate|].
        intros p [= <-]. cbn [prompt_company]. split; [reflexivity|]. now rewrite Hg.
      * split; [reflexivity|]. split; [cbn; lia|]. split.
        { split; [discriminate|]. intros H. apply Hfound in H. contradiction. }
        exists []. split; [reflexivity|]. split; [reflexivity|].
        intros p [= <-]. cbn [prompt_company]. split; [reflexivity|]. rewrite Hg.
        split; [reflexivity|]. apply in_or_app. right. now left.
  - reflexivity.
Qed.

End PeopleFinderToolFacts.

(** ** The vector handler *)

Section VectorizeHandlerFacts.
Import Values Db VectorizeHandler.






(** Reading a key of a spread. *)
Definition has_key (k : jstring) (x : Fields) : bool :=
  existsb (fun kv => JStr.eqb (fst kv) k) x.

Lemma lookup_absent (k : jstring) (x : Fields) :
  has_key k x = false -> lookup k x = JUndefined.
Proof.
  induction x as [|[k0 v0] x IH]; [reflexivity|].
  cbn [has_key existsb fst lookup]. intros H. apply orb_false_iff in H as [H1 H2].
  rewrite H1. now apply IH.
Qed.

Lemma lookup_fold_set (l base : Fields) (k : jstring) :
  NoDup (List.map fst l) ->
  lookup k (fold_left (fun acc kv => obj_set (fst kv) (snd kv) acc) l base)
  = if has_key k l then lookup k l else lookup k base.
Proof.
  revert base; induction l as [|[k0 v0] l IH]; intros base Hnd; [reflexivity|].
  cbn [fold_left fst snd List.map] in *. inversion Hnd as [|? ? Hk0 Hnd']; subst.
  rewrite (IH _ Hnd'). cbn [has_key existsb fst lookup]. fold (has_key k l).
  destruct (jstring_eqb_spec k0 k) as [->|Hne]; cbn [orb].
  - assert (Hno : has_key k l = false).
    { destruct (has_key k l) eqn:E; [|reflexivity]. exfalso. apply Hk0.
      apply existsb_exists in E as ([k1 v1] & Hin & Heq). cbn in Heq.
      destruct (jstring_eqb_spec k1 k); [subst k1 | discriminate].
      apply in_map_iff. now exists (k, v1). }
    rewrite Hno, lookup_obj_set, jstring_eqb_refl. reflexivity.
  - destruct (has_key k l); [reflexivity|].
    rewrite lookup_obj_set. destruct (jstring_eqb_spec k0 k); [contradiction|reflexivity].
Qed.

Lemma own_from_keys (seen : list jstring) (x : Fields) (k : jstring) :
  In k (List.map fst (own_from seen x)) -> ~ In k seen.
Proof.
  revert seen; induction x as [|[k0 v0] x IH]; intros seen; cbn [own_from]; [intros []|].
  destruct (existsb (JStr.eqb k0) seen) eqn:E.
  - apply IH.
  - cbn [List.map fst In]. intros [<-|H].
    + intros Hin. assert (existsb (JStr.eqb k0) seen = true); [|congruence].
      apply existsb_exists. exists k0. split; [exact Hin | apply jstring_eqb_refl].
    + intros Hin. apply (IH _ H). now right.
Qed.

Lemma own_from_NoDup (seen : list jstring) (x : Fields) :
  NoDup (List.map fst (own_from seen x)).
Proof.
  revert seen; induction x as [|[k0 v0] x IH]; intros seen; cbn [own_from];
    [constructor|].
  destruct (existsb (JStr.eqb k0) seen); [apply IH|].
  cbn [List.map fst]. constructor; [|apply IH].
  intros H. apply own_from_keys in H. apply H. now left.
Qed.

Lemma own_from_lookup (seen : list jstring) (x : Fields) (k : jstring) :
  ~ In k seen ->
  has_key k (own_from seen x) = has_key k x /\
  lookup k (own_from seen x) = lookup k x.
Proof.
  revert seen; induction x as [|[k0 v0] x IH]; intros seen Hk; cbn [own_from];
    [split; reflexivity|].
  cbn [has_key existsb fst lookup]. fold (has_key k x).
  destruct (existsb (JStr.eqb k0) seen) eqn:E.
  - destruct (jstring_eqb_spec k0 k) as [->|Hne].
    + exfalso. apply existsb_exists in E as (y & Hy & Ey).
      destruct (jstring_eqb_spec k y); [subst y; contradiction | discriminate].
    + cbn [orb]. now apply IH.
  - cbn [has_key existsb fst lookup]. fold (has_key k (own_from (k0 :: seen) x)).
    destruct (jstring_eqb_spec k0 k) as [->|Hne]; [split; reflexivity|].
    cbn [orb]. apply IH. intros [H|H]; [congruence | contradiction].
Qed.

Lemma lookup_spread (base x : Fields) (k : jstring) :
  lookup k (spread base x) = if has_key k x then lookup k x else lookup k base.
Proof.
  unfold spread. rewrite lookup_fold_set by apply own_from_NoDup.
  destruct (@own_from_lookup [] x k (fun H => H)) as [-> ->]. reflexivity.
Qed.

Definition index_name (i : Index) : jstring :=
  match i with CompanyIndex => js "companies" | EmployeeIndex => js "employees" end.

Lemma ask_queried (env : Bindings) (data : option (list (list number))) (i : Index)
    (limit : number) (p : Index * number) :
  In p (snd (ask env data i limit)) -> p = (i, limit).
Proof. unfold ask. destruct data; cbn; intuition. Qed.

Lemma ask_Returned (env : Bindings) (data : option (list (list number))) (i : Index)
    (limit : number) (l : list Fields) :
  fst (ask env data i limit) = Returned l ->
  snd (ask env data i limit) = [(i, limit)] /\
  exists rows ms,
    data = Some rows /\
    VECTORS_query env i (match rows with v :: _ => Some v | [] => None end) limit
    = Returned ms /\
    l = List.map match_object ms.
Proof.
  unfold ask. destruct data as [rows|]; cbn [fst snd]; [|discriminate].
  destruct (VECTORS_query env i _ limit) as [ms|m] eqn:E; [|discriminate].
  intros [= <-]. split; [reflexivity|]. now exists rows, ms.
Qed.

(** X15. [VectorizeHandler.search] fails with ["Query is required"],
    without embedding anything, on an empty query, and embeds a query that is
    not empty exactly once. It queries only the indices its type asks for
    (["both"] when the type is absent), each with the limit given (5 when
    absent). A successful result echoes the query and the type, queried each
    of the indices asked for once, companies before employees, and holds for
    each of them the objects built from the matches of that index for the
    embedded query, and no list for an index that was not asked for. In the
    object of a match a [score] key of the metadata overrides the score of
    the match. *)
Theorem search_contract (env : Bindings) (query : jstring) (type : option jstring)
    (limit : option number) :
  let run := search env query type limit in
  let type' := match type with Some t => t | None => js "both" end in
  let topK := match limit with Some l => l | None => Int 5 end in
  (query = [] ->
   run = {| search_result := SearchFailed (js "Query is required");
            search_embedded := []; queried := [] |}) /\
  (query <> [] -> search_embedded run = [query]) /\
  (forall i k, In (i, k) (queried run) ->
     k = topK /\ wants (index_name i) type' = true) /\
  (forall q t rs, search_result run = SearchOk q t rs ->
     q = query /\ t = type' /\
     queried run
     = (if wants (js "companies") type' then [(CompanyIndex, topK)] else [])
       ++ (if wants (js "employees") type' then [(EmployeeIndex, topK)] else []) /\
     (forall i l,
        (i = CompanyIndex /\ companies rs = Some l \/
         i = EmployeeIndex /\ employees rs = Some l) ->
        wants (index_name i) type' = true /\
        exists rows ms,
          Vectorize.AI_run (base env) Vectorize.embedding_model query
          = Returned (Some rows) /\
          VECTORS_query env i (match rows with v :: _ => Some v | [] => None end) topK
          = Returned ms /\
          l = List.map match_object ms) /\
     (companies rs = None <-> wants (js "companies") type' = false) /\
     (employees rs = None <-> wants (js "employees") type' = false)) /\
  (forall m : Match,
     lookup (js "score") (match_object m)
     = match match_metadata m with
       | Some md => if has_key (js "score") md then lookup (js "score") md else score m
       | None => score m
       end).
Proof.
  intros run type' topK. subst run.
  assert (Hscore : forall m : Match,
     lookup (js "score") (match_object m)
     = match match_metadata m with
       | Some md => if has_key (js "score") md then lookup (js "score") md else score m
       | None => score m
       end).
  { intros m0. unfold match_object. rewrite lookup_spread.
    destruct (match_metadata m0) as [md|]; [|reflexivity].
    destruct (has_key (js "score") md); reflexivity. }
  unfold search. fold type'. fold topK. cbv zeta.
  split; [now intros ->|].
  destruct query as [|c0 q0].
  { split; [intros H; now contradiction H|]. split; [intros i k []|].
    split; [discriminate | exact Hscore]. }
  set (query := c0 :: q0).
  destruct (Vectorize.AI_run (base env) Vectorize.embedding_model query)
    as [data|m] eqn:Hai.
  2:{ cbn [search_embedded queried search_result]. split; [reflexivity|].
      split; [intros i k []|]. split; [discriminate | exact Hscore]. }
  pose proof (@ask_queried env data CompanyIndex topK) as Hq1.
  pose proof (@ask_Returned env data CompanyIndex topK) as Hr1.
  pose proof (@ask_queried env data EmployeeIndex topK) as Hq2.
  pose proof (@ask_Returned env data EmployeeIndex topK) as Hr2.
  destruct (wants (js "companies") type') eqn:Hw1.
  - destruct (ask env data CompanyIndex topK) as [[l1|m1] q1]; cbn [fst snd] in *.
    2:{ cbn [search_embedded queried search_result]. split; [reflexivity|].
        split; [|split; [discriminate | exact Hscore]].
        intros i k Hin. apply Hq1 in Hin. injection Hin as -> ->. auto. }
    destruct (Hr1 l1 eq_refl) as (-> & rows & ms & -> & Hms & ->).
    destruct (wants (js "employees") type') eqn:Hw2.
    + destruct (ask env (Some rows) EmployeeIndex topK) as [[l2|m2] q2];
        cbn [fst snd] in *.
      2:{ cbn [search_embedded queried search_result]. split; [reflexivity|].
          split; [|split; [discriminate | exact Hscore]].
          intros i k [Hin|Hin]; [injection Hin as <- <-; auto|].
          apply Hq2 in Hin. injection Hin as -> ->. auto. }
      destruct (Hr2 l2 eq_refl) as (-> & rows' & ms' & [= <-] & Hms' & ->).
      cbn [search_embedded queried search_result]. split; [reflexivity|].
      split; [|split; [|exact Hscore]].
      * intros i k [Hin|[Hin|[]]]; injection Hin as <- <-; auto.
      * intros q t rs [= <- <- <-]. cbn [companies employees].
        split; [reflexivity|]. split; [reflexivity|]. split; [reflexivity|].
        split; [|split; split; discriminate].
        intros i l [[-> [= <-]]|[-> [= <-]]].
        -- split; [assumption|]. eexists _, _. split; [reflexivity|].
           split; [eassumption | reflexivity].
        -- split; [assumption|]. eexists _, _. split; [reflexivity|].
           split; [eassumption | reflexivity].
    + cbn [search_embedded queried search_result]. split; [reflexivity|].
      split; [|split; [|exact Hscore]].
      * intros i k [Hin|[]]. injection Hin as <- <-. auto.
      * intros q t rs [= <- <- <-]. cbn [companies employees].
        split; [reflexivity|]. split; [reflexivity|]. split; [reflexivity|].
        split; [|split; split; (discriminate || reflexivity)].
        intros i l [[-> [= <-]]|[-> H]]; [|discriminate].
        split; [assumption|]. eexists _, _. split; [reflexivity|].
        split; [eassumption | reflexivity].
  - destruct (wants (js "employees") type') eqn:Hw2.
    + destruct (ask env data EmployeeIndex topK) as [[l2|m2] q2]; cbn [fst snd] in *.
      2:{ cbn [search_embedded queried search_result app]. split; [reflexivity|].
          split; [|split; [discriminate | exact Hscore]].
          intros i k Hin. apply Hq2 in Hin. injection Hin as -> ->. auto. }
      destruct (Hr2 l2 eq_refl) as (-> & rows' & ms' & -> & Hms' & ->).
      cbn [search_embedded queried search_result app]. split; [reflexivity|].
      split; [|split; [|exact Hscore]].
      * intros i k [Hin|[]]. injection Hin as <- <-. auto.
      * intros q t rs [= <- <- <-]. cbn [companies employees].
        split; [reflexivity|]. split; [reflexivity|]. split; [reflexivity|].
        split; [|split; split; (discriminate || reflexivity)].
        intros i l [[-> H]|[-> [= <-]]]; [discriminate|].
        split; [assumption|]. eexists _, _. split; [reflexivity|].
        split; [eassumption | reflexivity].
    + cbn [search_embedded queried search_result app]. split; [reflexivity|].
      split; [intros i k []|]. split; [|exact Hscore].
      intros q t rs [= <- <- <-]. cbn [companies employees].
      split; [reflexivity|]. split; [reflexivity|]. split; [reflexivity|].
      split; [|split; split; reflexivity].
      intros i l [[-> H]|[-> H]]; discriminate.
Qed.

Lemma stmt_tables (A : Type) (f : Tables -> A * Tables) (d : D1) :
  (forall t, snd (f t) = t) -> tables (snd (stmt f d)) = tables d.
Proof.
  intros H. destruct (stmt_cases f d) as (rest & [E|E]); rewrite E; cbn [snd tables];
    [reflexivity | apply H].
Qed.

(** X16. [updateCompany] never writes to the database, and the route
    answers with its result. A vector is upserted only for a stored company
    whose id is the requested one: the text embedded is the text of that
    company and the vector is the one [populateCompanies] builds for it. The
    route answers 200 exactly when the upsert was made and succeeded, and 404
    in every other case, a failure of the database or of the embedding
    included. When the [SELECT] succeeds and no stored company has the id,
    the result is the failure ["Company not found"] and nothing is embedded
    or upserted. *)
Theorem updateCompany_contract (env : Bindings) (companyId : number) (d : D1) :
  let run := updateCompany env companyId d in
  let route := update_company_route env companyId d in
  tables (update_database run) = tables d /\
  snd route = run /\ body (fst route) = update_result run /\
  (forall batch, upserted run = Some batch ->
     exists company v,
       In company (company_profiles (tables d)) /\
       companyId = Int (CompanyProfiles.id company) /\
       update_embedded run = [Vectorize.textToEmbed company] /\
       Vectorize.embed_company (base env) company = inl v /\
       batch = [v]) /\
  (status (fst route) = 200 <->
   exists batch details,
     upserted run = Some batch /\ COMPANY_VECTORS_upsert env batch = Returned details) /\
  (status (fst route) = 200 \/ status (fst route) = 404) /\
  (hd false (failures d) = false ->
   (forall company, In company (company_profiles (tables d)) ->
                    companyId <> Int (CompanyProfiles.id company)) ->
   update_result run = failure (js "Company not found") /\
   update_embedded run = [] /\ upserted run = None).
Proof.
  intros run route. subst run route. unfold update_company_route. cbv zeta.
  cbn [fst snd status body]. unfold updateCompany.
  assert (Hfind : forall company,
            fst (select_by_id companyId (tables d)) = Some company ->
            In company (company_profiles (tables d)) /\
            companyId = Int (CompanyProfiles.id company)).
  { intros company. unfold select_by_id. cbn [fst].
    destruct companyId as [z| |]; try discriminate.
    intros H. apply find_some in H as [H1 H2]. apply Z.eqb_eq in H2. now subst z. }
  assert (Hnone : (forall company, In company (company_profiles (tables d)) ->
                     companyId <> Int (CompanyProfiles.id company)) ->
                  fst (select_by_id companyId (tables d)) = None).
  { intros H. destruct (fst (select_by_id companyId (tables d))) as [company|] eqn:E;
      [|reflexivity].
    destruct (Hfind company eq_refl) as [H1 H2]. now apply H in H1. }
  destruct (stmt_cases (select_by_id companyId) d) as (rest & [E|E]); rewrite E.
  { cbn. split; [reflexivity|]. split; [reflexivity|]. split; [reflexivity|].
    split; [discriminate|]. split; [split; [discriminate | now intros (? & ? & H & _)]|].
    split; [now right|]. intros Hh. exfalso. unfold stmt in E.
    destruct (failures d) as [|[|] r]; cbn in Hh; try discriminate;
      destruct (select_by_id companyId (tables d)); discriminate. }
  assert (Hsnd : snd (select_by_id companyId (tables d)) = tables d) by reflexivity.
  destruct (fst (select_by_id companyId (tables d))) as [company|] eqn:Hsel.
  2:{ cbn. split; [exact Hsnd|]. split; [reflexivity|]. split; [reflexivity|].
      split; [discriminate|]. split; [split; [discriminate | now intros (? & ? & H & _)]|].
      split; [now right|]. intros _ _. auto. }
  destruct (Hfind company eq_refl) as [Hin Hid].
  assert (Htext : update_text company = Vectorize.textToEmbed company) by reflexivity.
  destruct (Vectorize.AI_run (base env) Vectorize.embedding_model (update_text company))
    as [[data|]|m] eqn:Hai.
  - assert (Hvec : Vectorize.embed_company (base env) company
                   = inl (update_vector company data)).
    { unfold Vectorize.embed_company, Vectorize.embed_call. cbn [snd].
      rewrite <- Htext, Hai. reflexivity. }
    destruct (COMPANY_VECTORS_upsert env [update_vector company data])
      as [details|m] eqn:Hup;
      cbn [update_database update_result update_embedded upserted tables].
    + split; [exact Hsnd|]. split; [reflexivity|]. split; [reflexivity|]. split.
      { intros batch [= <-]. exists company, (update_vector company data).
        rewrite Htext. auto. }
      split; [cbn; split; [intros _; eauto | reflexivity]|].
      split; [now left|]. intros _ H. now apply H in Hin.
    + split; [exact Hsnd|]. split; [reflexivity|]. split; [reflexivity|]. split.
      { intros batch [= <-]. exists company, (update_vector company data).
        rewrite Htext. auto. }
      split.
      { cbn. split; [discriminate|]. intros (batch & det & [= <-] & H). congruence. }
      split; [now right|]. intros _ H. now apply H in Hin.
  - cbn [update_database update_result update_embedded upserted tables].
    split; [exact Hsnd|]. split; [reflexivity|]. split; [reflexivity|].
    split; [discriminate|].
    split; [cbn; split; [discriminate | now intros (? & ? & H & _)]|].
    split; [now right|]. intros _ H. now apply H in Hin.
  - cbn [update_database update_result update_embedded upserted tables].
    split; [exact Hsnd|]. split; [reflexivity|]. split; [reflexivity|].
    split; [discriminate|].
    split; [cbn; split; [discriminate | now intros (? & ? & H & _)]|].
    split; [now right|]. intros _ H. now apply H in Hin.
Qed.

(** X17. [getStats] never writes to the database, and its route always
    answers 200 with its result. When neither of the two counting statements
    fails, the result reports, for companies and for employees, the number
    of stored rows, both as [total_in_db] and as [indexed]; when one of them
    fails, the result is the failure object with the message of the
    database. *)
Theorem getStats_counts_rows (d : D1) :
  let count (n : nat) := JNum (Int (Z.of_nat n)) in
  let stats (n : nat) :=
    JObj [(js "total_in_db", count n); (js "indexed", count n)] in
  tables (snd (getStats d)) = tables d /\
  status (fst (stats_route d)) = 200 /\
  body (fst (stats_route d)) = fst (getStats d) /\
  (In true (firstn 2 (failures d)) -> fst (getStats d) = failure d1_error) /\
  (~ In true (firstn 2 (failures d)) ->
   fst (getStats d)
   = JObj [(js "companies", stats (length (company_profiles (tables d))));
           (js "employees", stats (length (Db.employees (tables d))))]).
Proof.
  intros count stats.
  assert (Hcount : forall n, count_or_zero (Int (Z.of_nat n)) = count n).
  { intros n. unfold count_or_zero, count. cbn [number_truthy].
    destruct (Z.eqb_spec (Z.of_nat n) 0) as [->|]; reflexivity. }
  assert (Hstats : forall n, stats_of (Int (Z.of_nat n)) = stats n).
  { intros n. unfold stats_of, stats. now rewrite Hcount. }
  unfold stats_route, getStats, stmt.
  destruct (failures d) as [|[|] [|[|] rest]];
    cbn [count_rows fst snd tables firstn failures]; rewrite ?Hstats;
    cbn [fst snd tables status body];
    (split; [reflexivity|]); (split; [reflexivity|]); (split; [reflexivity|]); split;
    try (intros _; reflexivity);
    try (intros H; exfalso; apply H; cbn; tauto);
    try (intros H; exfalso; cbn in H; intuition discriminate).
Qed.

End VectorizeHandlerFacts.

Section SearchHelpers.
Import Values Db VectorizeHandler.

Lemma search_queried_limit (env : Bindings) (query : jstring)
    (type : option jstring) (limit : option number) (i : Index) (k : number) :
  In (i, k) (queried (search env query type limit)) ->
  k = match limit with Some l => l | None => Int 5 end.
Proof.
  unfold search. cbv zeta. set (topK := match limit with Some l => l | None => Int 5 end).
  destruct query as [|c0 q0]; [intros []|].
  destruct (Vectorize.AI_run _ _ _) as [data|m]; [|intros []].
  pose proof (@ask_queried env data CompanyIndex topK (i, k)) as H1.
  pose proof (@ask_queried env data EmployeeIndex topK (i, k)) as H2.
  destruct (wants (js "companies") _);
    [destruct (ask env data CompanyIndex topK) as [[l1|m1] q1]|];
    cbn [fst snd queried] in *;
    try (intros H; apply H1 in H; congruence);
    (destruct (wants (js "employees") _);
     [destruct (ask env data EmployeeIndex topK) as [[l2|m2] q2]|]);
    cbn [fst snd queried] in *; rewrite ?in_app_iff; cbn [In];
    intros H; repeat destruct H as [H|H]; try contradiction;
    try (apply H1 in H; congruence); try (apply H2 in H; congruence).
Qed.

Lemma search_ok_query (env : Bindings) (query : jstring) (type : option jstring)
    (limit : option number) (q t : jstring) (rs : SearchResults) :
  search_result (search env query type limit) = SearchOk q t rs -> q = query.
Proof.
  unfold search. cbv zeta. set (topK := match limit with Some l => l | None => Int 5 end).
  destruct query as [|c0 q0]; [discriminate|].
  destruct (Vectorize.AI_run _ _ _) as [data|m]; [|discriminate].
  destruct (wants (js "companies") _);
    [destruct (ask env data CompanyIndex topK) as [[l1|m1] q1]|];
    cbn [search_result]; try discriminate;
    (destruct (wants (js "employees") _);
     [destruct (ask env data EmployeeIndex topK) as [[l2|m2] q2]|]);
    cbn [search_result]; try discriminate; now intros [= <- _ _].
Qed.

End SearchHelpers.

Section VectorizeSearchTool.
Import Values Db VectorizeHandler.

(** X18. Without environment bindings the [vectorizeSearch] tool throws and
    searches nothing. With bindings it never throws and makes one search,
    with the type of the input (["both"] when absent or empty) and a limit
    that is the limit of the input, or 5 when that is absent, zero or [NaN].
    Its output reports success exactly when the search succeeded and then
    echoes the query without an error; when the search failed, the output
    has no companies, no employees and an error message that is not
    empty. *)
Theorem vectorizeSearch_tool_contract (query : jstring) (type : option jstring)
    (limit : option number) :
  (vectorizeSearch_execute None query type limit
   = (Threw (js "Vectorize search tool - environment bindings are missing"), None)) /\
  (forall env,
     let topK := match limit with
                 | Some l => if number_truthy l then l else Int 5
                 | None => Int 5
                 end in
     let type' := match type with Some (c :: t) => c :: t | _ => js "both" end in
     let run := search env query (Some type') (Some topK) in
     exists out,
       vectorizeSearch_execute (Some env) query type limit = (Returned out, Some run) /\
       (forall i k, In (i, k) (queried run) -> k = topK) /\
       number_truthy topK = true /\
       (success out = true <->
        exists q t rs, search_result run = SearchOk q t rs) /\
       (success out = true -> out_query out = Some query /\ out_error out = None) /\
       (success out = false ->
        out_companies out = [] /\ out_employees out = [] /\
        exists m, out_error out = Some m /\ m <> [])).
Proof.
  split; [reflexivity|]. intros env topK type' run.
  unfold vectorizeSearch_execute. fold topK. fold type'. fold run.
  eexists. split; [reflexivity|].
  split.
  { intros i k Hin. subst run.
    exact (@search_queried_limit env query (Some type') (Some topK) i k Hin). }
  split.
  { subst topK. destruct limit as [l|]; [|reflexivity].
    destruct (number_truthy l) eqn:E; [exact E | reflexivity]. }
  destruct (search_result run) as [m|q t rs] eqn:Hres; cbn [success out_query out_error
    out_companies out_employees].
  - split; [split; [discriminate | now intros (? & ? & ? & H)]|].
    split; [discriminate|]. intros _. split; [reflexivity|]. split; [reflexivity|].
    eexists. split; [reflexivity|]. unfold or_else. destruct m; discriminate.
  - split; [split; [intros _; eauto | reflexivity]|].
    split; [|discriminate]. intros _. split; [|reflexivity].
    subst run.
    now rewrite (@search_ok_query env query (Some type') (Some topK) q t rs Hres).
Qed.

End VectorizeSearchTool.

Section FinderFacts.
Import Values Db VectorizeHandler Finder.

Variable js_gt : Value -> Value -> bool.

Let handle := Finder.onRequest js_gt.

(** X19. The finder agent answers 400 without searching when the query is
    absent or empty, and otherwise makes one search for the query with the
    type of the request (["both"] when absent or empty) and always five
    results per index. A failed search is answered with the failure body.
    A successful search is answered 200: when some company or employee found
    scores above the threshold, with the people made of exactly the
    employees above the threshold, in order, each with at most one address;
    when none does, with the search result as it is. *)
Theorem finder_answers_high_scores (env : Bindings) (request : Request)
    (state : Value) :
  let run := handle env request state in
  let query0 := match query request with Some q => q | None => [] end in
  let type0 := match type request with Some (c :: t) => c :: t | _ => js "both" end in
  (query0 = [] ->
   run = ({| status := 400;
             body := JObj [(js "error", JStr (js "Query is required"))] |}, None)) /\
  (query0 <> [] ->
   snd run = Some (search env query0 (Some type0) (Some (Int 5)))) /\
  (forall i k s, snd run = Some s -> In (i, k) (queried s) -> k = Int 5) /\
  (forall s m, snd run = Some s -> search_result s = SearchFailed m ->
     fst run = failed state (or_else m (js "Search failed"))) /\
  (forall s q t rs, snd run = Some s -> search_result s = SearchOk q t rs ->
     let companies := or_nil (companies rs) in
     let employees := or_nil (employees rs) in
     status (fst run) = 200 /\
     ((exists x, In x (companies ++ employees) /\ high js_gt x = true) ->
      exists companyName people,
        body (fst run)
        = JObj [(js "company", companyName); (js "people", JArr people);
                (js "state", state); (js "error", JStr [])] /\
        people = List.map person_of (filter (high js_gt) employees) /\
        (forall p, In p people ->
           exists e, In e employees /\ high js_gt e = true /\ p = person_of e /\
             exists emails, lookup (js "emails") (match p with JObj f => f | _ => [] end)
                            = JArr emails /\ length emails <= 1)) /\
     ((forall x, In x (companies ++ employees) -> high js_gt x = false) ->
      body (fst run)
      = JObj [(js "query", JStr q); (js "type", JStr t);
              (js "companies", JArr (List.map JObj companies));
              (js "employees", JArr (List.map JObj employees))])).
Proof.
  intros run query0 type0. subst run. unfold handle, Finder.onRequest.
  fold query0. fold type0. cbv zeta.
  destruct query0 as [|c0 q0] eqn:Hq.
  { cbn [fst snd]. split; [reflexivity|]. split; [intros H; now contradiction H|].
    split; [discriminate|]. split; discriminate. }
  pose proof (@search_queried_limit env (c0 :: q0) (Some type0) (Some (Int 5)))
    as Hsearch.
  remember (search env (c0 :: q0) (Some type0) (Some (Int 5))) as s0 eqn:Hs0.
  cbn [fst snd]. split; [discriminate|]. split.
  { intros _. now rewrite Hs0. }
  split.
  { intros i k s Hs Hin. assert (s = s0) as -> by congruence.
    exact (Hsearch i k Hin). }
  split.
  { intros s m Hs Hres. assert (s = s0) as -> by congruence. now rewrite Hres. }
  intros s q t rs Hs Hres. assert (s = s0) as -> by congruence.
  rewrite Hres. set (companies := or_nil (companies rs)).
  set (employees := or_nil (employees rs)).
  assert (Hhigh : existsb (high js_gt) companies || existsb (high js_gt) employees = true
                  <-> exists x, In x (companies ++ employees) /\ high js_gt x = true).
  { rewrite <- existsb_app. apply existsb_exists. }
  destruct (existsb (high js_gt) companies || existsb (high js_gt) employees) eqn:E;
    cbn [status body].
  - split; [reflexivity|]. split.
    + intros _. eexists _, _. split; [reflexivity|]. split; [reflexivity|].
      intros p Hp. apply in_map_iff in Hp as (e & <- & He).
      apply filter_In in He as [He Hh]. exists e. split; [exact He|].
      split; [exact Hh|]. split; [reflexivity|].
      assert (Hem : lookup (js "emails")
                      (match person_of e with JObj f => f | _ => [] end)
                    = if truthy (lookup (js "email") e)
                      then JArr [lookup (js "email") e] else JArr [])
        by reflexivity.
      rewrite Hem. destruct (truthy (lookup (js "email") e)); eexists;
        (split; [reflexivity | cbn; lia]).
    + intros Hno. exfalso. destruct (proj1 Hhigh eq_refl) as (x & Hx & Hh).
      rewrite (Hno x Hx) in Hh. discriminate.
  - split; [reflexivity|]. split; [|reflexivity].
    intros H. apply Hhigh in H. discriminate.
Qed.

(** [>] is a strict order on the values of a list: irreflexive and
    transitive there. JavaScript's [>] is one on numbers, and is not one on
    numbers and strings taken together. *)
Definition strict_order_on (scores : list Value) : Prop :=
  (forall a, In a scores -> js_gt a a = false) /\
  (forall a b c, In a scores -> In b scores -> In c scores ->
     js_gt a b = true -> js_gt b c = true -> js_gt a c = true).

Lemma top_fold (l : list Fields) (first : Fields) :
  strict_order_on (List.map score_of (first :: l)) ->
  let best := fold_left (fun prev curr =>
                           if js_gt (score_of curr) (score_of prev) then curr else prev)
                l first in
  (best = first \/ In best l /\ js_gt (score_of best) (score_of first) = true) /\
  (forall x, In x l -> js_gt (score_of x) (score_of best) = false).
Proof.
  revert first; induction l as [|y l IH]; intros first Hord; cbn [fold_left].
  - split; [now left | intros x []].
  - destruct Hord as [Hirr Htr].
    assert (Hin : forall x, In x (first :: y :: l) ->
                            In (score_of x) (List.map score_of (first :: y :: l)))
      by (intros x Hx; now apply in_map).
    cbv zeta in IH. destruct (js_gt (score_of y) (score_of first)) eqn:E.
    + destruct (IH y) as (H1 & H2).
      { split.
        - intros a Ha. apply Hirr. now right.
        - intros a b c Ha Hb Hc. apply Htr; now right. }
      set (best := fold_left _ l y) in *.
      assert (Hbest : In best (first :: y :: l)).
      { destruct H1 as [H1|[H1 _]]; [rewrite H1; right; now left | now right; right]. }
      split.
      * right. destruct H1 as [H1|[H1 H1']].
        -- rewrite H1. split; [now left | exact E].
        -- split; [now right|].
           apply (Htr _ (score_of y) _); auto using in_eq, in_cons.
      * intros x [Hx|Hx]; [subst x | now apply H2].
        destruct H1 as [H1|[_ H1']]; [rewrite H1; apply Hirr, Hin; right; now left|].
        destruct (js_gt (score_of y) (score_of best)) eqn:E'; [|reflexivity].
        assert (K : js_gt (score_of y) (score_of y) = true).
        { apply (Htr _ (score_of best) _); auto using in_eq, in_cons. }
        rewrite Hirr in K; [discriminate|]. apply Hin. right. now left.
    + destruct (IH first) as (H1 & H2).
      { split.
        - intros a [<-|Ha]; apply Hirr; [now left | now right; right].
        - intros a b c Ha Hb Hc.
          apply Htr; [destruct Ha as [<-|Ha] | destruct Hb as [<-|Hb]
                      | destruct Hc as [<-|Hc]];
            (now left) || (now right; right). }
      set (best := fold_left _ l first) in *.
      assert (Hbest : In best (first :: y :: l)).
      { destruct H1 as [H1|[H1 _]]; [rewrite H1; now left | now right; right]. }
      split.
      * destruct H1 as [H1|[H1 H1']]; [now left | right; split; [now right | exact H1']].
      * intros x [Hx|Hx]; [subst x | now apply H2].
        destruct H1 as [H1|[_ H1']]; [rewrite H1; exact E|].
        destruct (js_gt (score_of y) (score_of best)) eqn:E'; [|reflexivity].
        assert (K : js_gt (score_of y) (score_of first) = true).
        { apply (Htr _ (score_of best) _); auto using in_eq, in_cons. }
        congruence.
Qed.

(** X20. When [>] is a strict order on the scores of the companies found,
    as it is when they are numbers, the top company chosen by the finder
    agent exists exactly when some company was found, is one of the
    companies found, and no company found has a score greater than its
    score. *)
Theorem finder_top_company_has_best_score (companies : list Fields) :
  strict_order_on (List.map score_of companies) ->
  (top js_gt companies = None <-> companies = []) /\
  (forall c, top js_gt companies = Some c ->
     In c companies /\
     forall x, In x companies -> js_gt (score_of x) (score_of c) = false).
Proof.
  intros Hord. unfold top. destruct companies as [|first rest].
  - split; [split; reflexivity | discriminate].
  - split; [split; discriminate|]. intros c Hc.
    assert (Hord' : strict_order_on (List.map score_of (first :: first :: rest))).
    { destruct Hord as [Hirr Htr]. split.
      - intros a [<-|Ha]; apply Hirr; [now left | exact Ha].
      - intros a b x Ha Hb Hx.
        apply Htr; [destruct Ha as [<-|Ha] | destruct Hb as [<-|Hb]
                    | destruct Hx as [<-|Hx]]; (now left) || assumption. }
    destruct (@top_fold (first :: rest) first Hord') as (H1 & H2). cbv zeta in H1, H2.
    set (best := fold_left _ (first :: rest) first) in *.
    assert (c = best) as -> by congruence.
    split; [|exact H2]. destruct H1 as [H1|[H1 _]]; [rewrite H1; now left | exact H1].
Qed.

End FinderFacts.

(** ** The research and prospecting agents, the person card *)

Section ResearcherFacts.
Import Values Researcher.

Variable generateText : jstring -> Outcome jstring.

(** X21. The research agent answers 200, 400 or 500. It answers 400, without
    calling the model, exactly when the query is absent or empty; otherwise
    it calls the model once, with the prompt for that query. It answers 200
    exactly when the model returns a text that is not blank, and then the
    body is that text; a blank text is answered with the apology, and a
    failure of the model with its message after ["Error: Failed to complete
    research. "]. *)
Theorem researcher_answers_only_with_text (query : option jstring) :
  let run := Researcher.onRequest generateText query in
  let resp := fst run in
  (status resp = 200 \/ status resp = 400 \/ status resp = 500) /\
  (status resp = 400 <-> query = None \/ query = Some []) /\
  (status resp = 400 -> snd run = []) /\
  (status resp = 200 <->
   exists q text, query = Some q /\ q <> [] /\
                  generateText q = Returned text /\ trim text <> []) /\
  (forall q, query = Some q -> q <> [] ->
     snd run = [q] /\
     match generateText q with
     | Returned text =>
         body resp = Text (match trim text with [] => apology | _ => text end)
     | Threw m => body resp = Text (js "Error: Failed to complete research. " ++ m)
     end).
Proof.
  intros run resp. subst resp run. unfold Researcher.onRequest.
  destruct query as [[|c q]|]; cbn [fst snd status body].
  - split; [auto|]. split; [split; auto|]. split; [reflexivity|].
    split; [split; [discriminate|]|].
    + intros (q & text & [= <-] & H & _). now contradiction H.
    + intros q [= <-] H. now contradiction H.
  - destruct (generateText (c :: q)) as [text|m] eqn:Hg.
    + destruct (trim text) as [|t0 t'] eqn:Ht; cbn [fst snd status body].
      * split; [auto|]. split; [split; [discriminate | intros [H|H]; discriminate]|].
        split; [discriminate|]. split.
        -- split; [discriminate|]. intros (q' & text' & [= <-] & _ & Hg' & Hne).
           rewrite Hg in Hg'. injection Hg' as <-. now contradiction Hne.
        -- intros q' [= <-] _. now rewrite Hg, Ht.
      * split; [auto|]. split; [split; [discriminate | intros [H|H]; discriminate]|].
        split; [discriminate|]. split.
        -- split; [|reflexivity]. intros _. exists (c :: q), text.
           split; [reflexivity|]. split; [discriminate|]. split; [exact Hg|].
           rewrite Ht. discriminate.
        -- intros q' [= <-] _. now rewrite Hg, Ht.
    + split; [auto|]. split; [split; [discriminate | intros [H|H]; discriminate]|].
      split; [discriminate|]. split.
      * split; [discriminate|]. intros (q' & text' & [= <-] & _ & Hg' & _).
        rewrite Hg in Hg'. discriminate.
      * intros q' [= <-] _. now rewrite Hg.
  - split; [auto|]. split; [split; auto|]. split; [reflexivity|].
    split; [split; [discriminate|]|].
    + intros (q & text & H & _). discriminate.
    + intros q H. discriminate.
Qed.

End ResearcherFacts.

Section ProspectsFacts.
Import Values VectorizeHandler Prospects.

Variable JSON_parse : jstring -> Outcome Value.
Variable generateText : Prompt -> Outcome jstring.

Let handle := Prospects.onRequest JSON_parse generateText.

(** X22. The prospecting agent rejects only when the model does. When the
    model returns a text, the agent answers 200 with a JSON object whose
    [state] is the state of the agent. When the text extracted from the
    answer does not parse, the object is the fallback: no companies, the
    error ["Failed to parse response"], the raw text and the message of the
    parser. When it parses to an object, every key other than [state] is
    passed through; when it parses to [null], a boolean or a number, the
    object holds the state alone. *)
Theorem prospects_answers_with_state (request : Request) (state : Value) :
  (forall m, generateText (prompt_of request) = Threw m ->
             handle request state = Threw m) /\
  (forall text, generateText (prompt_of request) = Returned text ->
     exists fields,
       handle request state
       = Returned {| status := 200; content_type := js "application/json";
                     body := JObj fields |} /\
       lookup (js "state") fields = state /\
       (forall m, JSON_parse (Orchestrator.extract_json text) = Threw m ->
          fields = [(js "companies", JArr []);
                    (js "error", JStr (js "Failed to parse response"));
                    (js "rawText", JStr text);
                    (js "parseError", JStr m);
                    (js "state", state)]) /\
       (forall f k, JSON_parse (Orchestrator.extract_json text) = Returned (JObj f) ->
          k <> js "state" -> lookup k fields = lookup k f) /\
       (forall v, JSON_parse (Orchestrator.extract_json text) = Returned v ->
          match v with JUndefined | JNull | JBool _ | JNum _ => True | _ => False end ->
          fields = [(js "state", state)])).
Proof.
  unfold handle, Prospects.onRequest. split.
  - now intros m ->.
  - intros text ->. eexists. split; [reflexivity|].
    split; [rewrite lookup_obj_set; now rewrite jstring_eqb_refl|].
    unfold parsed_or_fallback.
    destruct (JSON_parse (Orchestrator.extract_json text)) as [v|m0].
    + split; [discriminate|]. split.
      * intros f k [= ->] Hk. rewrite lookup_obj_set.
        destruct (jstring_eqb_spec (js "state") k) as [E|_]; [now symmetry in E|].
        cbn [spread_value]. rewrite lookup_spread.
        destruct (has_key k f) eqn:E; [reflexivity|].
        now rewrite (lookup_absent _ _ E).
      * intros v' [= <-] Hv. destruct v; try contradiction; reflexivity.
    + split; [now intros m [= <-]|]. split; discriminate.
Qed.

End ProspectsFacts.

Section PersonCardLinks.
Import PersonCardSend.

Lemma split_plain (sep : N) (s : jstring) :
  mem sep s = false -> split sep s = [s].
Proof.
  induction s as [|c s IH]; [reflexivity|].
  intros H. apply mem_false_cons in H as [Hc Hs].
  cbn [split]. rewrite Hc, (IH Hs). reflexivity.
Qed.

Lemma split_at_first (sep : N) (a b : jstring) :
  mem sep a = false -> split sep (a ++ sep :: b) = a :: split sep b.
Proof.
  induction a as [|c a IH]; intros H.
  - cbn [app split]. now rewrite N.eqb_refl.
  - apply mem_false_cons in H as [Hc Ha].
    cbn [app split]. rewrite Hc, (IH Ha). reflexivity.
Qed.

(** X23. The company link of the person card is absent when the person has
    no address, and when the first address has no [@]. Otherwise it is
    [https://] followed by the part of the first address between its first
    [@] and the next [@] or the end, and absent when that part is empty. The
    other addresses play no role. *)
Theorem companyUrl_of_first_address (emails : option (list jstring)) :
  let url := companyUrl (domain (targetEmail emails)) in
  (hasEmail emails = false -> url = None) /\
  (forall e others, emails = Some (e :: others) -> mem at_sign e = false ->
                    url = None) /\
  (forall e others local dom rest,
     emails = Some (e :: others) -> e = local ++ at_sign :: dom ++ rest ->
     mem at_sign local = false -> mem at_sign dom = false ->
     rest = [] \/ (exists r, rest = at_sign :: r) ->
     url = match dom with [] => None | _ => Some (js "https://" ++ dom) end).
Proof.
  intros url. subst url. split; [|split].
  - destruct emails as [[|e others]|]; try discriminate; reflexivity.
  - intros e others -> He. cbn [targetEmail]. destruct e as [|c e]; [reflexivity|].
    cbn [domain]. now rewrite (@split_plain at_sign (c :: e) He).
  - intros e others local dom rest -> -> Hl Hd Hrest. cbn [targetEmail].
    assert (Hsplit : nth_error (split at_sign (local ++ at_sign :: dom ++ rest)) 1
                     = Some dom).
    { rewrite (@split_at_first at_sign local (dom ++ rest) Hl). cbn [nth_error].
      destruct Hrest as [->|[r ->]].
      - rewrite app_nil_r, (@split_plain at_sign dom Hd). reflexivity.
      - rewrite (@split_at_first at_sign dom r Hd). reflexivity. }
    destruct (local ++ at_sign :: dom ++ rest) as [|c e] eqn:E.
    { destruct local; discriminate. }
    cbn [domain]. rewrite Hsplit. destruct dom; reflexivity.
Qed.

Variable sendEmail : SendArgs -> Outcome unit.

(** X24. [handleSendEmail] does nothing, and sends nothing, without a target
    address. With one it sends exactly one email, to that address, with the
    subject and body of the compose form; afterwards the form is no longer
    sending and its subject, body and visibility are unchanged. When the
    send succeeds the success mark is set and the error cleared, and the
    later timeout closes and empties the form, whose send button is then
    disabled; when the send fails, the error of the form is the message of
    the failure. *)
Theorem handleSendEmail_sends_once (target : option jstring) (st : State) :
  let run := handleSendEmail sendEmail target st in
  (target = None \/ target = Some [] -> run = (st, [])) /\
  (forall e, target = Some e -> e <> [] ->
     let args := {| to := e; subject := emailSubject st; body := emailBody st |} in
     snd run = [args] /\
     isSending (fst run) = false /\
     isComposing (fst run) = isComposing st /\
     emailSubject (fst run) = emailSubject st /\
     emailBody (fst run) = emailBody st /\
     match sendEmail args with
     | Returned _ =>
         sendSuccess (fst run) = true /\ sendError (fst run) = None /\
         after_timeout (fst run)
         = {| isComposing := false; isSending := false; emailSubject := [];
              emailBody := []; sendSuccess := false; sendError := None |} /\
         send_disabled (after_timeout (fst run)) = true
     | Threw m =>
         sendSuccess (fst run) = sendSuccess st /\ sendError (fst run) = Some m
     end).
Proof.
  intros run. subst run. split.
  - intros [->| ->]; reflexivity.
  - intros e -> He args. destruct e as [|c e]; [contradiction|].
    cbn [handleSendEmail]. fold args. cbn [fst snd].
    destruct (sendEmail args); cbn; repeat split; reflexivity.
Qed.

End PersonCardLinks.

(** ** The orchestrator, again *)

Section OrchestratorAndFinders.
Import Orchestrator.

Variable JSON_parse : jstring -> Outcome Value.
Variable generateText : Value -> Outcome jstring.
Variable parseInt_String : Value -> Outcome number.
Variable to_number : Value -> number.
Variable extractDomain : Value -> Outcome (option jstring).
Variable normalizeUrl : option jstring -> option jstring.

Let handle := onRequest JSON_parse generateText parseInt_String to_number
                extractDomain.

Lemma onRequest_companies (request state : Value) (d : D1) :
  companies (tables (database (handle request state d))) = companies (tables d).
Proof.
  unfold handle, onRequest. cbv zeta.
  destruct (get request (js "query")) as [q|]; [|reflexivity].
  destruct (negb (truthy (js_or q (JStr [])))); [reflexivity|].
  destruct (generateText _) as [text|]; [|reflexivity].
  destruct (JSON_parse _) as [parsed|]; [|reflexivity].
  destruct (filter_step parsed) as [finalResult|]; [|reflexivity].
  destruct (people_length finalResult) as [len|]; [|reflexivity].
  destruct (negb (truthy len)); [reflexivity|].
  destruct (save _ _ _ d) as [saved d'] eqn:E.
  pose proof (@save_frame parseInt_String to_number _ d saved d' E) as (_ & _ & H).
  destruct (favicon_of extractDomain finalResult); exact H.
Qed.

Lemma query_companies_same (p : Companies.row -> bool) (t t' : Tables)
    (fs : list bool) :
  companies t' = companies t ->
  fst (Agents.query_companies p {| tables := t'; failures := fs |})
  = fst (Agents.query_companies p {| tables := t; failures := fs |}).
Proof.
  intros H. unfold Agents.query_companies, stmt. cbn [failures tables].
  destruct fs as [|[|] rest]; cbn [fst]; now rewrite ?H.
Qed.

(** X25. Whatever a request to the orchestrator does, the [companies] table
    is afterwards what it was. So what the orchestrator saves is never an
    answer of the database lookups of the [PeopleFinder] and [EmailFinder]
    agents: on the database after the request each lookup answers as on the
    database before it. *)
Theorem orchestrator_saves_are_not_found (request state : Value) (d : D1) :
  let after := tables (database (handle request state d)) in
  companies after = companies (tables d) /\
  (forall companyName fs,
     fst (Agents.checkPeopleInDB normalizeUrl companyName
            {| tables := after; failures := fs |})
     = fst (Agents.checkPeopleInDB normalizeUrl companyName
              {| tables := tables d; failures := fs |})) /\
  (forall employeeName st fs,
     fst (Agents.checkEmailsInDB normalizeUrl JSON_parse employeeName st
            {| tables := after; failures := fs |})
     = fst (Agents.checkEmailsInDB normalizeUrl JSON_parse employeeName st
              {| tables := tables d; failures := fs |})).
Proof.
  intros after. pose proof (onRequest_companies request state d) as H.
  fold after in H. split; [exact H|]. split.
  - intros companyName fs. unfold Agents.checkPeopleInDB.
    pose proof (@query_companies_same
                  (fun r => Agents.lower_eq (Companies.company_name r) companyName)
                  (tables d) after fs H) as Hq.
    destruct (Agents.query_companies _ {| tables := after; failures := fs |})
      as [o1 d1];
    destruct (Agents.query_companies _ {| tables := tables d; failures := fs |})
      as [o2 d2]. cbn [fst] in Hq. subst o2.
    destruct o1 as [rows|]; [|reflexivity].
    destruct (Agents.distinct _); reflexivity.
  - intros employeeName st fs. unfold Agents.checkEmailsInDB.
    pose proof (@query_companies_same
                  (fun r => Agents.lower_eq (Companies.employee_name r) employeeName)
                  (tables d) after fs H) as Hq.
    destruct (Agents.query_companies _ {| tables := after; failures := fs |})
      as [o1 d1];
    destruct (Agents.query_companies _ {| tables := tables d; failures := fs |})
      as [o2 d2]. cbn [fst] in Hq. subst o2.
    destruct o1 as [[|r rows]|]; reflexivity.
Qed.

Lemma filter_step_keeps (parsed : Value) (fields : list (jstring * Value))
    (k : jstring) :
  filter_step parsed = Returned (JObj fields) -> k <> js "people" ->
  exists fields0, parsed = JObj fields0 /\ lookup k fields = lookup k fields0.
Proof.
  intros H Hk. apply filter_step_cases in H
    as [(fields0 & l & kept & -> & Hl & Hkept & [= ->])|[<- _]].
  - exists fields0. split; [reflexivity|]. rewrite lookup_obj_set.
    destruct (jstring_eqb_spec (js "people") k) as [E|_]; [now symmetry in E|reflexivity].
  - now exists fields.
Qed.

(** X26. On the path where the orchestrator saves (the query is truthy, the
    answer of the model parses and a person with an address is left), a
    response, if any, has status 200; its [state] is the state of the agent,
    its [people] are the people left by the filter, every other key of the
    parsed answer except [favicon] is passed through unchanged, and its
    [favicon] is [null] or the Google favicon URL of the non-empty domain
    extracted from the [website] of the answer. *)
Theorem orchestrator_passes_fields_through
    (request state : Value) (d : D1) (q : Value) (text : jstring)
    (parsed : Value) (fields : list (jstring * Value)) (people : list Value)
    (resp : Response) :
  get request (js "query") = Returned q -> truthy q = true ->
  generateText q = Returned text ->
  JSON_parse (extract_json text) = Returned parsed ->
  filter_step parsed = Returned (JObj fields) ->
  lookup (js "people") fields = JArr people -> people <> [] ->
  response (handle request state d) = Returned resp ->
  status resp = 200 /\
  get (body resp) (js "state") = Returned state /\
  get (body resp) (js "people") = Returned (JArr people) /\
  (exists fields0,
     parsed = JObj fields0 /\
     forall k, k <> js "people" -> k <> js "favicon" -> k <> js "state" ->
               get (body resp) k = Returned (lookup k fields0)) /\
  (get (body resp) (js "favicon") = Returned JNull \/
   exists dom,
     dom <> [] /\
     extractDomain (lookup (js "website") fields) = Returned (Some dom) /\
     get (body resp) (js "favicon")
     = Returned (JStr (js "https://www.google.com/s2/favicons?domain=" ++ dom
                       ++ js "&sz=128"))).
Proof.
  intros Hq Htruthy Htext Hparse Hfilter Hpeople Hne.
  unfold handle.
  rewrite (@onRequest_saving JSON_parse generateText parseInt_String to_number
             extractDomain request state d q text parsed fields people
             Hq Htruthy Htext Hparse Hfilter Hpeople Hne).
  cbn [response].
  destruct (favicon_of extractDomain (JObj fields)) as [favicon|m] eqn:Hfav;
    [|discriminate].
  intros E. apply (f_equal (fun o => match o with Returned r => r | Threw _ => resp end))
    in E. cbv beta iota in E. subst resp. cbn [status body].
  split; [reflexivity|]. unfold final_body. cbn [get].
  split; [now rewrite lookup_obj_set, jstring_eqb_refl|].
  split; [now rewrite !lookup_obj_set, Hpeople|].
  split.
  - assert (Hobj : exists fields0, parsed = JObj fields0).
    { apply filter_step_cases in Hfilter
        as [(fields0 & l & kept & -> & _)|[<- _]]; eauto. }
    destruct Hobj as (fields0 & ->). exists fields0. split; [reflexivity|].
    intros k Hk1 Hk2 Hk3. rewrite !lookup_obj_set.
    destruct (jstring_eqb_spec (js "state") k) as [E|_]; [now symmetry in E|].
    destruct (jstring_eqb_spec (js "favicon") k) as [E|_]; [now symmetry in E|].
    destruct (@filter_step_keeps (JObj fields0) fields k Hfilter Hk1)
      as (f0 & [= <-] & ->). reflexivity.
  - rewrite !lookup_obj_set. cbn [JStr.eqb]. 
    assert (Hk : JStr.eqb (js "state") (js "favicon") = false) by reflexivity.
    rewrite Hk, jstring_eqb_refl.
    unfold favicon_of in Hfav. cbn [get] in Hfav.
    destruct (truthy (lookup (js "website") fields)); [|injection Hfav as <-; now left].
    destruct (extractDomain (lookup (js "website") fields)) as [[[|c dom]|]|m] eqn:Hd;
      try discriminate; injection Hfav as <-; try (now left).
    right. exists (c :: dom). split; [discriminate|]. split; reflexivity.
Qed.

End OrchestratorAndFinders.

(** ** Instances *)

Section UpsertRoundTripExamples.

Lemma upsertCompany_insert_then_find_witness :
  exists rid d1 d2,
    upsertCompany (JStr (js "Acme")) JNull None empty_d1 = (Returned rid, d1) /\
    length (company_profiles (tables d1))
    = S (length (company_profiles (tables empty_d1))) /\
    upsertCompany (JStr (js " ACME ")) JNull None d1 = (Returned rid, d2) /\
    length (company_profiles (tables d2)) = length (company_profiles (tables d1)).
Proof.
  apply (@upsertCompany_insert_then_find (js "Acme") (js " ACME ") JNull None None
           empty_d1);
    [ reflexivity | discriminate | right; left; reflexivity | exact I | exact I
    | intros r [] | reflexivity ].
Defined.

(** Two stored companies and no employee. *)
Definition initech : CompanyProfiles.row :=
  {| CompanyProfiles.id := 2; CompanyProfiles.companyName := js "Initech";
     CompanyProfiles.website := None; CompanyProfiles.yearFounded := None;
     CompanyProfiles.description := None; CompanyProfiles.techStack := None;
     CompanyProfiles.employeeCountMin := None;
     CompanyProfiles.employeeCountMax := None;
     CompanyProfiles.revenue := None; CompanyProfiles.funding := None;
     CompanyProfiles.headquarters := None; CompanyProfiles.industry := None;
     CompanyProfiles.createdAt := Some (js "2025-01-02 00:00:00") |}.

Definition two_companies_d1 : D1 :=
  {| tables := {| company_profiles := [acme; initech]; employees := [];
                  companies := [];
                  company_profiles_seq := 2; employees_seq := 0;
                  companies_seq := 0;
                  current_timestamp := js "2025-06-01 12:00:00" |};
     failures := [] |}.

Lemma upsertEmployee_insert_then_find_witness :
  let d := two_companies_d1 in
  exists rid d1,
    upsertEmployee 1 (JStr (js "Bob")) JNull (JStr (js "bob@acme.io")) d
    = (Returned rid, d1) /\
    length (employees (tables d1)) = S (length (employees (tables d))) /\
    (exists d2,
       upsertEmployee 1 (JStr (js " BOB")) (JStr (js "CEO")) JNull d1
       = (Returned rid, d2) /\
       length (employees (tables d2)) = length (employees (tables d1))) /\
    (2%Z <> 1%Z ->
     (forall r, In r (employees (tables d)) -> ~ same_employee (js "Bob") 2 r) ->
     (company_stored 2 (tables d) ->
      exists rid' d2,
        upsertEmployee 2 (JStr (js " BOB")) (JStr (js "CEO")) JNull d1
        = (Returned rid', d2) /\
        rid' <> rid /\
        length (employees (tables d2)) = S (length (employees (tables d1)))) /\
     (~ company_stored 2 (tables d) ->
      fst (upsertEmployee 2 (JStr (js " BOB")) (JStr (js "CEO")) JNull d1)
      = Threw d1_error /\
      tables (snd (upsertEmployee 2 (JStr (js " BOB")) (JStr (js "CEO")) JNull d1))
      = tables d1)).
Proof.
  apply (@upsertEmployee_insert_then_find 1 2 (js "Bob") (js " BOB") JNull
           (JStr (js "CEO")) (JStr (js "bob@acme.io")) JNull two_companies_d1);
    [ reflexivity | discriminate | right; left; reflexivity
    | right; right; eexists; reflexivity | right; right; eexists; reflexivity
    | right; left; reflexivity | exists acme; split; [left|]; reflexivity
    | intros r [] | reflexivity ].
Defined.

(** The same call on a database without companies breaks the foreign key. *)
Example upsertEmployee_without_company :
  upsertEmployee 1 (JStr (js "Bob")) JNull (JStr (js "bob@acme.io")) empty_d1
  = (Threw d1_error, empty_d1).
Proof. reflexivity. Qed.

End UpsertRoundTripExamples.

Section AgentRoundTripExamples.
Import Agents.

(** A model that proposes one address and a verifier that accepts it. *)
Definition valid_email_handle :=
  emailFinder_onRequest (fun w => w) agents_parse agents_stringify
    (fun _ => Returned text_guess) (fun _ => Returned (js "valid")).

Lemma emailFinder_agent_answers_verified_witness :
  let request := email_request (Some (js "Grace")) (Some (js "Hopper")) in
  let run := valid_email_handle request JNull finder_d1 in
  exists resp,
    email_response run = Returned resp /\ email_events run <> [] /\
    emails (email_body resp) = [JStr (js "guess@who.io")] /\
    email_status resp = 200 /\
    length (emails (email_body resp)) <= 3 /\
    (forall e, In e (emails (email_body resp)) ->
       Returned (js "valid") = Returned (js "valid") /\
       In (Verification e) (email_events run)) /\
    (exists candidates,
       email_events run = ModelCall :: List.map Verification candidates /\
       verification_summary (email_body resp)
       = summary (length (emails (email_body resp))) (length candidates)) /\
    body_employee_name (email_body resp)
    = trim (or_empty (req_firstName request) ++ js " "
            ++ or_empty (req_lastName request)).
Proof.
  intros request run. eexists. split; [reflexivity|]. split; [discriminate|].
  split; [reflexivity|].
  apply (@emailFinder_agent_answers_verified (fun w => w) agents_parse
           agents_stringify (fun _ => Returned text_guess)
           (fun _ => Returned (js "valid")) request JNull finder_d1);
    [reflexivity | discriminate].
Defined.

Lemma emailFinder_save_merges_addresses_witness :
  let verifiedEmails := [JStr (js "ada@maths.io"); JStr (js "new@maths.io")] in
  let name := nonblank_or (js "ADA LOVELACE") unknown in
  let run := save_emails agents_parse agents_stringify (js "Maths Ltd")
               (js "maths.io") (js "ADA LOVELACE") [] (JStr (js "Founder"))
               verifiedEmails finder_d1 in
  let rows := companies (tables finder_d1) in
  let rows' := companies (tables (snd run)) in
  let saved (r : Companies.row) (addresses : list Value) : Prop :=
    Companies.company_name r = nonblank_or (js "Maths Ltd") unknown /\
    Companies.website r
    = (match trim (js "maths.io") with [] => None | _ => Some (js "maths.io") end) /\
    Companies.employee_name r = name /\
    Companies.employee_title r = Some (js "Founder") /\
    Companies.email r = Some (agents_stringify (JArr addresses)) in
  fst run = Returned tt /\
  company_profiles (tables (snd run)) = company_profiles (tables finder_d1) /\
  employees (tables (snd run)) = employees (tables finder_d1) /\
  length rows' = length rows /\
  (forall r, In r rows -> Companies.id r <> Companies.id ada_row -> In r rows') /\
  exists merged,
    (forall r', In r' rows' -> Companies.id r' = Companies.id ada_row ->
                saved r' merged) /\
    (exists r', In r' rows' /\ Companies.id r' = Companies.id ada_row) /\
    (forall s, In (JStr s) merged <->
               In (JStr s) (stored_emails agents_parse (Companies.email ada_row)) \/
               In (JStr s) verifiedEmails) /\
    (forall x, In x merged ->
               In x (stored_emails agents_parse (Companies.email ada_row)) \/
               In x verifiedEmails) /\
    (forall s, times s merged <= 1).
Proof.
  apply (@emailFinder_save_merges_addresses agents_parse agents_stringify
           (js "Maths Ltd") (js "maths.io") (js "ADA LOVELACE") []
           (JStr (js "Founder"))
           [JStr (js "ada@maths.io"); JStr (js "new@maths.io")] finder_d1
           (js "Founder"));
    reflexivity.
Defined.

(** A [JSON.stringify] that writes a list of four addresses the way
    [agents_parse] reads it. *)
Definition emails_stringify (v : Value) : jstring :=
  match v with
  | JArr [JStr a; JStr b; JStr c; JStr d] =>
      js "[" ++ qs a ++ js "," ++ qs b ++ js "," ++ qs c ++ js "," ++ qs d ++ js "]"
  | _ => js "[...]"
  end.

Lemma emailFinder_save_then_lookup_witness :
  fst (checkEmailsInDB (fun w => w) agents_parse (js "ada lovelace") JNull
         (snd (save_emails agents_parse emails_stringify (js "Maths Ltd")
                 (js "maths.io") (js "ADA LOVELACE") [] (JStr (js " Founder "))
                 [JStr (js "ada@maths.io")] finder_d1)))
  = Some {| emails := firstn 3 four_emails;
            body_company_name := js "Maths Ltd";
            body_website := js "maths.io";
            body_employee_name := js "ada lovelace";
            body_employee_title := js "Founder";
            verification_summary := js "3 out of 3 emails verified";
            body_state := JNull |}.
Proof.
  apply (@emailFinder_save_then_lookup (fun w => w) agents_parse emails_stringify
           (js "Maths Ltd") (js "maths.io") (js "ADA LOVELACE") []
           (JStr (js " Founder ")) [JStr (js "ada@maths.io")] finder_d1
           (js "Founder") (js "ada lovelace") JNull);
    reflexivity.
Defined.

End AgentRoundTripExamples.

Section FinderExamples.
Import VectorizeHandler Finder.

(** [a < b] on strings: the order of the code units. *)
Fixpoint string_lt (a b : jstring) : bool :=
  match a, b with
  | _, [] => false
  | [], _ :: _ => true
  | x :: a', y :: b' => (x <? y)%N || (x =? y)%N && string_lt a' b'
  end.

(** The integer spelled by the decimal digits of a string. *)
Fixpoint digits_value (acc : Z) (s : jstring) : option Z :=
  match s with
  | [] => Some acc
  | c :: r =>
      if ((48 <=? c) && (c <=? 57))%N
      then digits_value (10 * acc + Z.of_N (c - 48)) r
      else None
  end.

Definition integer_of (v : Value) : option Z :=
  match v with
  | JNum (Int z) => Some z
  | JStr s => digits_value 0 s
  | _ => None
  end.

(** [a > b] for integers and strings of digits, as JavaScript compares
    them: two strings by their code units, and a string with a number by the
    number it spells. *)
Definition integer_gt (a b : Value) : bool :=
  match a, b with
  | JStr x, JStr y => string_lt y x
  | _, _ =>
      match integer_of a, integer_of b with
      | Some x, Some y => (y <? x)%Z
      | _, _ => false
      end
  end.

(** Over strings and numbers together [>] is not transitive. *)
Example integer_gt_not_transitive :
  integer_gt (JStr (js "9")) (JStr (js "10")) = true /\
  integer_gt (JStr (js "10")) (JNum (Int 9)) = true /\
  integer_gt (JStr (js "9")) (JNum (Int 9)) = false.
Proof. repeat split. Qed.

Definition scored (name : jstring) (score : Z) : Fields :=
  [(js "score", JNum (Int score)); (js "company_name", JStr name)].

Definition scored_companies : list Fields :=
  [scored (js "Acme") 3; scored (js "Maths Ltd") 7; scored (js "Initech") 5].

Lemma scored_companies_ordered :
  strict_order_on integer_gt (List.map score_of scored_companies).
Proof.
  split.
  - intros a [<-|[<-|[<-|[]]]]; reflexivity.
  - intros a b c [<-|[<-|[<-|[]]]] [<-|[<-|[<-|[]]]] [<-|[<-|[<-|[]]]];
      cbn; congruence.
Qed.

Lemma finder_top_company_has_best_score_witness :
  top integer_gt scored_companies = Some (scored (js "Maths Ltd") 7) /\
  (top integer_gt scored_companies = None <-> scored_companies = []) /\
  (forall c, top integer_gt scored_companies = Some c ->
     In c scored_companies /\
     forall x, In x scored_companies ->
               integer_gt (score_of x) (score_of c) = false).
Proof.
  split; [reflexivity|].
  apply (@finder_top_company_has_best_score integer_gt scored_companies
           scored_companies_ordered).
Defined.

End FinderExamples.

Section OrchestratorResponseExamples.
Import Orchestrator.

Lemma orchestrator_passes_fields_through_witness :
  let fields := [(js "company", JStr (js "Acme")); (js "people", JArr [bob_person])] in
  let resp := {| status := 200; content_type := json;
                 body := JObj [(js "company", JStr (js "Acme"));
                               (js "people", JArr [bob_person]);
                               (js "favicon", JNull); (js "state", JNull)] |} in
  response (sample_handle (query (js "acme")) JNull empty_d1) = Returned resp /\
  status resp = 200 /\
  get (body resp) (js "state") = Returned JNull /\
  get (body resp) (js "people") = Returned (JArr [bob_person]) /\
  (exists fields0,
     value_acme = JObj fields0 /\
     forall k, k <> js "people" -> k <> js "favicon" -> k <> js "state" ->
               get (body resp) k = Returned (lookup k fields0)) /\
  (get (body resp) (js "favicon") = Returned JNull \/
   exists dom,
     dom <> [] /\
     sample_extractDomain (lookup (js "website") fields) = Returned (Some dom) /\
     get (body resp) (js "favicon")
     = Returned (JStr (js "https://www.google.com/s2/favicons?domain=" ++ dom
                       ++ js "&sz=128"))).
Proof.
  intros fields resp. split; [reflexivity|].
  apply (@orchestrator_passes_fields_through sample_parse sample_generateText
           sample_parseInt sample_to_number sample_extractDomain
           (query (js "acme")) JNull empty_d1 (JStr (js "acme"))
           (js "```json" ++ newline ++ text_acme ++ newline ++ js "```")
           value_acme fields [bob_person] resp);
    try reflexivity; discriminate.
Defined.

End OrchestratorResponseExamples.
